(** * LexonAI backend: density resolver, progress tracker, concept extraction

    A shallow embedding of the TypeScript backend of LexonAI and the
    properties its specification states about it.

    Definitions:
    - [Js]: the fragment of JavaScript values and string operations the
      backend relies on (truthiness, [typeof], property access, [trim],
      [split], [substring], [lastIndexOf], the two regular expressions of
      the density heuristic).
    - [Density]: [config/density.ts].
    - [Console], [Eff]: console output, thrown values and the calls of the
      extraction collaborator, as a state and error monad.
    - [Progress]: [services/progressManager.ts].
    - [Expand]: [services/expandSourceAgent.ts].
    - [Route]: [routes/expandSourceRoute.ts].
    - [Semantic]: the semantic edge builder, whose source files
      ([semanticGraphBuilder.ts], [evidenceGraph.ts]) are not part of the
      tree and which is modelled from the specification.

    Properties: [ProgressSpec], [DensitySpec], [ExpandSpec], [RouteSpec],
    [SemanticSpec]. *)

From Stdlib Require Import ZArith QArith Ascii String List Lia.
From stdpp Require Import gmap strings list pretty.

Local Open Scope Z_scope.

(** ** JavaScript values and strings *)

Module Js.

(** A JavaScript string is a sequence of UTF-16 code units.  [length] is
    [String.prototype.length]. *)
Abbreviation jsstring := (list N) (only parsing).

(** The code units of an ASCII literal of the source text. *)
Definition js (s : string) : jsstring :=
  (fun a => N_of_ascii a) <$> list_ascii_of_string s.

(** Decimal rendering of an integer inside a template literal. *)
Definition showZ (z : Z) : jsstring := js (pretty z).

#[global] Arguments js : simpl never.
#[global] Arguments showZ : simpl never.

(** Values as they come out of [JSON.parse] or a request body.  Numbers are
    kept exact (a JSON number literal denotes a rational); the code below
    only tests them for being numbers and for truthiness. *)
#[warnings="-register-all"]
Inductive JSValue : Type :=
| JUndefined
| JNull
| JBool (b : bool)
| JNumber (q : Q)
| JString (s : jsstring)
| JArray (elems : list JSValue)
| JObject (fields : list (jsstring * JSValue)).

Inductive JSType : Type :=
| TUndefined | TObject | TBoolean | TNumber | TString.

Definition typeof (v : JSValue) : JSType :=
  match v with
  | JUndefined => TUndefined
  | JNull => TObject
  | JBool _ => TBoolean
  | JNumber _ => TNumber
  | JString _ => TString
  | JArray _ => TObject
  | JObject _ => TObject
  end.

Definition JSType_eqb (a b : JSType) : bool :=
  match a, b with
  | TUndefined, TUndefined | TObject, TObject | TBoolean, TBoolean
  | TNumber, TNumber | TString, TString => true
  | _, _ => false
  end.

(** [ToBoolean]. *)
Definition truthy (v : JSValue) : bool :=
  match v with
  | JUndefined | JNull => false
  | JBool b => b
  | JNumber q => negb (Qeq_bool q 0)
  | JString s => negb (bool_decide (s = []))
  | JArray _ | JObject _ => true
  end.

(** Own-property lookup in an object literal; the first binding of a key
    is the one the object holds. *)
Fixpoint lookupField (k : jsstring) (fields : list (jsstring * JSValue)) : JSValue :=
  match fields with
  | [] => JUndefined
  | (k', v) :: rest => if bool_decide (k' = k) then v else lookupField k rest
  end.

(** [v.k] for the property names the backend reads ([title], [url],
    [content], [text], [short_label], [importance], [concepts],
    [densityLevel]): none of them is an inherited property, so only an
    object's own fields answer; reading a property of [undefined] or [null]
    throws a [TypeError], rendered as [None]. *)
Definition getProp (v : JSValue) (k : jsstring) : option JSValue :=
  match v with
  | JUndefined | JNull => None
  | JObject fields => Some (lookupField k fields)
  | JBool _ | JNumber _ | JString _ | JArray _ => Some JUndefined
  end.

(** The same read where the source has already established that [v] is a
    truthy value, so that no [TypeError] is possible. *)
Definition prop (v : JSValue) (k : jsstring) : JSValue :=
  default JUndefined (getProp v k).

(** *** Characters *)

(** [\s] of a regular expression and the characters [trim] strips:
    WhiteSpace and LineTerminator of ECMA-262. *)
Definition isWhiteSpace (c : N) : bool :=
  ((9 <=? c) && (c <=? 13) || (c =? 32) || (c =? 160) || (c =? 5760)
   || ((8192 <=? c) && (c <=? 8202)) || (c =? 8232) || (c =? 8233)
   || (c =? 8239) || (c =? 8287) || (c =? 12288) || (c =? 65279))%N.

(** [\w]: [A-Za-z0-9_]. *)
Definition isWordChar (c : N) : bool :=
  ((48 <=? c) && (c <=? 57) || (65 <=? c) && (c <=? 90) || (c =? 95)
   || (97 <=? c) && (c <=? 122))%N.

(** Canonicalization of the [i] flag (without [u]) as far as it can make a
    character equal to an ASCII pattern character: a character outside
    ASCII is never mapped into ASCII. *)
Definition canonicalize (c : N) : N :=
  if ((97 <=? c) && (c <=? 122))%N then (c - 32)%N else c.

(** *** String operations *)

Fixpoint trimStart (s : jsstring) : jsstring :=
  match s with
  | c :: r => if isWhiteSpace c then trimStart r else s
  | [] => []
  end.

Definition trimEnd (s : jsstring) : jsstring :=
  reverse (trimStart (reverse s)).

(** [s.trim()]. *)
Definition trim (s : jsstring) : jsstring := trimEnd (trimStart s).

(** [s.split(/\s+/)]: the pieces between maximal runs of white space.  A
    run at either end leaves an empty piece there, and the empty string
    splits into one empty piece.  [cur] is the piece being read, [inSep]
    tells that the previous character belonged to a separator. *)
Fixpoint splitWsFrom (inSep : bool) (cur : jsstring) (s : jsstring) : list jsstring :=
  match s with
  | [] => [cur]
  | c :: r =>
      if isWhiteSpace c then
        if inSep then splitWsFrom true cur r
        else cur :: splitWsFrom true [] r
      else splitWsFrom false (cur ++ [c]) r
  end.

Definition splitWs (s : jsstring) : list jsstring := splitWsFrom false [] s.

(** [(s.match(/c/g) || []).length] for a single literal character. *)
Definition countChar (c : N) (s : jsstring) : nat :=
  length (filter (fun x => x = c) s).

(** [s.substring(0, n)]: a negative end counts as 0, one past the end as
    the length. *)
Definition substring0 (s : jsstring) (n : Z) : jsstring := take (Z.to_nat n) s.

(** [s.lastIndexOf(c)] for a single character: the greatest index holding
    [c], or -1. *)
Fixpoint lastIndexOfFrom (c : N) (s : jsstring) (i : Z) (found : Z) : Z :=
  match s with
  | [] => found
  | x :: r => lastIndexOfFrom c r (i + 1) (if (x =? c)%N then i else found)
  end.

Definition lastIndexOf (c : N) (s : jsstring) : Z := lastIndexOfFrom c s 0 (-1).

(** *** The regular expressions [/\b(w1|...|wn)\b/i] *)

(** The literal [w] matches case-insensitively at the head of [s]; the
    result is the last character matched and what follows the match. *)
Fixpoint matchLiteral (w s : jsstring) (last : option N) : option (option N * jsstring) :=
  match w with
  | [] => Some (last, s)
  | p :: w' =>
      match s with
      | c :: s' =>
          if (canonicalize c =? canonicalize p)%N then matchLiteral w' s' (Some c)
          else None
      | [] => None
      end
  end.

Definition isWordAt (c : option N) : bool :=
  match c with Some x => isWordChar x | None => false end.

(** [\b] between a character and its successor (either may be missing at
    an end of the input). *)
Definition wordBoundary (before after : option N) : bool :=
  xorb (isWordAt before) (isWordAt after).

(** One alternative of the pattern at one position. *)
Definition matchWordHere (prev : option N) (s : jsstring) (w : jsstring) : bool :=
  wordBoundary prev (head s) &&
  match matchLiteral w s prev with
  | Some (last, rest) => wordBoundary last (head rest)
  | None => false
  end.

(** [/\b(w1|...|wn)\b/i.test(s)]: some alternative matches at some
    position. *)
Fixpoint testWordsFrom (alts : list jsstring) (prev : option N) (s : jsstring) : bool :=
  existsb (matchWordHere prev s) alts ||
  match s with
  | [] => false
  | c :: r => testWordsFrom alts (Some c) r
  end.

Definition testWords (alts : list jsstring) (s : jsstring) : bool :=
  testWordsFrom alts None s.

End Js.

(** ** Density resolver ([config/density.ts]) *)

Module Density.
Import Js.

Inductive DensityLevel : Type := Low | Medium | High.

Record SourcesPerBlock : Type :=
  { min : Z; target : Z; max : Z }.

Record SecondarySources : Type :=
  { topSourcesToProcess : Z; conceptsPerSource : Z; maxTotalConcepts : Z }.

Record SemanticEdges : Type :=
  { minSimilarity : Q; topK : Z; maxEdges : Z }.

Record DensityConfig : Type :=
  { exaNumResults : Z;
    directSourcesPerBlock : SourcesPerBlock;
    secondarySources : SecondarySources;
    semanticEdges : SemanticEdges }.

Definition DENSITY_PRESETS (level : DensityLevel) : DensityConfig :=
  match level with
  | Low =>
      {| exaNumResults := 6;
         directSourcesPerBlock := {| min := 1; target := 2; max := 4 |};
         secondarySources :=
           {| topSourcesToProcess := 3; conceptsPerSource := 2; maxTotalConcepts := 15 |};
         semanticEdges := {| minSimilarity := 0.65; topK := 4; maxEdges := 40 |} |}
  | Medium =>
      {| exaNumResults := 10;
         directSourcesPerBlock := {| min := 1; target := 4; max := 6 |};
         secondarySources :=
           {| topSourcesToProcess := 5; conceptsPerSource := 3; maxTotalConcepts := 30 |};
         semanticEdges := {| minSimilarity := 0.60; topK := 6; maxEdges := 80 |} |}
  | High =>
      {| exaNumResults := 12;
         directSourcesPerBlock := {| min := 1; target := 5; max := 8 |};
         secondarySources :=
           {| topSourcesToProcess := 8; conceptsPerSource := 4; maxTotalConcepts := 40 |};
         semanticEdges := {| minSimilarity := 0.55; topK := 8; maxEdges := 120 |} |}
  end.

Definition DEFAULT_DENSITY : DensityLevel := Medium.

(** [getDensityConfig(level = DEFAULT_DENSITY)]: [None] is an omitted (or
    [undefined]) argument, which takes the default. *)
Definition getDensityConfig (level : option DensityLevel) : DensityConfig :=
  DENSITY_PRESETS (default DEFAULT_DENSITY level).

(** The string value of a level, as the type ['low' | 'medium' | 'high']
    spells it. *)
Definition levelName (l : DensityLevel) : jsstring :=
  match l with Low => js "low" | Medium => js "medium" | High => js "high" end.

(** [inferDensityLevel(question, answerBlockCount?)].  The score is built
    up by the same sequence of conditional increments as in the source. *)
Definition questionWords (question : jsstring) : Z :=
  Z.of_nat (length (splitWs (trim question))).

Definition questionMarks (question : jsstring) : Z :=
  Z.of_nat (countChar 63%N question).

Definition multiPartWords : list jsstring :=
  [js "and"; js "or"; js "also"; js "additionally"; js "furthermore"; js "moreover"].

Definition listWords : list jsstring :=
  [js "list"; js "enumerate"; js "what are"; js "types of"; js "kinds of"; js "examples of"].

Definition hasMultiPartIndicators (question : jsstring) : bool :=
  testWords multiPartWords question.

Definition hasListIndicators (question : jsstring) : bool :=
  testWords listWords question.

Definition inferDensityLevel (question : jsstring) (answerBlockCount : option Z) : DensityLevel :=
  let score := 0 in
  let score :=
    if 20 <? questionWords question then score + 2
    else if 10 <? questionWords question then score + 1
    else score in
  let score := if 1 <? questionMarks question then score + 2 else score in
  let score := if hasMultiPartIndicators question then score + 1 else score in
  let score := if hasListIndicators question then score + 1 else score in
  let score :=
    match answerBlockCount with
    | Some n =>
        if 6 <=? n then score + 2
        else if 4 <=? n then score + 1
        else score
    | None => score
    end in
  if 4 <=? score then High
  else if 2 <=? score then Medium
  else Low.

(** *** The heuristic in the words of the specification

    What the specification counts and looks for in a question, stated
    without the string methods and regular expressions of the source. *)

(** White space, which separates the words of a text. *)
Definition blanks : list N :=
  [9; 10; 11; 12; 13; 32; 160; 5760;
   8192; 8193; 8194; 8195; 8196; 8197; 8198; 8199; 8200; 8201; 8202;
   8232; 8233; 8239; 8287; 12288; 65279]%N.

Definition blank (c : N) : Prop := c ∈ blanks.

(** The number of words of a text: its maximal runs of characters that
    are not white space.  [inWord] tells that the previous character
    belonged to a word. *)
Fixpoint countRuns (inWord : bool) (s : jsstring) : nat :=
  match s with
  | [] => 0
  | c :: r =>
      if bool_decide (blank c) then countRuns false r
      else ((if inWord then 0 else 1) + countRuns true r)%nat
  end.

Definition wordCount (s : jsstring) : nat := countRuns false s.

(** The number of question marks of a text. *)
Fixpoint questionMarkCount (s : jsstring) : Z :=
  match s with
  | [] => 0
  | c :: r => (if bool_decide (c = 63%N) then 1 else 0) + questionMarkCount r
  end.

(** A character that belongs to a word: a digit, an ASCII letter or the
    underscore. *)
Definition wordCharacter (c : N) : Prop :=
  (48 <= c <= 57 ∨ 65 <= c <= 90 ∨ c = 95 ∨ 97 <= c <= 122)%N.

(** An ASCII capital as the small letter; any other character as it is. *)
Definition lower (c : N) : N :=
  if decide (65 <= c <= 90)%N then (c + 32)%N else c.

(** No character, or one that does not belong to a word. *)
Definition apart (c : option N) : Prop :=
  match c with
  | Some x => ¬ wordCharacter x
  | None => True
  end.

#[global] Instance apart_dec c : Decision (apart c).
Proof. destruct c; apply _. Defined.

(** The indicator [w] stands in the text [s] at position [i]: the
    characters from [i] on spell [w] up to the case of letters, and neither
    the character before them nor the one after them belongs to a word. *)
Definition standsAt (w s : jsstring) (i : nat) : Prop :=
  lower <$> take (length w) (drop i s) = lower <$> w ∧
  apart (last (take i s)) ∧
  apart (s !! (i + length w)%nat).

(** The text contains one of the indicators. *)
Definition containsIndicator (indicators : list jsstring) (s : jsstring) : Prop :=
  Exists (fun w => Exists (standsAt w s) (seq 0 (S (length s)))) indicators.

(** The multi-part conjunction indicators and the list indicators. *)
Definition conjunctionIndicators : list jsstring :=
  [js "and"; js "or"; js "also"; js "additionally"; js "furthermore"; js "moreover"].

Definition listIndicators : list jsstring :=
  [js "list"; js "enumerate"; js "what are"; js "types of"; js "kinds of";
   js "examples of"].

(** The score as the sum of its five contributions. *)
Definition lengthPoints (words : Z) : Z :=
  if 20 <? words then 2 else if 10 <? words then 1 else 0.

Definition blockPoints (answerBlockCount : option Z) : Z :=
  match answerBlockCount with
  | Some n => if 6 <=? n then 2 else if 4 <=? n then 1 else 0
  | None => 0
  end.

Definition additiveScore (question : jsstring) (answerBlockCount : option Z) : Z :=
  lengthPoints (Z.of_nat (wordCount question))
  + (if 1 <? questionMarkCount question then 2 else 0)
  + (if decide (containsIndicator conjunctionIndicators question) then 1 else 0)
  + (if decide (containsIndicator listIndicators question) then 1 else 0)
  + blockPoints answerBlockCount.

(** An indicator that begins and ends with a character of a word. *)
Definition wordy (w : jsstring) : Prop :=
  match head w, last w with
  | Some p, Some q => wordCharacter p ∧ wordCharacter q
  | _, _ => False
  end.

#[global] Instance wordy_dec w : Decision (wordy w).
Proof. unfold wordy. destruct (head w), (last w); apply _. Defined.

(** The text is empty or its last character belongs to a word. *)
Definition endsInWord (s : jsstring) : Prop :=
  match last s with Some c => isWhiteSpace c = false | None => True end.

(** A question of 25 words with two question marks and the list indicator
    [what are]. *)
Definition longQuestion : jsstring :=
  js "What are the main types of neural networks used today in computer vision? How do they really differ in training cost, accuracy, speed of inference?".

End Density.

(** ** Console output

    [console.log], [console.warn] and [console.error] append a line to the
    process's console; the lines are kept in the order they were written. *)

Module Console.
Import Js.

Inductive Level : Type := Log | Warn | Error.

Definition Line : Type := (Level * jsstring)%type.

End Console.

(** ** Progress tracker ([services/progressManager.ts]) *)

Module Progress.
Import Js.

Record ProgressState : Type :=
  { progress : Z;          (* 0-100 *)
    status : jsstring;     (* human-readable status message *)
    phase : jsstring;      (* current phase *)
    createdAt : Z }.       (* timestamp for cleanup *)

(** The singleton [ProgressManager]: its job map, whether its cleanup
    timer is armed, and the console it writes to.  The clock ([Date.now()])
    is an argument of the methods that read it. *)
Record ProgressManager : Type :=
  { jobs : gmap jsstring ProgressState;
    cleanupInterval : bool;
    console : list Console.Line }.

Definition CLEANUP_AFTER_MS : Z := 5 * 60 * 1000.
Definition CLEANUP_CHECK_INTERVAL_MS : Z := 60 * 1000.

Definition setJobs (m : gmap jsstring ProgressState) (pm : ProgressManager) : ProgressManager :=
  {| jobs := m; cleanupInterval := cleanupInterval pm; console := console pm |}.

Definition say (lvl : Console.Level) (msg : jsstring) (pm : ProgressManager) : ProgressManager :=
  {| jobs := jobs pm; cleanupInterval := cleanupInterval pm;
     console := console pm ++ [(lvl, msg)] |}.

(** [new ProgressManager()]: an empty map and an armed timer. *)
Definition constructor : ProgressManager :=
  {| jobs := ∅; cleanupInterval := true; console := [] |}.

Definition createJob (jobId : jsstring) (now : Z) (pm : ProgressManager) : ProgressManager :=
  let pm :=
    setJobs (<[jobId := {| progress := 0; status := js "Starting...";
                           phase := js "init"; createdAt := now |}]> (jobs pm)) pm in
  say Console.Log (js "[ProgressManager] Created job: " ++ jobId) pm.

Definition updateProgress (jobId : jsstring) (progress' : Z) (status' phase' : jsstring)
    (pm : ProgressManager) : ProgressManager :=
  match jobs pm !! jobId with
  | None => say Console.Warn (js "[ProgressManager] Job not found: " ++ jobId) pm
  | Some job =>
      (* Ensure progress is monotonic (never decreases) *)
      let newProgress := Z.max (progress job) (Z.min 100 progress') in
      let pm :=
        setJobs (<[jobId := {| progress := newProgress; status := status';
                               phase := phase'; createdAt := createdAt job |}]> (jobs pm)) pm in
      say Console.Log
        (js "[ProgressManager] Updated job " ++ jobId ++ js ": " ++ showZ newProgress
           ++ js "% - " ++ status') pm
  end.

Definition getProgress (jobId : jsstring) (pm : ProgressManager) : option ProgressState :=
  jobs pm !! jobId.

Definition completeJob (jobId : jsstring) (pm : ProgressManager) : ProgressManager :=
  match jobs pm !! jobId with
  | None =>
      say Console.Warn (js "[ProgressManager] Cannot complete - job not found: " ++ jobId) pm
  | Some job =>
      let pm :=
        setJobs (<[jobId := {| progress := 100; status := js "Ready";
                               phase := js "complete"; createdAt := createdAt job |}]> (jobs pm)) pm in
      say Console.Log (js "[ProgressManager] Completed job: " ++ jobId) pm
  end.

Definition removeJob (jobId : jsstring) (pm : ProgressManager) : ProgressManager :=
  match jobs pm !! jobId with
  | Some _ =>
      say Console.Log (js "[ProgressManager] Removed job: " ++ jobId)
        (setJobs (delete jobId (jobs pm)) pm)
  | None => pm
  end.

(** The loop of [cleanupOldJobs] over [this.jobs.entries()]: every entry is
    visited once (deleting the entry being visited does not disturb a
    [Map] iteration); [acc] is the map and [cleanedCount]. *)
Fixpoint sweepEntries (now : Z) (entries : list (jsstring * ProgressState))
    (acc : gmap jsstring ProgressState * Z) : gmap jsstring ProgressState * Z :=
  match entries with
  | [] => acc
  | (jobId, job) :: rest =>
      sweepEntries now rest
        (if CLEANUP_AFTER_MS <? now - createdAt job
         then (delete jobId acc.1, acc.2 + 1)
         else acc)
  end.

Definition cleanupOldJobs (now : Z) (pm : ProgressManager) : ProgressManager :=
  let '(m, cleanedCount) := sweepEntries now (map_to_list (jobs pm)) (jobs pm, 0) in
  let pm := setJobs m pm in
  if 0 <? cleanedCount then
    say Console.Log
      (js "[ProgressManager] Cleaned up " ++ showZ cleanedCount ++ js " old job(s)") pm
  else pm.

Definition shutdown (pm : ProgressManager) : ProgressManager :=
  say Console.Log (js "[ProgressManager] Shutdown complete")
    {| jobs := jobs pm; cleanupInterval := false; console := console pm |}.

Definition getActiveJobCount (pm : ProgressManager) : Z := Z.of_nat (size (jobs pm)).

(** Calls on the manager, and the state after a sequence of them.  Each
    call carries the clock reading at which it runs; only [createJob] and
    the sweep read the clock. *)
Inductive Call : Type :=
| CreateJob (jobId : jsstring)
| UpdateProgress (jobId : jsstring) (progress : Z) (status phase : jsstring)
| CompleteJob (jobId : jsstring)
| RemoveJob (jobId : jsstring)
| SweepTick.

Definition step (pm : ProgressManager) (c : Z * Call) : ProgressManager :=
  match c.2 with
  | CreateJob jobId => createJob jobId c.1 pm
  | UpdateProgress jobId p st ph => updateProgress jobId p st ph pm
  | CompleteJob jobId => completeJob jobId pm
  | RemoveJob jobId => removeJob jobId pm
  | SweepTick => if cleanupInterval pm then cleanupOldJobs c.1 pm else pm
  end.

Definition run (calls : list (Z * Call)) (pm : ProgressManager) : ProgressManager :=
  foldl step pm calls.

(** When a job was last touched, in the words of the specification: the
    time of the latest [createJob] or [updateProgress] on it. *)
Definition touches (jobId : jsstring) (c : Z * Call) : bool :=
  match c.2 with
  | CreateJob j | UpdateProgress j _ _ _ => bool_decide (j = jobId)
  | _ => false
  end.

Definition lastTouched (jobId : jsstring) (calls : list (Z * Call)) : option Z :=
  fst <$> last (filter (fun c => touches jobId c = true) calls).

(** The time of the latest [createJob] on a job. *)
Definition creates (jobId : jsstring) (c : Z * Call) : bool :=
  match c.2 with
  | CreateJob j => bool_decide (j = jobId)
  | _ => false
  end.

Definition lastCreated (jobId : jsstring) (calls : list (Z * Call)) : option Z :=
  fst <$> last (filter (fun c => creates jobId c = true) calls).

Definition isUpdate (c : Z * Call) : Prop :=
  match c.2 with UpdateProgress _ _ _ _ => True | _ => False end.

(** Clock readings never go back along a sequence of calls. *)
Definition chronological (calls : list (Z * Call)) : Prop :=
  ∀ i j a b, (i ≤ j)%nat → calls !! i = Some a → calls !! j = Some b → a.1 ≤ b.1.

Definition j1 : jsstring := js "j1".

(** The scenario of the specification's first testable property: a job is
    created and brought to 50; a later call then asks for 30. *)
Definition answering : list (Z * Call) :=
  [(0, CreateJob j1);
   (10, UpdateProgress j1 50 (js "Answering") (js "answer"))].

Definition regressive : list (Z * Call) :=
  answering ++ [(20, UpdateProgress j1 30 (js "x") (js "y"))].

(** A job created at time 0, updated shortly before the retention window
    closes, and swept shortly after. *)
Definition lateUpdate : list (Z * Call) :=
  [(0, CreateJob j1);
   (299000, UpdateProgress j1 50 (js "Answering") (js "answer"))].

End Progress.

(** ** Effects of the request-handling code

    The service and the route write to the console, call the extraction
    collaborator ([exaClient.answer]) and may throw.  A computation takes
    the world before it and gives the world after it together with either
    the value thrown or the value returned. *)

Module Eff.
Import Js.

(** What a [throw] carries: an [Error] with its message, or anything else. *)
Inductive Thrown : Type :=
| ThrowError (message : jsstring)
| ThrowOther (v : JSValue).

(** [error instanceof Error ? error.message : 'Unknown error']. *)
Definition errorMsgOf (error : Thrown) : jsstring :=
  match error with
  | ThrowError message => message
  | ThrowOther _ => js "Unknown error"
  end.

Record World : Type :=
  { console : list Console.Line;
    exaCalls : list jsstring }.   (* the prompts sent to the collaborator *)

Definition quiet : World := {| console := []; exaCalls := [] |}.

Definition M (A : Type) : Type := World → World * (Thrown + A).

#[global] Instance M_ret : MRet M := fun A a w => (w, inr a).

#[global] Instance M_bind : MBind M := fun A B f m w =>
  match m w with
  | (w', inl e) => (w', inl e)
  | (w', inr a) => f a w'
  end.

Definition throw {A : Type} (e : Thrown) : M A := fun w => (w, inl e).

(** [try { body } catch (error) { handler(error) }]. *)
Definition tryCatch {A : Type} (body : M A) (handler : Thrown → M A) : M A := fun w =>
  match body w with
  | (w', inl e) => handler e w'
  | (w', inr a) => (w', inr a)
  end.

Definition say (lvl : Console.Level) (msg : jsstring) : M unit := fun w =>
  ({| console := console w ++ [(lvl, msg)]; exaCalls := exaCalls w |}, inr tt).

(** Lifting a pure step that reports warnings and may throw. *)
Definition lift {A : Type} (r : list Console.Line * (Thrown + A)) : M A := fun w =>
  ({| console := console w ++ r.1; exaCalls := exaCalls w |}, r.2).

End Eff.

(** ** Concept extraction from one source ([services/expandSourceAgent.ts]) *)

Module Expand.
Import Js Density Eff.

Record ExpandedConcept : Type :=
  { title : jsstring;         (* concept name *)
    text : jsstring;          (* 2-4 sentence explanation *)
    short_label : jsstring;   (* 1-3 word tag *)
    importance : option Q }.  (* optional importance score *)

Record SourceInput : Type :=
  { source_title : jsstring;
    source_url : jsstring;
    source_content : jsstring }.

(** *** Validation of the collaborator's answer *)

(** One round of the loop of [validateConceptsResponse] on the element at
    index [i]: either a warning and [continue], or a [push]. *)
Definition validateElement (i : Z) (concept : JSValue)
    (out : list Console.Line * list ExpandedConcept) : list Console.Line * list ExpandedConcept :=
  if negb (truthy concept) || negb (JSType_eqb (typeof concept) TObject) then
    (out.1 ++ [(Console.Warn, js "[ExpandSourceAgent] Skipping invalid concept " ++ showZ i)],
     out.2)
  else
    match prop concept (js "title"), prop concept (js "text") with
    | JString c_title, JString c_text =>
        let short_label :=
          match prop concept (js "short_label") with
          | JString s => s
          | _ => c_title
          end in
        let importance :=
          match prop concept (js "importance") with
          | JNumber q => Some q
          | _ => None
          end in
        (out.1,
         out.2 ++ [{| title := c_title; text := c_text;
                      short_label := short_label; importance := importance |}])
    | _, _ =>
        (out.1 ++ [(Console.Warn,
                    js "[ExpandSourceAgent] Skipping concept " ++ showZ i
                      ++ js " with invalid title/text")],
         out.2)
    end.

Fixpoint validateLoop (i : Z) (elems : list JSValue)
    (out : list Console.Line * list ExpandedConcept) : list Console.Line * list ExpandedConcept :=
  match elems with
  | [] => out
  | concept :: rest => validateLoop (i + 1) rest (validateElement i concept out)
  end.

Definition validateConceptsResponse (response : JSValue)
    : list Console.Line * (Thrown + list ExpandedConcept) :=
  if negb (truthy response) || negb (JSType_eqb (typeof response) TObject) then
    ([], inl (ThrowError (js "Invalid response: not an object")))
  else
    match prop response (js "concepts") with
    | JArray elems =>
        let out := validateLoop 0 elems ([], []) in
        (out.1, inr out.2)
    | _ => ([], inl (ThrowError (js "Invalid response: concepts is not an array")))
    end.

(** What the validation makes of one element taken alone: the concept it
    keeps, or nothing. *)
Definition conceptOf (concept : JSValue) : option ExpandedConcept :=
  head (validateElement 0 concept ([], [])).2.

(** *** Prompt building *)

Section Service.

(** [lastPeriod > maxChars * 0.7], a comparison of IEEE doubles.  It is a
    parameter of the truncation: what is proved of [truncateContent] below
    holds whichever way the rounding of the product lets it fall. *)
Variable exceeds70 : Z → Z → bool.

Definition truncateContent (content : jsstring) (maxChars : Z) : jsstring :=
  if Z.of_nat (length content) <=? maxChars then content
  else
    let truncated := substring0 content maxChars in
    let lastPeriod := lastIndexOf 46%N truncated in
    if exceeds70 lastPeriod maxChars then
      substring0 truncated (lastPeriod + 1) ++ js " [...]"
    else truncated ++ js "...".

Definition quote : jsstring := [34%N].
Definition newline : jsstring := [10%N].

(** The part of the prompt before the content. *)
Definition promptHead (source : SourceInput) : jsstring :=
  js "Source Title: " ++ source_title source ++ newline
  ++ js "Source URL: " ++ source_url source ++ newline
  ++ newline
  ++ js "Content:" ++ newline.

(** The part of the prompt after the content. *)
Definition promptTail (conceptCount : Z) : jsstring :=
  newline ++ newline
  ++ js "Extract " ++ showZ conceptCount ++ js " supporting concepts from this source that:" ++ newline
  ++ js "- Reveal core ideas, terminology, or themes from the content" ++ newline
  ++ js "- Are distinct and non-overlapping" ++ newline
  ++ js "- Include an importance score between 0 and 1 (higher = more central to the source)" ++ newline
  ++ newline
  ++ js "Return ONLY valid JSON matching this structure:" ++ newline
  ++ js "{" ++ newline
  ++ js "  " ++ quote ++ js "concepts" ++ quote ++ js ": [" ++ newline
  ++ js "    {" ++ newline
  ++ js "      " ++ quote ++ js "title" ++ quote ++ js ": "
       ++ quote ++ js "Concept name (1-5 words)" ++ quote ++ js "," ++ newline
  ++ js "      " ++ quote ++ js "text" ++ quote ++ js ": "
       ++ quote ++ js "2-4 sentence explanation of this concept" ++ quote ++ js "," ++ newline
  ++ js "      " ++ quote ++ js "short_label" ++ quote ++ js ": "
       ++ quote ++ js "tag (1-3 words for visualization)" ++ quote ++ js "," ++ newline
  ++ js "      " ++ quote ++ js "importance" ++ quote ++ js ": 0.85" ++ newline
  ++ js "    }" ++ newline
  ++ js "  ]" ++ newline
  ++ js "}" ++ newline
  ++ newline
  ++ js "Provide exactly " ++ showZ conceptCount
  ++ js " concepts. Keep text concise and focused.".

Definition buildExpandPrompt (source : SourceInput) (conceptCount : Z) : jsstring :=
  let truncatedContent := truncateContent (source_content source) 2000 in
  promptHead source ++ truncatedContent ++ promptTail conceptCount.

(** *** The agent *)

(** [config.exaApiKey], a string or [undefined]. *)
Variable exaApiKey : option jsstring.

(** [await exaClient.answer(prompt, ...)]: the collaborator resolves with a
    response object or rejects. *)
Variable exaAnswer : jsstring → Thrown + JSValue.

(** The message of the engine's [TypeError] for reading a property of
    [undefined] or [null]. *)
Variable typeErrorMessage : jsstring.

Definition configured : bool :=
  match exaApiKey with
  | Some k => negb (bool_decide (k = []))
  | None => false
  end.

(** [const exaClient = config.exaApiKey ? new Exa(config.exaApiKey) : null]. *)
Definition exaClient : option (jsstring → Thrown + JSValue) :=
  if configured then Some exaAnswer else None.

Definition callAnswer (client : jsstring → Thrown + JSValue) (prompt : jsstring) : M JSValue :=
  fun w => ({| console := console w; exaCalls := exaCalls w ++ [prompt] |}, client prompt).

(** [v.k] inside a [try]. *)
Definition readProp (v : JSValue) (k : jsstring) : M JSValue :=
  match getProp v k with
  | Some x => mret x
  | None => throw (ThrowError typeErrorMessage)
  end.

Definition expandSourceAgent (source : SourceInput) (densityLevel : option DensityLevel)
    : M (list ExpandedConcept) :=
  let densityLevel := default DEFAULT_DENSITY densityLevel in
  say Console.Log (js "[ExpandSourceAgent] Expanding source: " ++ source_title source);;
  say Console.Log (js "[ExpandSourceAgent] Density level: " ++ levelName densityLevel);;
  if negb configured then throw (ThrowError (js "EXA_API_KEY not configured"))
  else
    match exaClient with
    | None => throw (ThrowError (js "Exa client not initialized"))
    | Some client =>
        if bool_decide (source_title source = []) || bool_decide (source_url source = [])
           || bool_decide (source_content source = [])
        then throw (ThrowError (js "Source must have title, url, and content"))
        else
          let densityConfig := getDensityConfig (Some densityLevel) in
          let conceptCount := conceptsPerSource (secondarySources densityConfig) in
          say Console.Log
            (js "[ExpandSourceAgent] Extracting " ++ showZ conceptCount ++ js " concepts");;
          let prompt := buildExpandPrompt source conceptCount in
          tryCatch
            (response ← callAnswer client prompt;
             answer ← readProp response (js "answer");
             concepts ← lift (validateConceptsResponse answer);
             say Console.Log
               (js "[ExpandSourceAgent] Successfully extracted "
                  ++ showZ (Z.of_nat (length concepts)) ++ js " concepts");;
             mret concepts)
            (fun error =>
               let errorMsg := errorMsgOf error in
               say Console.Error (js "[ExpandSourceAgent] Extraction failed: " ++ errorMsg);;
               throw (ThrowError (js "Failed to extract concepts: " ++ errorMsg)))
    end.

End Service.

(** The exact-arithmetic reading of [lastPeriod > maxChars * 0.7]; for
    [maxChars = 2000] the product is exactly 1400 in doubles as well. *)
Definition exceeds70Exact (lastPeriod maxChars : Z) : bool :=
  7 * maxChars <? 10 * lastPeriod.

(** An answer of the collaborator whose only concept has an empty title
    and an empty text. *)
(** What precedes the truncation marker in a truncated text, and the two
    markers. *)
Definition isMarker (marker : jsstring) : Prop :=
  marker = js " [...]" ∨ marker = js "...".

Definition truncatedTo (content : jsstring) (maxChars : Z) (shown : jsstring) : Prop :=
  ∃ kept marker,
    shown = kept ++ marker ∧ kept `prefix_of` content ∧
    Z.of_nat (length kept) ≤ maxChars ∧ isMarker marker.

Definition blankConcept : JSValue :=
  JObject [(js "title", JString []); (js "text", JString [])].

Definition blankAnswer : JSValue :=
  JObject [(js "concepts", JArray [blankConcept])].

(** An answer with a good concept between two unusable ones. *)
Definition mixedAnswer : JSValue :=
  JObject [(js "concepts",
            JArray [JNull;
                    JObject [(js "title", JString (js "Masking"));
                             (js "text", JString (js "Hiding traits."));
                             (js "importance", JString (js "high"))];
                    JObject [(js "title", JNumber 7); (js "text", JString (js "x"))]])].

End Expand.

(** ** The route [POST /api/expand/source] ([routes/expandSourceRoute.ts]) *)

Module Route.
Import Js Density Eff Expand.

(** What the handler sends: [res.status(code).json(body)]. *)
Record Response : Type :=
  { statusCode : Z;
    body : JSValue }.

(** [validateDensityLevel(level: unknown)]. *)
Definition validateDensityLevel (level : JSValue) : DensityLevel :=
  match level with
  | JString s =>
      if bool_decide (s = js "low") then Low
      else if bool_decide (s = js "medium") then Medium
      else if bool_decide (s = js "high") then High
      else DEFAULT_DENSITY
  | _ => DEFAULT_DENSITY
  end.

Definition errorBody (error message : jsstring) : JSValue :=
  JObject [(js "error", JString error); (js "message", JString message)].

Definition number (z : Z) : JSValue := JNumber (inject_Z z).

Definition conceptValue (c : ExpandedConcept) : JSValue :=
  JObject [(js "title", JString (title c));
           (js "text", JString (text c));
           (js "short_label", JString (short_label c));
           (js "importance",
             match importance c with Some q => JNumber q | None => JUndefined end)].

(** The string held by a value the handler has checked to be a string. *)
Definition stringOf (v : JSValue) : jsstring :=
  match v with JString s => s | _ => [] end.

Section Handler.

Variable exceeds70 : Z → Z → bool.
Variable exaApiKey : option jsstring.
Variable exaAnswer : jsstring → Thrown + JSValue.
Variable typeErrorMessage : jsstring.

(** [handleExpandSource(req, res)].  [reqBody] is [req.body];
    [requestStart] is the clock reading taken on entry and [finish] the
    one taken when the extraction has returned or thrown (the second call
    of [Date.now()], which a request refused by the validation never
    reaches). *)
Definition handleExpandSource (reqBody : JSValue) (requestStart finish : Z) : M Response :=
  tryCatch
    (b_title ← readProp typeErrorMessage reqBody (js "title");
     if negb (truthy b_title) || negb (JSType_eqb (typeof b_title) TString) then
       mret {| statusCode := 400;
               body := errorBody (js "Missing or invalid " ++ quote ++ js "title" ++ quote ++ js " field")
                         (js "Request must include a string " ++ quote ++ js "title" ++ quote
                            ++ js " field") |}
     else
     b_url ← readProp typeErrorMessage reqBody (js "url");
     if negb (truthy b_url) || negb (JSType_eqb (typeof b_url) TString) then
       mret {| statusCode := 400;
               body := errorBody (js "Missing or invalid " ++ quote ++ js "url" ++ quote ++ js " field")
                         (js "Request must include a string " ++ quote ++ js "url" ++ quote
                            ++ js " field") |}
     else
     b_content ← readProp typeErrorMessage reqBody (js "content");
     if negb (truthy b_content) || negb (JSType_eqb (typeof b_content) TString) then
       mret {| statusCode := 400;
               body := errorBody (js "Missing or invalid " ++ quote ++ js "content" ++ quote ++ js " field")
                         (js "Request must include a string " ++ quote ++ js "content" ++ quote
                            ++ js " field with the source text") |}
     else
     if bool_decide (length (stringOf b_content) = 0%nat) then
       mret {| statusCode := 400;
               body := errorBody (js "Empty content")
                         (js "The " ++ quote ++ js "content" ++ quote ++ js " field cannot be empty") |}
     else
     b_level ← readProp typeErrorMessage reqBody (js "densityLevel");
     let densityLevel := validateDensityLevel b_level in
     say Console.Log (js "[ExpandSourceRoute] Processing request for source: " ++ stringOf b_title);;
     say Console.Log (js "[ExpandSourceRoute] Density level: " ++ levelName densityLevel);;
     concepts ← expandSourceAgent exceeds70 exaApiKey exaAnswer typeErrorMessage
                  {| source_title := stringOf b_title;
                     source_url := stringOf b_url;
                     source_content := stringOf b_content |}
                  (Some densityLevel);
     let latencyMs := finish - requestStart in
     let response :=
       JObject [(js "concepts", JArray (conceptValue <$> concepts));
                (js "meta",
                  JObject [(js "latencyMs", number latencyMs);
                           (js "densityLevel", JString (levelName densityLevel));
                           (js "sourceTitle", JString (stringOf b_title));
                           (js "sourceUrl", JString (stringOf b_url))])] in
     say Console.Log
       (js "[ExpandSourceRoute] Successfully extracted "
          ++ showZ (Z.of_nat (length concepts)) ++ js " concepts in "
          ++ showZ latencyMs ++ js "ms");;
     mret {| statusCode := 200; body := response |})
    (fun error =>
       let latencyMs := finish - requestStart in
       let errorMsg := errorMsgOf error in
       say Console.Error
         (js "[ExpandSourceRoute] Error after " ++ showZ latencyMs ++ js "ms: " ++ errorMsg);;
       mret {| statusCode := 500;
               body := JObject [(js "error", JString (js "Concept extraction failed"));
                                (js "message", JString errorMsg);
                                (js "meta", JObject [(js "latencyMs", number latencyMs)])] |}).

(** A request body whose three required fields are non-empty strings. *)
Definition wellFormed (reqBody : JSValue) (title url content : jsstring) : Prop :=
  getProp reqBody (js "title") = Some (JString title) ∧ title ≠ [] ∧
  getProp reqBody (js "url") = Some (JString url) ∧ url ≠ [] ∧
  getProp reqBody (js "content") = Some (JString content) ∧ content ≠ [].

End Handler.

(** The body of the response to a failed extraction. *)
Definition failureBody (errorMsg : jsstring) (latencyMs : Z) : JSValue :=
  JObject [(js "error", JString (js "Concept extraction failed"));
           (js "message", JString errorMsg);
           (js "meta", JObject [(js "latencyMs", number latencyMs)])].

(** The two bodies the handler has for a request whose content is not
    usable. *)
Definition missingContentBody : JSValue :=
  errorBody (js "Missing or invalid " ++ quote ++ js "content" ++ quote ++ js " field")
    (js "Request must include a string " ++ quote ++ js "content" ++ quote
       ++ js " field with the source text").

Definition emptyContentBody : JSValue :=
  errorBody (js "Empty content")
    (js "The " ++ quote ++ js "content" ++ quote ++ js " field cannot be empty").

(** A request with a title, a url and an empty content. *)
Definition emptyContentRequest : JSValue :=
  JObject [(js "title", JString (js "What is Autism Spectrum Disorder (ASD)?"));
           (js "url", JString (js "https://example.org/asd"));
           (js "content", JString [])].

(** A well-formed request. *)
Definition goodRequest : JSValue :=
  JObject [(js "title", JString (js "What is Autism Spectrum Disorder (ASD)?"));
           (js "url", JString (js "https://example.org/asd"));
           (js "content", JString (js "Autism is a developmental condition."));
           (js "densityLevel", JString (js "low"))].

(** A collaborator that is down. *)
Definition unavailable (prompt : jsstring) : Thrown + JSValue :=
  inl (ThrowError (js "connect ECONNREFUSED")).

(** Resolving the density of a request: the handler validates the level
    it was sent and the agent looks the validated level up. *)
Definition resolveDensity (level : JSValue) : DensityConfig :=
  getDensityConfig (Some (validateDensityLevel level)).

End Route.

(** ** Semantic edge builder

    [services/semanticGraphBuilder.ts] and [services/evidenceGraph.ts] are
    not part of the tree; the definitions of this module follow section 4.4
    and section 3 of the specification step by step. *)

Module Semantic.
Import Js Density.

(** Modelled from the spec: the relation tags of an edge (section 3). *)
Inductive Relation : Type := answers | supports | underpins | semantic_related.

(** Modelled from the spec: an edge (section 3), a directed pair of node
    ids with a relation tag and a weight. *)
Record Edge : Type :=
  { from : jsstring; to : jsstring; relation : Relation; weight : Q }.

(** Modelled from the spec: a node as far as the edge builder looks at it
    (section 4.4, step 1), its id and the title and descriptive text its
    embedding is requested for. *)
Record Node : Type :=
  { id : jsstring; title : jsstring; description : jsstring }.

(** Modelled from the spec: the order of node ids that step 4 sorts a
    pair by, here code unit by code unit. *)
Fixpoint idLeb (a b : jsstring) : bool :=
  match a, b with
  | [], _ => true
  | _ :: _, [] => false
  | x :: a', y :: b' => if (x <? y)%N then true else if (y <? x)%N then false else idLeb a' b'
  end.

(** Modelled from the spec: a candidate edge, a pair of node ids and a
    similarity. *)
Definition Candidate : Type := ((jsstring * jsstring) * Q)%type.

Definition similarityOf (c : Candidate) : Q := c.2.

(** Modelled from the spec: the stable sort by descending similarity of
    steps 3 and 5; among equal similarities the input order stands
    (section 5). *)
Fixpoint insertDesc (x : Candidate) (l : list Candidate) : list Candidate :=
  match l with
  | [] => [x]
  | y :: r =>
      if Qle_bool (similarityOf y) (similarityOf x) then x :: y :: r
      else y :: insertDesc x r
  end.

Definition sortDesc (l : list Candidate) : list Candidate := foldr insertDesc [] l.

(** Modelled from the spec: step 4, the pair sorted by id. *)
Definition canonicalPair (a b : jsstring) : jsstring * jsstring :=
  if idLeb a b then (a, b) else (b, a).

(** Modelled from the spec: step 4, a pair already present keeps the
    higher of the two scores. *)
Fixpoint upsert (k : jsstring * jsstring) (s : Q) (acc : list Candidate) : list Candidate :=
  match acc with
  | [] => [(k, s)]
  | (k', s') :: r =>
      if bool_decide (k' = k) then (k', if Qle_bool s' s then s else s') :: r
      else (k', s') :: upsert k s r
  end.

Definition dedupe (cands : list Candidate) : list Candidate :=
  foldl (fun acc c => upsert c.1 c.2 acc) [] cands.

Section Builder.

(** The embedding collaborator: the vector of a node's canonical text, or
    nothing when the call fails; and the cosine similarity of two vectors,
    a number kept exact here. *)
Variable Embedding : Type.
Variable embed : Node → option Embedding.
Variable cosineSimilarity : Embedding → Embedding → Q.

(** Modelled from the spec: step 1 of section 4.4, the nodes whose
    embedding call succeeded, each with its vector. *)
Definition embedNodes (nodes : list Node) : list (jsstring * Embedding) :=
  omap (fun n => (fun e => (id n, e)) <$> embed n) nodes.

(** Modelled from the spec: steps 2 and 3 of section 4.4 for one node, its
    [topK] most similar distinct neighbours among those whose similarity
    reaches [minSimilarity]. *)
Definition neighboursOf (cfg : SemanticEdges) (embedded : list (jsstring * Embedding))
    (a : jsstring * Embedding) : list Candidate :=
  let others := filter (fun b => b.1 ≠ a.1) embedded in
  let scored := (fun b => ((a.1, b.1), cosineSimilarity a.2 b.2)) <$> others in
  let strong := filter (fun c => Qle_bool (minSimilarity cfg) (similarityOf c) = true) scored in
  take (Z.to_nat (topK cfg)) (sortDesc strong).

(** Modelled from the spec: steps 1 to 5 of section 4.4, the candidates
    that survive the per-node selection, the deduplication of unordered
    pairs and the global cap. *)
Definition keptCandidates (nodes : list Node) (level : option DensityLevel) : list Candidate :=
  let cfg := semanticEdges (getDensityConfig level) in
  let embedded := embedNodes nodes in
  let retained := embedded ≫= neighboursOf cfg embedded in
  let canonical := (fun c => (canonicalPair c.1.1 c.1.2, c.2)) <$> retained in
  let unique := dedupe canonical in
  if maxEdges cfg <? Z.of_nat (length unique)
  then take (Z.to_nat (maxEdges cfg)) (sortDesc unique)
  else unique.

(** Modelled from the spec: the Semantic Edge Builder of section 4.4;
    step 6 emits each surviving pair as a [semantic_related] edge whose
    weight is the similarity. *)
Definition emit (c : Candidate) : Edge :=
  {| from := c.1.1; to := c.1.2; relation := semantic_related; weight := c.2 |}.

Definition buildSemanticEdges (nodes : list Node) (level : option DensityLevel) : list Edge :=
  emit <$> keptCandidates nodes level.

(** Modelled from the spec: the edges of an assembled graph (section 4.2),
    the structural edges the assembler derives from the citation linkage
    followed by the edges the builder adds.  A structural edge carries one
    of the three structural relations. *)
Inductive Structural : Type := SAnswers | SSupports | SUnderpins.

Definition structuralRelation (r : Structural) : Relation :=
  match r with SAnswers => answers | SSupports => supports | SUnderpins => underpins end.

Definition structuralEdge (e : jsstring * jsstring * Structural * Q) : Edge :=
  {| from := e.1.1.1; to := e.1.1.2; relation := structuralRelation e.1.2; weight := e.2 |}.

Definition assembleEdges (structural : list (jsstring * jsstring * Structural * Q))
    (nodes : list Node) (level : option DensityLevel) : list Edge :=
  (structuralEdge <$> structural) ++ buildSemanticEdges nodes level.

End Builder.

Definition isSemantic (e : Edge) : bool :=
  match relation e with semantic_related => true | _ => false end.

(** Modelled from the spec: the [semantic_related] edges of a graph. *)
Definition semanticEdgesOf (edges : list Edge) : list Edge :=
  filter (fun e => isSemantic e = true) edges.

(** Two edges join the same unordered pair of nodes. *)
Definition samePair (e1 e2 : Edge) : Prop :=
  (from e1 = from e2 ∧ to e1 = to e2) ∨ (from e1 = to e2 ∧ to e1 = from e2).

(** What every candidate satisfies from step 4 on: its ends differ, the
    smaller id comes first, and its similarity reaches the threshold. *)
Definition sound (cfg : SemanticEdges) (c : Candidate) : Prop :=
  c.1.1 ≠ c.1.2 ∧ idLeb c.1.1 c.1.2 = true ∧ (minSimilarity cfg <= c.2)%Q.

(** Three nodes and their pairwise similarities, for trying the builder. *)
Definition sampleNodes : list Node :=
  [{| id := js "b1"; title := js "Block"; description := js "An answer block" |};
   {| id := js "s1"; title := js "Source"; description := js "A cited source" |};
   {| id := js "c1"; title := js "Concept"; description := js "A concept" |}].

Definition sampleEmbed (n : Node) : option jsstring := Some (id n).

Definition sampleSimilarity (a b : jsstring) : Q :=
  if bool_decide (a = js "c1") || bool_decide (b = js "c1") then 0.40 else 0.90.

End Semantic.

(** ** Further notions about the progress tracker *)

Module ProgressNotions.
Import Js Progress.

(** Every job of the manager has a progress between 0 and 100. *)
Definition inRange (pm : ProgressManager) : Prop :=
  ∀ jobId job, getProgress jobId pm = Some job → 0 ≤ progress job ≤ 100.

(** No call of the sequence is a [createJob] on the id. *)
Definition neverCreates (jobId : jsstring) (calls : list (Z * Call)) : Prop :=
  Forall (fun c => creates jobId c = false) calls.

(** The entries the sweep at time [now] keeps. *)
Definition young (now : Z) (entry : jsstring * ProgressState) : Prop :=
  now - createdAt entry.2 ≤ CLEANUP_AFTER_MS.

#[global] Instance young_dec now entry : Decision (young now entry).
Proof. unfold young. apply _. Defined.

(** A job that was created, completed, and then updated once more. *)
Definition lateCall : list (Z * Call) :=
  [(0, CreateJob j1);
   (10, CompleteJob j1);
   (20, UpdateProgress j1 30 (js "Building graph") (js "graph"))].

(** Two jobs, one created at 0 and one at 200000. *)
Definition twoJobs : list (Z * Call) :=
  [(0, CreateJob j1);
   (200000, CreateJob (js "j2"));
   (200010, UpdateProgress (js "j2") 40 (js "Answering") (js "answer"))].

(** No call of the sequence is a [removeJob] on the id. *)
Definition neverRemoves (jobId : jsstring) (calls : list (Z * Call)) : Prop :=
  Forall (fun c => c.2 ≠ RemoveJob jobId) calls.

(** Ticks of the timer long after a job was updated. *)
Definition lateTicks : list (Z * Call) :=
  [(10, UpdateProgress j1 40 (js "Answering") (js "answer"));
   (400000, SweepTick);
   (460000, SweepTick)].

End ProgressNotions.

(** ** The route [GET /api/progress/:jobId] ([routes/progress.ts]) *)

Module ProgressRoute.
Import Js Progress Route.

(** The handler of [router.get('/:jobId', ...)].  [jobId] is
    [req.params.jobId], a string or [undefined]; the answer is what
    [res.status(...).json(...)] or [res.json(...)] sends, the latter with
    the status 200. *)
Definition getProgressRoute (jobId : option jsstring) (pm : ProgressManager) : Response :=
  match jobId with
  | None | Some [] =>
      {| statusCode := 400;
         body := JObject [(js "error", JString (js "Job ID is required"))] |}
  | Some id =>
      match getProgress id pm with
      | None =>
          {| statusCode := 404;
             body := JObject [(js "error", JString (js "Job not found"))] |}
      | Some progressState =>
          {| statusCode := 200;
             body := JObject [(js "jobId", JString id);
                              (js "progress", number (progress progressState));
                              (js "status", JString (status progressState));
                              (js "phase", JString (phase progressState))] |}
      end
  end.

(** The answer for a job in a given state. *)
Definition found (id : jsstring) (p : Z) (st ph : jsstring) : Response :=
  {| statusCode := 200;
     body := JObject [(js "jobId", JString id); (js "progress", number p);
                      (js "status", JString st); (js "phase", JString ph)] |}.

Definition notFound : Response :=
  {| statusCode := 404; body := JObject [(js "error", JString (js "Job not found"))] |}.

(** The answer to a request without an id. *)
Definition idRequired : Response :=
  {| statusCode := 400; body := JObject [(js "error", JString (js "Job ID is required"))] |}.

End ProgressRoute.

(** ** Further notions about the density resolver *)

Module DensityNotions.
Import Js Density.

(** The levels in the order of their richness. *)
Definition levelRank (l : DensityLevel) : Z :=
  match l with Low => 0 | Medium => 1 | High => 2 end.

(** Two texts that differ at most in the case of their ASCII letters. *)
Definition sameLetters (s s' : jsstring) : Prop :=
  canonicalize <$> s = canonicalize <$> s'.

(** A preset whose bounds fit together: the per-block bounds are ordered
    and within the number of results, no more sources are processed than
    are retrieved, the concepts asked of the processed sources fit under
    the global cap, and the similarity threshold lies strictly between 0
    and 1. *)
Definition wellFormedConfig (c : DensityConfig) : Prop :=
  1 ≤ min (directSourcesPerBlock c) ∧
  min (directSourcesPerBlock c) ≤ target (directSourcesPerBlock c) ∧
  target (directSourcesPerBlock c) ≤ max (directSourcesPerBlock c) ∧
  max (directSourcesPerBlock c) ≤ exaNumResults c ∧
  0 < topSourcesToProcess (secondarySources c) ∧
  topSourcesToProcess (secondarySources c) ≤ exaNumResults c ∧
  0 < conceptsPerSource (secondarySources c) ∧
  topSourcesToProcess (secondarySources c) * conceptsPerSource (secondarySources c)
    ≤ maxTotalConcepts (secondarySources c) ∧
  (0 < minSimilarity (semanticEdges c))%Q ∧ (minSimilarity (semanticEdges c) < 1)%Q ∧
  0 < topK (semanticEdges c) ∧ 0 < maxEdges (semanticEdges c).

(** One preset is at most as rich as another: it retrieves, selects,
    extracts and links at most as much, under a threshold at least as
    high. *)
Definition atMostAsRich (a b : DensityConfig) : Prop :=
  exaNumResults a ≤ exaNumResults b ∧
  target (directSourcesPerBlock a) ≤ target (directSourcesPerBlock b) ∧
  max (directSourcesPerBlock a) ≤ max (directSourcesPerBlock b) ∧
  topSourcesToProcess (secondarySources a) ≤ topSourcesToProcess (secondarySources b) ∧
  conceptsPerSource (secondarySources a) ≤ conceptsPerSource (secondarySources b) ∧
  maxTotalConcepts (secondarySources a) ≤ maxTotalConcepts (secondarySources b) ∧
  (minSimilarity (semanticEdges b) <= minSimilarity (semanticEdges a))%Q ∧
  topK (semanticEdges a) ≤ topK (semanticEdges b) ∧
  maxEdges (semanticEdges a) ≤ maxEdges (semanticEdges b).

(** The same question in two spellings. *)
Definition shouted : jsstring := js "LIST THE KINDS OF EDGES AND ALSO THE LAYERS?".
Definition whispered : jsstring := js "list the kinds of edges and also the layers?".

End DensityNotions.

(** ** Further notions about the extraction agent *)

Module ExpandNotions.
Import Js Density Eff Expand Route.

(** The answer of the collaborator that lists the given concepts, each as
    the object [validateConceptsResponse] builds for it. *)
Definition answerOf (concepts : list ExpandedConcept) : JSValue :=
  JObject [(js "concepts", JArray (conceptValue <$> concepts))].

(** A source none of whose fields is empty. *)
Definition complete (source : SourceInput) : Prop :=
  source_title source ≠ [] ∧ source_url source ≠ [] ∧ source_content source ≠ [].

(** The prompt the agent sends for a source at a density level. *)
Definition promptFor (exceeds70 : Z → Z → bool) (source : SourceInput)
    (level : option DensityLevel) : jsstring :=
  buildExpandPrompt exceeds70 source
    (conceptsPerSource
       (secondarySources (getDensityConfig (Some (default DEFAULT_DENSITY level))))).

(** A thrown value is an [Error] whose message starts with the prefix the
    agent puts before every failure of the extraction. *)
Definition wrapped (e : Thrown) : Prop :=
  ∃ msg, e = ThrowError (js "Failed to extract concepts: " ++ msg).

(** What goes wrong in a run of the agent that has passed its guards, if
    anything does: the collaborator rejects the call, or its response is
    [undefined] or [null] so that reading the answer throws a [TypeError],
    or the validation of the answer throws. *)
Definition causeOfFailure (exaAnswer : jsstring → Thrown + JSValue)
    (typeErrorMessage : jsstring) (prompt : jsstring) : option Thrown :=
  match exaAnswer prompt with
  | inl rejection => Some rejection
  | inr response =>
      match response with
      | JUndefined | JNull => Some (ThrowError typeErrorMessage)
      | _ =>
          match validateConceptsResponse (prop response (js "answer")) with
          | (_, inl invalid) => Some invalid
          | (_, inr _) => None
          end
      end
  end.

(** The message a cause is reported with: its own when it is an [Error],
    and [Unknown error] otherwise. *)
Definition causeMessage (cause : Thrown) : jsstring :=
  match cause with
  | ThrowError message => message
  | ThrowOther _ => js "Unknown error"
  end.

(** A source, and a collaborator that answers with five concepts though
    fewer are asked for. *)
Definition asdSource : SourceInput :=
  {| source_title := js "What is Autism Spectrum Disorder (ASD)?";
     source_url := js "https://example.org/asd";
     source_content := js "Autism is a developmental condition." |}.

Definition concept (n : jsstring) : ExpandedConcept :=
  {| title := n; text := js "About " ++ n; short_label := n; importance := Some 0.5%Q |}.

Definition fiveConcepts : list ExpandedConcept :=
  [concept (js "Masking"); concept (js "Stimming"); concept (js "Spectrum");
   concept (js "Diagnosis"); concept (js "Support")].

Definition generous (prompt : jsstring) : Thrown + JSValue :=
  inr (JObject [(js "answer", answerOf fiveConcepts)]).

(** A collaborator whose answer is not an object. *)
Definition garbled (prompt : jsstring) : Thrown + JSValue :=
  inr (JObject [(js "answer", JString (js "I cannot help with that."))]).

End ExpandNotions.

(** ** Further notions about the route *)

Module RouteNotions.
Import Js Density Eff Expand Route ExpandNotions.

(** A field the handler accepts: a string that is not empty. *)
Definition usable (v : JSValue) : Prop :=
  ∃ s, v = JString s ∧ s ≠ [].

(** The bodies of the 400 answers for the title and for the url. *)
Definition missingTitleBody : JSValue :=
  errorBody (js "Missing or invalid " ++ quote ++ js "title" ++ quote ++ js " field")
    (js "Request must include a string " ++ quote ++ js "title" ++ quote ++ js " field").

Definition missingUrlBody : JSValue :=
  errorBody (js "Missing or invalid " ++ quote ++ js "url" ++ quote ++ js " field")
    (js "Request must include a string " ++ quote ++ js "url" ++ quote ++ js " field").

(** The body of the 200 answer. *)
Definition successBody (concepts : list ExpandedConcept) (latencyMs : Z)
    (densityLevel : DensityLevel) (title url : jsstring) : JSValue :=
  JObject [(js "concepts", JArray (conceptValue <$> concepts));
           (js "meta",
             JObject [(js "latencyMs", number latencyMs);
                      (js "densityLevel", JString (levelName densityLevel));
                      (js "sourceTitle", JString title);
                      (js "sourceUrl", JString url)])].

(** The level the handler resolves for a request body. *)
Definition levelOf (reqBody : JSValue) : DensityLevel :=
  validateDensityLevel (prop reqBody (js "densityLevel")).

(** The source the handler passes to the agent. *)
Definition sourceOf (title url content : jsstring) : SourceInput :=
  {| source_title := title; source_url := url; source_content := content |}.

(** A request whose title is a number. *)
Definition numberedRequest : JSValue :=
  JObject [(js "title", JNumber 7);
           (js "url", JString (js "https://example.org/asd"));
           (js "content", JString (js "Autism is a developmental condition."))].

End RouteNotions.

(** ** The graph handed to the visualisation ([utils/graphTransform.ts]) *)

Module GraphTransform.
Import Js.

(** The fields of an object, in order. *)
Abbreviation Fields := (list (jsstring * JSValue)) (only parsing).

(** Writing a property in an object literal that already holds the
    spread fields: the value of an existing key is replaced where it
    stands, a new key is added at the end. *)
Fixpoint setField (k : jsstring) (v : JSValue) (fields : Fields) : Fields :=
  match fields with
  | [] => [(k, v)]
  | (k', v') :: rest =>
      if bool_decide (k' = k) then (k', v) :: rest else (k', v') :: setField k v rest
  end.

(** [response.evidence_graph], with the types the function declares:
    [nodes: Node[]] and [edges: Edge[]], every edge an object. *)
Record GraphData : Type :=
  { nodes : list JSValue;
    edges : list Fields }.

(** [{ ...edge, source: edge.from, target: edge.to }]. *)
Definition normalizeEdge (edge : Fields) : Fields :=
  setField (js "target") (lookupField (js "to") edge)
    (setField (js "source") (lookupField (js "from") edge) edge).

Definition transformResponseToGraph (evidence_graph : GraphData) : GraphData :=
  let normalizedEdges := normalizeEdge <$> edges evidence_graph in
  {| nodes := nodes evidence_graph; edges := normalizedEdges |}.

(** An object has a field of its own under the key. *)
Definition hasField (k : jsstring) (fields : Fields) : Prop := k ∈ fields.*1.

End GraphTransform.

(** ** Expanding a source from the side bar ([components/Sidebar.tsx]) *)

Module Sidebar.
Import Js Eff Expand Route ExpandNotions GraphTransform.

(** What [handleExpandSource] reads of the selected node: [id], [label],
    [metadata.url] and [metadata.full_text]; a string that may be missing
    is [None] when it is [undefined]. *)
Record DirectSourceNode : Type :=
  { id : jsstring;
    label : option jsstring;
    metadata_url : option jsstring;
    metadata_full_text : option jsstring }.

(** Truthiness of a string that may be missing, and the string it holds. *)
Definition given (s : option jsstring) : bool :=
  match s with
  | Some (_ :: _) => true
  | _ => false
  end.

Definition held (s : option jsstring) : jsstring := default [] s.

(** [v === s] for a string [s]. *)
Definition isString (v : JSValue) (s : jsstring) : bool :=
  match v with
  | JString s' => bool_decide (s' = s)
  | _ => false
  end.

(** [v === 0]. *)
Definition isZero (v : JSValue) : bool :=
  match v with
  | JNumber q => Qeq_bool q 0
  | _ => false
  end.

(** [v.length] of a truthy value that came out of [response.json()]. *)
Definition lengthOf (v : JSValue) : JSValue :=
  match v with
  | JArray elems => JNumber (inject_Z (Z.of_nat (length elems)))
  | JString s => JNumber (inject_Z (Z.of_nat (length s)))
  | JObject fields => lookupField (js "length") fields
  | _ => JUndefined
  end.

(** What the handler does that can be seen from outside, in order: the
    state it sets, the request it sends and the nodes and edges it hands to
    [onAddNodesAndEdges]. *)
Inductive Effect : Type :=
| SetIsExpandingSource (b : bool)
| SetSourceExpandError (message : JSValue)
| Fetch (body : JSValue)
| AddNodesAndEdges (newNodes newEdges : list (list (jsstring * JSValue)))
| SetHasExpandedSource (b : bool).

(** How [fetch] ends: it rejects, or it resolves with a response whose
    [ok] is given and whose [json()] resolves with a value or rejects. *)
Inductive FetchOutcome : Type :=
| Rejected
| Responded (ok : bool) (payload : option JSValue).

(** The values the handler closes over when the side bar is rendered. *)
Record Render : Type :=
  { isExpandingSource : bool;
    hasExpandedSource : bool;
    edges : list (list (jsstring * JSValue)) }.

(** What one run of the handler meets: the outcome of its request, what
    [isActiveRequest()] answers at each place it is asked, and the values
    of the successive calls of [uuidv4()]. *)
Record Run : Type :=
  { fetched : FetchOutcome;
    activeAfterFetch : bool;
    activeAfterJson : bool;
    activeInCatch : bool;
    uuidv4 : nat → jsstring }.

(** [JSON.stringify({ title, url, content, densityLevel: 'medium' })], as
    the route reads it back. *)
Definition requestBody (title url content : jsstring) : JSValue :=
  JObject [(js "title", JString title);
           (js "url", JString url);
           (js "content", JString content);
           (js "densityLevel", JString (js "medium"))].

Section Handler.

Variable sourceNode : DirectSourceNode.
Variable render : Render.
Variable run : Run.

(** The ids of the answer blocks the source supports. *)
Definition answerBlockIds : list JSValue :=
  (fun edge => lookupField (js "from") edge)
    <$> List.filter
          (fun edge => isString (lookupField (js "to") edge) (id sourceNode)
                       && isString (lookupField (js "relation") edge) (js "supports"))
          (edges render).

(** The callback of [data.concepts.map]: [None] when reading the concept
    throws.  [i] counts the calls of [uuidv4()] made before. *)
Definition newNode (i : nat) (concept : JSValue) : option (list (jsstring * JSValue)) :=
  let nodeId := js "secondary_" ++ uuidv4 run i in
  c_title ← getProp concept (js "title");
  Some [(js "id", JString nodeId);
        (js "type", JString (js "secondary_source"));
        (js "label", c_title);
        (js "shortLabel", prop concept (js "short_label"));
        (js "displayHeading", prop concept (js "short_label"));
        (js "metadata",
          JObject [(js "layer", JNumber 3);
                   (js "fullText", prop concept (js "text"));
                   (js "importance", prop concept (js "importance"));
                   (js "parentSourceId", JString (id sourceNode));
                   (js "relatedBlockIds", JArray answerBlockIds)])].

Fixpoint newNodesFrom (i : nat) (concepts : list JSValue)
    : option (list (list (jsstring * JSValue))) :=
  match concepts with
  | [] => Some []
  | concept :: rest =>
      node ← newNode i concept;
      nodes ← newNodesFrom (S i) rest;
      Some (node :: nodes)
  end.

Definition newEdge (newNode : list (jsstring * JSValue)) : list (jsstring * JSValue) :=
  [(js "from", JString (id sourceNode));
   (js "to", lookupField (js "id") newNode);
   (js "source", JString (id sourceNode));
   (js "target", lookupField (js "id") newNode);
   (js "relation", JString (js "underpins"));
   (js "weight", JNumber 1)].

(** The [catch] block. *)
Definition caught : list Effect :=
  if activeInCatch run
  then [SetSourceExpandError (JString (js "Unable to reach the expand service."))]
  else [].

(** The [try] block from the [await fetch] on, with the [catch]. *)
Definition afterFetch : list Effect :=
  match fetched run with
  | Rejected => caught
  | Responded ok payload =>
      if negb (activeAfterFetch run) then []
      else if negb ok then
        let errorPayload := default JNull payload in
        if negb (activeAfterJson run) then []
        else
          let error := prop errorPayload (js "error") in
          [SetSourceExpandError
             (if truthy error then error
              else JString (js "Unable to expand source right now."))]
      else
        match payload with
        | None => caught
        | Some data =>
            if negb (activeAfterJson run) then []
            else
              let concepts := prop data (js "concepts") in
              if negb (truthy concepts) || isZero (lengthOf concepts) then
                [SetSourceExpandError
                   (JString (js "No concepts were extracted from the source."))]
              else
                match concepts with
                | JArray elems =>
                    match newNodesFrom 0 elems with
                    | Some newNodes =>
                        [AddNodesAndEdges newNodes (newEdge <$> newNodes);
                         SetHasExpandedSource true]
                    | None => caught
                    end
                | _ => caught
                end
        end
  end.

Definition handleExpandSource : list Effect :=
  if isExpandingSource render || hasExpandedSource render then []
  else
    let url := metadata_url sourceNode in
    let title := if given (label sourceNode) then held (label sourceNode)
                 else js "Unknown Source" in
    let content := metadata_full_text sourceNode in
    if negb (given url) || negb (given content) then
      [SetSourceExpandError
         (JString (js "Source is missing URL or content and cannot be expanded."))]
    else
      [SetIsExpandingSource true; SetSourceExpandError JNull;
       Fetch (requestBody title (held url) (held content))]
        ++ afterFetch ++ [SetIsExpandingSource false].

End Handler.

(** What [JSON.parse(JSON.stringify(v))] makes of a value: fields that
    are [undefined] are left out and elements that are [undefined] become
    [null]. *)
#[warnings="-register-all"]
Fixpoint viaJson (v : JSValue) : JSValue :=
  match v with
  | JArray elems =>
      JArray ((fix elements (l : list JSValue) : list JSValue :=
                 match l with
                 | [] => []
                 | JUndefined :: rest => JNull :: elements rest
                 | x :: rest => viaJson x :: elements rest
                 end) elems)
  | JObject fields =>
      JObject ((fix members (l : list (jsstring * JSValue)) : list (jsstring * JSValue) :=
                  match l with
                  | [] => []
                  | (_, JUndefined) :: rest => members rest
                  | (k, x) :: rest => (k, viaJson x) :: members rest
                  end) fields)
  | _ => v
  end.

(** The outcome of a request the route has answered: [ok] for a status
    from 200 to 299, and the body as JSON. *)
Definition answeredWith (response : Response) : FetchOutcome :=
  Responded ((200 <=? statusCode response) && (statusCode response <=? 299))
    (Some (viaJson (body response))).

(** A side bar at rest, and a run in which the node stays selected. *)
Definition atRest (edges : list (list (jsstring * JSValue))) : Render :=
  {| isExpandingSource := false; hasExpandedSource := false; edges := edges |}.

Definition undisturbed (fetched : FetchOutcome) (uuidv4 : nat → jsstring) : Run :=
  {| fetched := fetched; activeAfterFetch := true; activeAfterJson := true;
     activeInCatch := true; uuidv4 := uuidv4 |}.

(** A source node, an edge that says an answer block is supported by it,
    and a numbering that stands for the ids [uuidv4()] gives. *)
Definition asdNode : DirectSourceNode :=
  {| id := js "s1";
     label := Some (js "What is Autism Spectrum Disorder (ASD)?");
     metadata_url := Some (js "https://example.org/asd");
     metadata_full_text := Some (js "Autism is a developmental condition.") |}.

Definition supportEdge : list (jsstring * JSValue) :=
  [(js "from", JString (js "ans-1")); (js "to", JString (js "s1"));
   (js "relation", JString (js "supports"))].

Definition numbered (i : nat) : jsstring := showZ (Z.of_nat i).

(** A run in which the route has answered with five concepts, and the
    nodes the handler makes of them. *)
Definition asdRun : Run :=
  undisturbed (Responded true (Some (answerOf fiveConcepts))) numbered.

Definition asdNewNodes : list (list (jsstring * JSValue)) :=
  default [] (newNodesFrom asdNode (atRest [supportEdge]) asdRun 0
                (conceptValue <$> fiveConcepts)).

End Sidebar.

(** * Properties *)

(** ** Progress tracker *)

Module ProgressSpec.
Import Js Progress.

Lemma getProgress_say lvl msg jobId pm :
  getProgress jobId (say lvl msg pm) = getProgress jobId pm.
Proof. reflexivity. Qed.

Lemma getProgress_createJob jobId jobId' now pm :
  getProgress jobId' (createJob jobId now pm) =
  if decide (jobId = jobId')
  then Some {| progress := 0; status := js "Starting..."; phase := js "init"; createdAt := now |}
  else getProgress jobId' pm.
Proof. unfold getProgress, createJob; simpl. apply lookup_insert. Qed.

Lemma getProgress_updateProgress jobId jobId' p st ph pm :
  getProgress jobId' (updateProgress jobId p st ph pm) =
  if decide (jobId = jobId')
  then (fun job => {| progress := Z.max (progress job) (Z.min 100 p);
                      status := st; phase := ph; createdAt := createdAt job |})
         <$> getProgress jobId pm
  else getProgress jobId' pm.
Proof.
  unfold getProgress, updateProgress.
  destruct (jobs pm !! jobId) as [job|] eqn:E; simpl.
  - rewrite lookup_insert. destruct (decide (jobId = jobId')); done.
  - destruct (decide (jobId = jobId')) as [<-|]; [by rewrite E | done].
Qed.

Lemma getProgress_completeJob jobId jobId' pm :
  getProgress jobId' (completeJob jobId pm) =
  if decide (jobId = jobId')
  then (fun job => {| progress := 100; status := js "Ready"; phase := js "complete";
                      createdAt := createdAt job |}) <$> getProgress jobId pm
  else getProgress jobId' pm.
Proof.
  unfold getProgress, completeJob.
  destruct (jobs pm !! jobId) as [job|] eqn:E; simpl.
  - rewrite lookup_insert. destruct (decide (jobId = jobId')); done.
  - destruct (decide (jobId = jobId')) as [<-|]; [by rewrite E | done].
Qed.

Lemma getProgress_removeJob jobId jobId' pm :
  getProgress jobId' (removeJob jobId pm) =
  if decide (jobId = jobId') then None else getProgress jobId' pm.
Proof.
  unfold getProgress, removeJob.
  destruct (jobs pm !! jobId) as [job|] eqn:E; simpl.
  - rewrite lookup_delete. destruct (decide (jobId = jobId')); done.
  - destruct (decide (jobId = jobId')) as [<-|]; [by rewrite E | done].
Qed.

(** The sweep never brings a job back, keeps what no old entry names and
    deletes what an old entry names. *)
Lemma sweepEntries_absent now entries acc (i : jsstring) :
  acc.1 !! i = None → (sweepEntries now entries acc).1 !! i = None.
Proof.
  revert acc. induction entries as [|[k job] rest IH]; intros acc H; simpl; [done|].
  apply IH. destruct (CLEANUP_AFTER_MS <? now - createdAt job); simpl; [|done].
  rewrite lookup_delete. by destruct (decide (k = i)).
Qed.

Lemma sweepEntries_young now entries acc (i : jsstring) :
  (∀ job, (i, job) ∈ entries → now - createdAt job ≤ CLEANUP_AFTER_MS) →
  (sweepEntries now entries acc).1 !! i = acc.1 !! i.
Proof.
  revert acc. induction entries as [|[k job] rest IH]; intros acc H; simpl; [done|].
  rewrite IH; [|intros j Hj; apply H; by right].
  destruct (Z.ltb_spec CLEANUP_AFTER_MS (now - createdAt job)); simpl; [|done].
  rewrite lookup_delete. destruct (decide (k = i)) as [->|]; [|done].
  specialize (H job (list_elem_of_here _ _)). lia.
Qed.

Lemma sweepEntries_old now entries acc (i : jsstring) job :
  (i, job) ∈ entries → CLEANUP_AFTER_MS < now - createdAt job →
  (sweepEntries now entries acc).1 !! i = None.
Proof.
  revert acc. induction entries as [|[k job'] rest IH]; intros acc Hin Hold; simpl.
  - by apply elem_of_nil in Hin.
  - apply elem_of_cons in Hin as [Heq | Hin].
    + injection Heq as <- <-. apply sweepEntries_absent.
      destruct (Z.ltb_spec CLEANUP_AFTER_MS (now - createdAt job)); [|lia].
      simpl. by rewrite lookup_delete_eq.
    + by apply IH.
Qed.

Lemma getProgress_cleanupOldJobs now jobId pm :
  getProgress jobId (cleanupOldJobs now pm) =
  match getProgress jobId pm with
  | Some job => if CLEANUP_AFTER_MS <? now - createdAt job then None else Some job
  | None => None
  end.
Proof.
  unfold cleanupOldJobs, getProgress.
  destruct (sweepEntries now (map_to_list (jobs pm)) (jobs pm, 0)) as [m n] eqn:E.
  assert (m !! jobId =
          match jobs pm !! jobId with
          | Some job => if CLEANUP_AFTER_MS <? now - createdAt job then None else Some job
          | None => None
          end) as Hm.
  { change m with (m, n).1. rewrite <- E.
    destruct (jobs pm !! jobId) as [job|] eqn:Hj.
    - destruct (Z.ltb_spec CLEANUP_AFTER_MS (now - createdAt job)).
      + eapply sweepEntries_old; [|done]. by apply elem_of_map_to_list.
      + rewrite sweepEntries_young; [done|].
        intros job' Hin. apply elem_of_map_to_list in Hin.
        assert (job' = job) as -> by congruence. lia.
    - by apply sweepEntries_absent. }
  by destruct (0 <? n).
Qed.

Lemma run_snoc calls c pm : run (calls ++ [c]) pm = step (run calls pm) c.
Proof. unfold run. by rewrite foldl_app. Qed.

Lemma run_app calls1 calls2 pm : run (calls1 ++ calls2) pm = run calls2 (run calls1 pm).
Proof. unfold run. by rewrite foldl_app. Qed.

(** A job that exists keeps existing under [updateProgress] calls, within
    0..100 once it is there, and its progress only grows. *)
Lemma run_updates_grow calls pm jobId job :
  Forall isUpdate calls → getProgress jobId pm = Some job →
  ∃ job', getProgress jobId (run calls pm) = Some job' ∧
          progress job ≤ progress job' ∧
          (progress job ≤ 100 → progress job' ≤ 100).
Proof.
  intros Hall. revert pm job.
  induction Hall as [|[t c] calls Hc _ IH]; intros pm job Hjob.
  - exists job. split; [done|lia].
  - destruct c as [|j p st ph| | |]; try (by destruct Hc).
    change (run ((t, UpdateProgress j p st ph) :: calls) pm)
      with (run calls (updateProgress j p st ph pm)).
    pose proof (getProgress_updateProgress j jobId p st ph pm) as Hupd.
    destruct (decide (j = jobId)) as [->|Hne].
    + rewrite Hjob in Hupd; simpl in Hupd.
      destruct (IH _ _ Hupd) as (job' & Hrun & Hle & Hcap); simpl in *.
      exists job'. split; [done|]. split; lia.
    + rewrite Hjob in Hupd. by apply IH.
Qed.

(** C1. For a job that exists, [updateProgress(id, p, status, phase)]
    stores the progress max(current, min(100, p)) together with the new
    status and phase; and along any sequence of [updateProgress] calls
    that follows [createJob(id)], the stored progress of the job stays
    between 0 and 100 and never decreases from one point of the sequence
    to a later one, whatever values the calls request. *)
Theorem updateProgress_clamped_monotone (pm : ProgressManager) (jobId : jsstring) :
  (∀ job p st ph, getProgress jobId pm = Some job →
     getProgress jobId (updateProgress jobId p st ph pm) =
     Some {| progress := Z.max (progress job) (Z.min 100 p);
             status := st; phase := ph; createdAt := createdAt job |}) ∧
  (∀ now calls1 calls2, Forall isUpdate (calls1 ++ calls2) →
     ∃ job1 job2,
       getProgress jobId (run calls1 (createJob jobId now pm)) = Some job1 ∧
       getProgress jobId (run (calls1 ++ calls2) (createJob jobId now pm)) = Some job2 ∧
       0 ≤ progress job1 ∧ progress job1 ≤ progress job2 ∧ progress job2 ≤ 100).
Proof.
  split.
  - intros job p st ph Hjob. rewrite getProgress_updateProgress, Hjob.
    by destruct (decide (jobId = jobId)).
  - intros now calls1 calls2 Hall. apply Forall_app in Hall as [H1 H2].
    pose proof (getProgress_createJob jobId jobId now pm) as Hnew.
    destruct (decide (jobId = jobId)); [|done].
    destruct (run_updates_grow calls1 _ _ _ H1 Hnew) as (job1 & Hrun1 & Hle1 & Hcap1).
    destruct (run_updates_grow calls2 _ _ _ H2 Hrun1) as (job2 & Hrun2 & Hle2 & Hcap2).
    exists job1, job2. rewrite run_app. simpl in *. repeat split; try done; lia.
Qed.

Lemma updateProgress_clamped_monotone_witness :
  getProgress j1 (run answering constructor) =
    Some {| progress := 50; status := js "Answering"; phase := js "answer"; createdAt := 0 |} ∧
  getProgress j1 (run regressive constructor) =
    Some {| progress := 50; status := js "x"; phase := js "y"; createdAt := 0 |} ∧
  getProgress j1 (updateProgress j1 30 (js "x") (js "y") (run answering constructor)) =
    Some {| progress := 50; status := js "x"; phase := js "y"; createdAt := 0 |}.
Proof.
  split; [vm_compute; reflexivity|]. split; [vm_compute; reflexivity|].
  exact (proj1 (updateProgress_clamped_monotone (run answering constructor) j1)
           {| progress := 50; status := js "Answering"; phase := js "answer";
              createdAt := 0 |}
           30 (js "x") (js "y") ltac:(vm_compute; reflexivity)).
Defined.

(** C6. For a job that exists, [completeJob(id)] leaves it at progress
    100, status Ready and phase complete, whatever its progress, status
    and phase were before (its creation time is kept). *)
Theorem completeJob_forces_ready (pm : ProgressManager) (jobId : jsstring)
    (job : ProgressState) :
  getProgress jobId pm = Some job →
  getProgress jobId (completeJob jobId pm) =
  Some {| progress := 100; status := js "Ready"; phase := js "complete";
          createdAt := createdAt job |}.
Proof.
  intros Hjob. rewrite getProgress_completeJob, Hjob.
  by destruct (decide (jobId = jobId)).
Qed.

Lemma completeJob_forces_ready_witness :
  getProgress j1 (run answering constructor) =
    Some {| progress := 50; status := js "Answering"; phase := js "answer"; createdAt := 0 |} ∧
  getProgress j1 (completeJob j1 (run answering constructor)) =
    Some {| progress := 100; status := js "Ready"; phase := js "complete"; createdAt := 0 |}.
Proof.
  split; [vm_compute; reflexivity|].
  exact (completeJob_forces_ready (run answering constructor) j1
           {| progress := 50; status := js "Answering"; phase := js "answer";
              createdAt := 0 |}
           ltac:(vm_compute; reflexivity)).
Defined.

(** C8. For a job id the manager does not know, [updateProgress] and
    [completeJob] change nothing but the console, to which each adds one
    warning naming the id; both return normally; and [getProgress] answers
    with the not-found value. *)
Theorem unknown_job_is_safe (pm : ProgressManager) (jobId : jsstring) :
  jobId ∉ dom (jobs pm) →
  (∀ p st ph,
     updateProgress jobId p st ph pm =
     {| jobs := jobs pm; cleanupInterval := cleanupInterval pm;
        console := console pm
                     ++ [(Console.Warn, js "[ProgressManager] Job not found: " ++ jobId)] |}) ∧
  completeJob jobId pm =
    {| jobs := jobs pm; cleanupInterval := cleanupInterval pm;
       console := console pm
                    ++ [(Console.Warn,
                         js "[ProgressManager] Cannot complete - job not found: " ++ jobId)] |} ∧
  getProgress jobId pm = None.
Proof.
  intros Hdom. apply not_elem_of_dom in Hdom.
  unfold updateProgress, completeJob, getProgress. rewrite Hdom. done.
Qed.

Lemma unknown_job_is_safe_witness :
  jobs (updateProgress (js "j2") 70 (js "Graph") (js "graph") (run answering constructor)) =
    jobs (run answering constructor) ∧
  jobs (completeJob (js "j2") (run answering constructor)) = jobs (run answering constructor) ∧
  getProgress (js "j2") (run answering constructor) = None.
Proof.
  pose proof (unknown_job_is_safe (run answering constructor) (js "j2")
                ltac:(vm_compute; set_solver)) as (Hupd & Hcomplete & Hget).
  split; [by rewrite Hupd|]. split; [by rewrite Hcomplete|done].
Defined.

(** *** The sweep *)

Lemma lastCreated_snoc jobId calls c :
  lastCreated jobId (calls ++ [c]) =
  if creates jobId c then Some c.1 else lastCreated jobId calls.
Proof.
  unfold lastCreated. rewrite filter_app, filter_cons, filter_nil.
  destruct (creates jobId c); simpl.
  - destruct (decide (true = true)); [|done]. by rewrite last_snoc.
  - destruct (decide (false = true)); [done|]. by rewrite app_nil_r.
Qed.

Lemma lastTouched_snoc jobId calls c :
  lastTouched jobId (calls ++ [c]) =
  if touches jobId c then Some c.1 else lastTouched jobId calls.
Proof.
  unfold lastTouched. rewrite filter_app, filter_cons, filter_nil.
  destruct (touches jobId c); simpl.
  - destruct (decide (true = true)); [|done]. by rewrite last_snoc.
  - destruct (decide (false = true)); [done|]. by rewrite app_nil_r.
Qed.

(** A job in the map carries the time of the latest [createJob] on its id:
    no other call writes [createdAt]. *)
Lemma createdAt_is_lastCreated calls jobId job :
  getProgress jobId (run calls constructor) = Some job →
  lastCreated jobId calls = Some (createdAt job).
Proof.
  revert job. induction calls as [|[t c] calls IH] using rev_ind; intros job.
  - unfold run, getProgress; simpl. by rewrite lookup_empty.
  - rewrite run_snoc, lastCreated_snoc. unfold step, creates; simpl.
    destruct c as [j|j p st ph|j|j|]; simpl.
    + rewrite getProgress_createJob. case_bool_decide; destruct (decide (j = jobId)); try done.
      * by intros [= <-].
      * apply IH.
    + rewrite getProgress_updateProgress. destruct (decide (j = jobId)) as [->|]; [|apply IH].
      destruct (getProgress jobId (run calls constructor)) as [old|]; [|done].
      simpl. intros [= <-]. simpl. by apply IH.
    + rewrite getProgress_completeJob. destruct (decide (j = jobId)) as [->|]; [|apply IH].
      destruct (getProgress jobId (run calls constructor)) as [old|]; [|done].
      simpl. intros [= <-]. simpl. by apply IH.
    + rewrite getProgress_removeJob. destruct (decide (j = jobId)); [done|apply IH].
    + destruct (cleanupInterval (run calls constructor)); [|apply IH].
      rewrite getProgress_cleanupOldJobs.
      destruct (getProgress jobId (run calls constructor)) as [old|]; [|done].
      destruct (CLEANUP_AFTER_MS <? t - createdAt old); [done|].
      intros [= <-]. by apply IH.
Qed.

Lemma chronological_snoc calls c :
  chronological (calls ++ [c]) →
  chronological calls ∧ ∀ a, a ∈ calls → a.1 ≤ c.1.
Proof.
  intros Hc. split.
  - intros i j a b Hij Ha Hb. apply (Hc i j a b Hij).
    + by apply lookup_app_l_Some.
    + by apply lookup_app_l_Some.
  - intros a Ha. apply list_elem_of_lookup in Ha as [i Hi].
    apply (Hc i (length calls) a c).
    + apply lookup_lt_Some in Hi. lia.
    + by apply lookup_app_l_Some.
    + by rewrite list_lookup_middle.
Qed.

Lemma lastCreated_elem jobId calls t :
  lastCreated jobId calls = Some t → ∃ a, a ∈ calls ∧ a.1 = t.
Proof.
  unfold lastCreated. intros H.
  destruct (last (filter (fun c => creates jobId c = true) calls)) as [a|] eqn:E; [|done].
  injection H as <-. exists a. split; [|done].
  apply last_Some_elem_of in E. by apply list_elem_of_filter in E as [_ ?].
Qed.

(** In a chronological sequence the latest touch of a job is no earlier
    than its latest creation, and a job never touched was never created. *)
Lemma lastCreated_le_lastTouched calls jobId tc :
  chronological calls → lastCreated jobId calls = Some tc →
  ∃ t, lastTouched jobId calls = Some t ∧ tc ≤ t.
Proof.
  revert tc. induction calls as [|[t c] calls IH] using rev_ind; intros tc Hchron.
  - done.
  - apply chronological_snoc in Hchron as [Hchron Hlast].
    rewrite lastCreated_snoc, lastTouched_snoc.
    destruct (creates jobId (t, c)) eqn:Hcr.
    + assert (touches jobId (t, c) = true) as ->
        by (destruct c; simpl in *; done).
      intros [= <-]. exists t. split; [done|simpl; lia].
    + intros Hcreated. destruct (touches jobId (t, c)).
      * exists t. split; [done|].
        destruct (lastCreated_elem _ _ _ Hcreated) as (a & Ha & <-).
        apply (Hlast a Ha).
      * by apply IH.
Qed.

(** C5, as the code has it. After a sweep at time [now], a job is still
    returned by [getProgress] exactly when it was there before the sweep
    and [now - createdAt] does not exceed the retention window of 300000
    ms, where [createdAt] is the time of the latest [createJob] on its id:
    [updateProgress] and [completeJob] do not renew it. Hence a job
    created within the window (and not removed) persists, and, time never
    going back, a job untouched for longer than the window is absent. *)
Theorem sweep_deletes_by_creation_age (calls : list (Z * Call)) (jobId : jsstring) (now : Z) :
  let pm := run calls constructor in
  getProgress jobId (cleanupOldJobs now pm) =
    match getProgress jobId pm with
    | Some job => if CLEANUP_AFTER_MS <? now - createdAt job then None else Some job
    | None => None
    end ∧
  (∀ job, getProgress jobId pm = Some job → lastCreated jobId calls = Some (createdAt job)) ∧
  (∀ job t, getProgress jobId pm = Some job → lastCreated jobId calls = Some t →
     now - t ≤ CLEANUP_AFTER_MS → getProgress jobId (cleanupOldJobs now pm) = Some job) ∧
  (chronological calls →
     match lastTouched jobId calls with
     | Some t => CLEANUP_AFTER_MS < now - t
     | None => True
     end →
     getProgress jobId (cleanupOldJobs now pm) = None).
Proof.
  intros pm. split; [apply getProgress_cleanupOldJobs|].
  split; [intros job; apply createdAt_is_lastCreated|].
  split.
  - intros job t Hjob Hcreated Hyoung.
    rewrite getProgress_cleanupOldJobs, Hjob.
    apply createdAt_is_lastCreated in Hjob.
    assert (t = createdAt job) as -> by congruence.
    by destruct (Z.ltb_spec CLEANUP_AFTER_MS (now - createdAt job)); [lia|].
  - intros Hchron Htouched. rewrite getProgress_cleanupOldJobs.
    destruct (getProgress jobId pm) as [job|] eqn:Hjob; [|done].
    apply createdAt_is_lastCreated in Hjob.
    destruct (lastCreated_le_lastTouched _ _ _ Hchron Hjob) as (t & Ht & Hle).
    rewrite Ht in Htouched.
    by destruct (Z.ltb_spec CLEANUP_AFTER_MS (now - createdAt job)); [|lia].
Qed.

(** C5 as stated fails: the job [j1] is created at 0 and updated at
    299000; the sweep at 300001 finds it touched 1001 ms ago, well within
    the window, and deletes it. *)
Lemma touched_job_is_swept :
  chronological lateUpdate ∧
  lastTouched j1 lateUpdate = Some 299000 ∧
  300001 - 299000 ≤ CLEANUP_AFTER_MS ∧
  is_Some (getProgress j1 (run lateUpdate constructor)) ∧
  getProgress j1 (step (run lateUpdate constructor) (300001, SweepTick)) = None.
Proof.
  split.
  { intros i j a b Hij Ha Hb.
    destruct i as [|[|i]], j as [|[|j]]; simpl in *; try lia; try done;
      injection Ha as <-; injection Hb as <-; simpl; lia. }
  split; [vm_compute; reflexivity|].
  split; [vm_compute; discriminate|].
  split; [vm_compute; eauto|].
  vm_compute; reflexivity.
Qed.

End ProgressSpec.

(** ** Density resolver *)

Module DensitySpec.
Import Js Density Route.

(** C2. [getDensityConfig] returns the documented record for each of
    [low], [medium] and [high]; with no level it returns the [medium]
    preset; and a level taken from a request resolves to the preset it
    names when it is one of the three names and to the [medium] preset for
    any other value, a missing one included. *)
Theorem getDensityConfig_tables :
  getDensityConfig (Some Low) =
    {| exaNumResults := 6;
       directSourcesPerBlock := {| min := 1; target := 2; max := 4 |};
       secondarySources :=
         {| topSourcesToProcess := 3; conceptsPerSource := 2; maxTotalConcepts := 15 |};
       semanticEdges := {| minSimilarity := 0.65; topK := 4; maxEdges := 40 |} |} ∧
  getDensityConfig (Some Medium) =
    {| exaNumResults := 10;
       directSourcesPerBlock := {| min := 1; target := 4; max := 6 |};
       secondarySources :=
         {| topSourcesToProcess := 5; conceptsPerSource := 3; maxTotalConcepts := 30 |};
       semanticEdges := {| minSimilarity := 0.60; topK := 6; maxEdges := 80 |} |} ∧
  getDensityConfig (Some High) =
    {| exaNumResults := 12;
       directSourcesPerBlock := {| min := 1; target := 5; max := 8 |};
       secondarySources :=
         {| topSourcesToProcess := 8; conceptsPerSource := 4; maxTotalConcepts := 40 |};
       semanticEdges := {| minSimilarity := 0.55; topK := 8; maxEdges := 120 |} |} ∧
  getDensityConfig None = getDensityConfig (Some Medium) ∧
  resolveDensity JUndefined = getDensityConfig (Some Medium) ∧
  (∀ l, resolveDensity (JString (levelName l)) = getDensityConfig (Some l)) ∧
  (∀ level, (∀ l, level ≠ JString (levelName l)) →
     resolveDensity level = getDensityConfig (Some Medium)).
Proof.
  repeat split; try reflexivity.
  - by intros [].
  - intros level Hother. unfold resolveDensity, validateDensityLevel.
    destruct level as [| | | |s| |]; try reflexivity.
    repeat case_bool_decide; try reflexivity; subst s.
    + by destruct (Hother Low).
    + by destruct (Hother High).
Qed.

Lemma getDensityConfig_tables_witness :
  resolveDensity (JString (js "extreme")) = getDensityConfig (Some Medium) ∧
  resolveDensity (JNumber 3) = getDensityConfig (Some Medium).
Proof.
  pose proof getDensityConfig_tables as (_ & _ & _ & _ & _ & _ & Hother).
  split; apply Hother; intros []; vm_compute; discriminate.
Defined.

(** *** Counting words *)

Lemma isWhiteSpace_blank c : isWhiteSpace c = true ↔ blank c.
Proof.
  unfold isWhiteSpace, blank, blanks.
  rewrite !elem_of_cons, elem_of_nil, !orb_true_iff, !andb_true_iff, !N.leb_le, !N.eqb_eq.
  lia.
Qed.

Lemma bool_decide_blank c : bool_decide (blank c) = isWhiteSpace c.
Proof.
  destruct (isWhiteSpace c) eqn:Hc.
  - apply bool_decide_eq_true_2. by apply isWhiteSpace_blank.
  - apply bool_decide_eq_false_2. rewrite <- isWhiteSpace_blank. congruence.
Qed.

Lemma countRuns_cons b c r :
  countRuns b (c :: r) =
  if isWhiteSpace c then countRuns false r
  else ((if b then 0 else 1) + countRuns true r)%nat.
Proof. simpl. by rewrite bool_decide_blank. Qed.

Lemma endsInWord_cons c s : s ≠ [] → endsInWord (c :: s) → endsInWord s.
Proof. unfold endsInWord. destruct s; [done|]. by rewrite last_cons_cons. Qed.

Lemma length_splitWsFrom_cur inSep cur cur' s :
  length (splitWsFrom inSep cur s) = length (splitWsFrom inSep cur' s).
Proof.
  revert inSep cur cur'. induction s as [|c r IH]; intros inSep cur cur'; simpl; [done|].
  destruct (isWhiteSpace c); [destruct inSep; simpl; auto|auto].
Qed.

(** The pieces of a text that does not end in white space, against its
    words: reading on inside a word the pieces are one more than the words
    still to begin; just after a separator they are as many. *)
Lemma length_splitWsFrom_words s :
  endsInWord s →
  (∀ cur, length (splitWsFrom false cur s) = S (countRuns true s)) ∧
  (s ≠ [] → ∀ cur, length (splitWsFrom true cur s) = countRuns false s).
Proof.
  induction s as [|c r IH]; intros Hend.
  - split; [done|by intros []].
  - destruct r as [|c' r'].
    + unfold endsInWord in Hend; simpl in Hend.
      split; [|intros _]; intros cur; rewrite countRuns_cons; simpl; by rewrite Hend.
    + destruct (IH (endsInWord_cons c (c' :: r') ltac:(done) Hend)) as [IHword IHsep].
      specialize (IHsep ltac:(done)).
      split; [|intros _]; intros cur; rewrite countRuns_cons;
        change (splitWsFrom ?b cur (c :: ?r)) with
          (if isWhiteSpace c
           then if b then splitWsFrom true cur r else cur :: splitWsFrom true [] r
           else splitWsFrom false (cur ++ [c]) r);
        destruct (isWhiteSpace c); cbn [length]; rewrite ?IHword, ?IHsep; lia.
Qed.

Lemma trimStart_spec s :
  ∃ w, s = w ++ trimStart s ∧ Forall (fun c => isWhiteSpace c = true) w ∧
       match trimStart s with c :: _ => isWhiteSpace c = false | [] => True end.
Proof.
  induction s as [|c r (w & Heq & Hw & Hhead)]; [by exists []|].
  simpl. destruct (isWhiteSpace c) eqn:Hc.
  - exists (c :: w). split; [by rewrite Heq at 1|]. split; [by constructor|done].
  - by exists [].
Qed.

Lemma countRuns_white_prefix b w s :
  Forall (fun c => isWhiteSpace c = true) w → w ≠ [] ∨ b = false →
  countRuns b (w ++ s) = countRuns false s.
Proof.
  intros Hw. revert b. induction Hw as [|c w Hc _ IH]; intros b Hb.
  - by destruct Hb as [?| ->].
  - rewrite <- app_comm_cons, countRuns_cons, Hc. apply IH. by right.
Qed.

Lemma countRuns_white_suffix b s w :
  Forall (fun c => isWhiteSpace c = true) w →
  countRuns b (s ++ w) = countRuns b s.
Proof.
  intros Hw. revert b. induction s as [|c r IH]; intros b.
  - rewrite app_nil_l. revert b. induction Hw as [|c w Hc _ IH]; intros b; [done|].
    by rewrite countRuns_cons, Hc, IH.
  - rewrite <- app_comm_cons, !countRuns_cons. destruct (isWhiteSpace c); by rewrite IH.
Qed.

Lemma trimEnd_spec s :
  ∃ w, s = trimEnd s ++ w ∧ Forall (fun c => isWhiteSpace c = true) w ∧ endsInWord (trimEnd s).
Proof.
  unfold trimEnd. destruct (trimStart_spec (reverse s)) as (w & Heq & Hw & Hhead).
  exists (reverse w). split; [|split].
  - rewrite <- reverse_app, <- Heq. by rewrite reverse_involutive.
  - by apply Forall_reverse.
  - unfold endsInWord. rewrite last_reverse. by destruct (trimStart (reverse s)).
Qed.

(** [question.trim().split(/\s+/).length] is the number of words of the
    question, except that a question without any word counts for one. *)
Lemma questionWords_wordCount question :
  questionWords question = Z.of_nat (Nat.max 1 (wordCount question)).
Proof.
  unfold questionWords, trim, splitWs, wordCount. f_equal.
  destruct (trimStart_spec question) as (w1 & Heq1 & Hw1 & Hhead).
  destruct (trimEnd_spec (trimStart question)) as (w2 & Heq2 & Hw2 & Hend).
  rewrite Heq1 at 2. rewrite countRuns_white_prefix by (done || by right).
  rewrite Heq2 at 2. rewrite countRuns_white_suffix by done.
  rewrite Heq2 in Hhead.
  destruct (trimEnd (trimStart question)) as [|c r] eqn:Et; [done|].
  simpl in Hhead.
  destruct (length_splitWsFrom_words (c :: r) Hend) as [Hword _].
  rewrite Hword, !countRuns_cons, Hhead. lia.
Qed.

(** *** Counting question marks *)

(** [(question.match(/\?/g) || []).length] is the number of question
    marks. *)
Lemma questionMarks_count question : questionMarks question = questionMarkCount question.
Proof.
  unfold questionMarks, countChar. induction question as [|c r IH]; [done|].
  rewrite filter_cons. cbn [questionMarkCount]. rewrite <- IH.
  destruct (decide (c = 63%N)) as [Hc|Hc].
  - rewrite bool_decide_eq_true_2 by done. simpl length. lia.
  - rewrite bool_decide_eq_false_2 by done. lia.
Qed.

(** *** Finding indicators *)

Lemma canonicalize_lower a b : canonicalize a = canonicalize b ↔ lower a = lower b.
Proof.
  unfold canonicalize, lower.
  destruct (N.leb_spec 97 a), (N.leb_spec a 122), (N.leb_spec 97 b), (N.leb_spec b 122);
    simpl; repeat case_decide; lia.
Qed.

Lemma isWordChar_wordCharacter c : isWordChar c = true ↔ wordCharacter c.
Proof.
  unfold isWordChar, wordCharacter.
  rewrite !orb_true_iff, !andb_true_iff, !N.leb_le, !N.eqb_eq. lia.
Qed.

Lemma wordCharacter_lower a b : lower a = lower b → wordCharacter a → wordCharacter b.
Proof. unfold lower, wordCharacter. repeat case_decide; lia. Qed.

Lemma isWordAt_apart c : isWordAt c = false ↔ apart c.
Proof.
  destruct c as [x|]; simpl; [|done].
  rewrite <- isWordChar_wordCharacter. by destruct (isWordChar x).
Qed.

Lemma last_app_cons {A} (l : list A) x t : last (l ++ x :: t) = last (x :: t).
Proof. induction l as [|y l IH]; [done|]. rewrite <- app_comm_cons, <- IH. by destruct l. Qed.

(** The literal of the pattern matches at the head of a text exactly when
    the text begins with the literal up to case. *)
Lemma matchLiteral_spec (w s : jsstring) (l : option N) :
  matchLiteral w s l =
  if decide (lower <$> take (length w) s = lower <$> w)
  then Some (last (option_list l ++ take (length w) s), drop (length w) s)
  else None.
Proof.
  revert s l. induction w as [|p w IH]; intros s l.
  - cbn [matchLiteral length take drop]. rewrite decide_True by done.
    rewrite app_nil_r. by destruct l.
  - destruct s as [|c s]; [by rewrite decide_False|].
    cbn [matchLiteral length take drop]. rewrite IH, !fmap_cons.
    destruct (N.eqb_spec (canonicalize c) (canonicalize p)) as [Hcp|Hcp].
    + apply canonicalize_lower in Hcp.
      destruct (decide (lower <$> take (length w) s = lower <$> w)) as [Heq|Hne].
      * rewrite decide_True by (by rewrite Hcp, Heq). by rewrite last_app_cons.
      * rewrite decide_False; [done|]. by intros [= _ ?].
    + rewrite decide_False; [done|]. intros [= Hl _]. by apply canonicalize_lower in Hl.
Qed.

(** One alternative of the pattern matches at a place exactly when the
    indicator is spelled there, apart from what precedes and follows. *)
Lemma matchWordHere_spec (prev : option N) (s w : jsstring) :
  wordy w →
  matchWordHere prev s w = true ↔
  lower <$> take (length w) s = lower <$> w ∧ apart prev ∧ apart (s !! length w).
Proof.
  intros Hwordy. unfold matchWordHere. rewrite matchLiteral_spec.
  destruct (decide (lower <$> take (length w) s = lower <$> w)) as [Heq|Hne].
  2: { rewrite andb_false_r. split; [done|]. by intros [? _]. }
  unfold wordy in Hwordy.
  destruct w as [|p w']; [done|]. destruct s as [|c s']; [done|].
  cbn [head] in Hwordy. destruct (last (p :: w')) as [q|] eqn:Hq; [|done].
  destruct Hwordy as [Hp Hq'].
  assert (isWordChar c = true) as Hc.
  { cbn [length take] in Heq. rewrite !fmap_cons in Heq. injection Heq as Hcp _.
    apply isWordChar_wordCharacter. by apply (wordCharacter_lower p). }
  assert (∃ cl, last (take (length (p :: w')) (c :: s')) = Some cl ∧ isWordChar cl = true)
    as (cl & Hcl & Hclw).
  { assert (last (lower <$> take (length (p :: w')) (c :: s')) = Some (lower q)) as Hlast
      by (by rewrite Heq, fmap_last, Hq).
    rewrite fmap_last in Hlast.
    destruct (last (take (length (p :: w')) (c :: s'))) as [cl|]; [|done].
    injection Hlast as Hlast. exists cl. split; [done|].
    apply isWordChar_wordCharacter. by apply (wordCharacter_lower q). }
  assert (last (option_list prev ++ take (length (p :: w')) (c :: s')) = Some cl) as ->.
  { cbn [length take] in *. by rewrite last_app_cons. }
  assert (head (drop (length (p :: w')) (c :: s')) = (c :: s') !! length (p :: w')) as ->.
  { by rewrite head_lookup, lookup_drop, Nat.add_0_r. }
  unfold wordBoundary. cbn [head isWordAt]. rewrite Hc, Hclw.
  pose proof (isWordAt_apart prev) as Hbefore.
  pose proof (isWordAt_apart ((c :: s') !! length (p :: w'))) as Hafter.
  destruct (isWordAt prev), (isWordAt ((c :: s') !! length (p :: w'))); simpl;
    intuition congruence.
Qed.

Lemma existsb_elem_of {A} (f : A → bool) (l : list A) :
  existsb f l = true ↔ ∃ x, x ∈ l ∧ f x = true.
Proof.
  induction l as [|y l IH]; simpl.
  - split; [done|]. by intros (x & ?%elem_of_nil & _).
  - rewrite orb_true_iff, IH. split.
    + intros [Hy|(x & Hx & Hfx)]; [exists y|exists x]; split; try done; by constructor.
    + intros (x & [->|Hx]%elem_of_cons & Hfx); [by left|right; by exists x].
Qed.

(** The pattern finds one of its alternatives in a text exactly when one
    of the indicators stands in it at some position. *)
Lemma testWordsFrom_spec (alts : list jsstring) (prev : option N) (s : jsstring) :
  Forall wordy alts →
  testWordsFrom alts prev s = true ↔
  ∃ w (i : nat),
    w ∈ alts ∧ (i ≤ length s)%nat ∧
    lower <$> take (length w) (drop i s) = lower <$> w ∧
    apart (last (option_list prev ++ take i s)) ∧
    apart (s !! (i + length w)%nat).
Proof.
  intros Hwordy. revert prev. induction s as [|c r IH]; intros prev.
  - cbn [testWordsFrom]. rewrite orb_false_r, existsb_elem_of. split.
    + intros (w & Hw & Hm).
      apply matchWordHere_spec in Hm as (? & ? & ?);
        [|by apply (proj1 (Forall_forall _ _) Hwordy)].
      exists w, 0%nat. rewrite app_nil_r. split_and!; try done. by destruct prev.
    + intros (w & i & Hw & Hi & Heq & Hprev & Hnext). exists w. split; [done|].
      apply matchWordHere_spec; [by apply (proj1 (Forall_forall _ _) Hwordy)|].
      simpl in Hi. assert (i = 0%nat) as -> by lia.
      rewrite app_nil_r in Hprev. split_and!; try done. by destruct prev.
  - cbn [testWordsFrom]. rewrite orb_true_iff, existsb_elem_of, IH. split.
    + intros [(w & Hw & Hm)|(w & i & Hw & Hi & Heq & Hprev & Hnext)].
      * apply matchWordHere_spec in Hm as (? & ? & ?);
          [|by apply (proj1 (Forall_forall _ _) Hwordy)].
        exists w, 0%nat. rewrite app_nil_r. split_and!; try done; [simpl; lia|].
        by destruct prev.
      * exists w, (S i). split_and!; try done; [simpl; lia|].
        cbn [take]. by rewrite last_app_cons.
    + intros (w & [|i] & Hw & Hi & Heq & Hprev & Hnext).
      * left. exists w. split; [done|].
        apply matchWordHere_spec; [by apply (proj1 (Forall_forall _ _) Hwordy)|].
        rewrite app_nil_r in Hprev. split_and!; try done. by destruct prev.
      * right. exists w, i. split_and!; try done; [simpl in Hi; lia|].
        cbn [take] in Hprev. by rewrite last_app_cons in Hprev.
Qed.

Lemma testWords_containsIndicator (alts : list jsstring) (s : jsstring) :
  Forall wordy alts →
  testWords alts s = true ↔ containsIndicator alts s.
Proof.
  intros Hwordy. unfold testWords, containsIndicator.
  rewrite (testWordsFrom_spec alts None s Hwordy), Exists_exists. split.
  - intros (w & i & Hw & Hi & Heq & Hprev & Hnext). exists w. split; [done|].
    apply Exists_exists. exists i. split; [apply elem_of_seq; lia|]. by split_and!.
  - intros (w & Hw & (i & Hi & Heq & Hprev & Hnext)%Exists_exists).
    exists w, i. apply elem_of_seq in Hi. split_and!; try done. lia.
Qed.

Lemma wordy_conjunctionIndicators : Forall wordy conjunctionIndicators.
Proof. apply (bool_decide_unpack _). vm_compute. exact I. Qed.

Lemma wordy_listIndicators : Forall wordy listIndicators.
Proof. apply (bool_decide_unpack _). vm_compute. exact I. Qed.

(** The two patterns of the source against the indicators. *)
Lemma hasMultiPartIndicators_contains question :
  hasMultiPartIndicators question =
  bool_decide (containsIndicator conjunctionIndicators question).
Proof.
  unfold hasMultiPartIndicators.
  destruct (testWords multiPartWords question) eqn:Ht; symmetry.
  - apply bool_decide_eq_true_2.
    by apply (testWords_containsIndicator _ _ wordy_conjunctionIndicators).
  - apply bool_decide_eq_false_2.
    intros Hc%(testWords_containsIndicator _ _ wordy_conjunctionIndicators).
    unfold multiPartWords in Ht. unfold conjunctionIndicators in Hc. congruence.
Qed.

Lemma hasListIndicators_contains question :
  hasListIndicators question = bool_decide (containsIndicator listIndicators question).
Proof.
  unfold hasListIndicators.
  destruct (testWords listWords question) eqn:Ht; symmetry.
  - apply bool_decide_eq_true_2.
    by apply (testWords_containsIndicator _ _ wordy_listIndicators).
  - apply bool_decide_eq_false_2.
    intros Hc%(testWords_containsIndicator _ _ wordy_listIndicators).
    unfold listWords in Ht. unfold listIndicators in Hc. congruence.
Qed.

(** *** The score *)

(** The conditional increments of the source add up to the score. *)
Lemma inferDensityLevel_additive question answerBlockCount :
  inferDensityLevel question answerBlockCount =
  if 4 <=? additiveScore question answerBlockCount then High
  else if 2 <=? additiveScore question answerBlockCount then Medium else Low.
Proof.
  assert (lengthPoints (Z.of_nat (wordCount question)) =
          lengthPoints (questionWords question)) as Hwords.
  { rewrite questionWords_wordCount. unfold lengthPoints.
    repeat match goal with |- context [?a <? ?b] => destruct (Z.ltb_spec a b) end; lia. }
  unfold inferDensityLevel, additiveScore.
  rewrite Hwords, <- questionMarks_count.
  rewrite hasMultiPartIndicators_contains, hasListIndicators_contains.
  unfold lengthPoints, blockPoints.
  destruct (20 <? questionWords question), (10 <? questionWords question),
    (1 <? questionMarks question);
    repeat case_bool_decide;
    repeat match goal with |- context [decide ?P] => destruct (decide P) end; try done;
    destruct answerBlockCount as [blocks|];
    try destruct (6 <=? blocks); try destruct (4 <=? blocks); reflexivity.
Qed.

(** C3. [inferDensityLevel] is a function of the question and the
    optional block count that returns [high] exactly when the additive
    score is at least 4, [medium] exactly when it is 2 or 3, and [low]
    otherwise; the score adds 2 for more than 20 words (else 1 for more
    than 10), 2 for more than one question mark, 1 for a multi-part
    indicator, 1 for a list indicator, and, when the block count is given,
    2 for at least 6 blocks (else 1 for at least 4).  The words, the
    question marks and the indicators are those of the question itself:
    its runs of characters other than white space, its characters [?],
    and the places where one of the listed words or phrases is spelled in
    either case without a letter, digit or underscore next to it.  In
    particular a question of 25 words with two question marks and a list
    indicator, together with a block count of 6, resolves to [high]. *)
Theorem inferDensityLevel_score (question : jsstring) (answerBlockCount : option Z) :
  (inferDensityLevel question answerBlockCount = High ↔
     4 ≤ additiveScore question answerBlockCount) ∧
  (inferDensityLevel question answerBlockCount = Medium ↔
     2 ≤ additiveScore question answerBlockCount < 4) ∧
  (inferDensityLevel question answerBlockCount = Low ↔
     additiveScore question answerBlockCount < 2) ∧
  (wordCount question = 25%nat → questionMarkCount question = 2 →
   containsIndicator listIndicators question →
   inferDensityLevel question (Some 6) = High).
Proof.
  split; [|split; [|split]].
  1-3: rewrite inferDensityLevel_additive;
    destruct (Z.leb_spec 4 (additiveScore question answerBlockCount)),
      (Z.leb_spec 2 (additiveScore question answerBlockCount));
    split; intros; try done; try lia.
  - intros Hwords Hmarks Hlist. rewrite inferDensityLevel_additive.
    unfold additiveScore, lengthPoints, blockPoints.
    rewrite Hwords, Hmarks, (decide_True (P := containsIndicator listIndicators question))
      by done.
    simpl. by destruct (decide (containsIndicator conjunctionIndicators question)).
Qed.

Lemma inferDensityLevel_score_witness :
  wordCount longQuestion = 25%nat ∧ questionMarkCount longQuestion = 2 ∧
  containsIndicator listIndicators longQuestion ∧
  inferDensityLevel longQuestion (Some 6) = High.
Proof.
  assert (wordCount longQuestion = 25%nat) as Hwords by (vm_compute; reflexivity).
  assert (questionMarkCount longQuestion = 2) as Hmarks by (vm_compute; reflexivity).
  assert (containsIndicator listIndicators longQuestion) as Hlist.
  { apply (bool_decide_unpack _). vm_compute. exact I. }
  exact (conj Hwords (conj Hmarks (conj Hlist
           (proj2 (proj2 (proj2 (inferDensityLevel_score longQuestion None)))
              Hwords Hmarks Hlist)))).
Defined.

End DensitySpec.

(** ** Concept extraction *)

Module ExpandSpec.
Import Js Density Eff Expand.

(** One round of the loop adds to the concepts what the element yields
    taken alone, whatever the index and whatever was collected before. *)
Lemma validateElement_alone i concept out :
  (validateElement i concept out).2 = out.2 ++ option_list (conceptOf concept).
Proof.
  unfold conceptOf, validateElement.
  destruct (negb (truthy concept) || negb (JSType_eqb (typeof concept) TObject));
    simpl; [by rewrite app_nil_r|].
  destruct (prop concept (js "title")); simpl; try by rewrite app_nil_r.
  destruct (prop concept (js "text")); simpl; try by rewrite app_nil_r.
  done.
Qed.

Lemma validateLoop_elementwise i elems out :
  (validateLoop i elems out).2 = out.2 ++ omap conceptOf elems.
Proof.
  revert i out. induction elems as [|concept rest IH]; intros i out; simpl.
  - by rewrite app_nil_r.
  - rewrite IH, validateElement_alone, <- app_assoc. f_equal.
    by destruct (conceptOf concept).
Qed.

(** Which elements are kept, and with which fields. *)
Lemma conceptOf_spec concept c :
  conceptOf concept = Some c ↔
  ∃ fields,
    concept = JObject fields ∧
    lookupField (js "title") fields = JString (title c) ∧
    lookupField (js "text") fields = JString (text c) ∧
    short_label c =
      match lookupField (js "short_label") fields with JString s => s | _ => title c end ∧
    importance c =
      match lookupField (js "importance") fields with JNumber q => Some q | _ => None end.
Proof.
  unfold conceptOf, validateElement, prop. split.
  - destruct concept as [| |b|q|s|elems|fields]; simpl; try done.
    + by destruct b.
    + by destruct (negb (Qeq_bool q 0)).
    + by destruct (negb (bool_decide (s = []))).
    + destruct (lookupField (js "title") fields) eqn:Ht; try done.
      destruct (lookupField (js "text") fields) eqn:Hx; try done.
      simpl. intros [= <-]. by exists fields.
  - intros (fields & -> & Ht & Hx & Hlabel & Himp). simpl.
    rewrite Ht, Hx. simpl. destruct c as [t x l imp]; simpl in *. by subst.
Qed.

(** C4, as the code has it. Validation never aborts a batch: when the
    [concepts] field of the answer is an array, the result is the list of
    what each element yields taken alone, in order.  An element is kept
    exactly when it is an object whose [title] and [text] are strings
    (empty strings included); a kept concept has that title and text, its
    [short_label] is the element's when that is a string and the title
    otherwise, and its [importance] is the element's when that is a number
    and undefined otherwise.  Dropping an element leaves the others as
    they are. *)
Theorem validateConceptsResponse_elementwise (response : JSValue) (elems : list JSValue) :
  prop response (js "concepts") = JArray elems →
  (validateConceptsResponse response).2 = inr (omap conceptOf elems) ∧
  (∀ concept,
     is_Some (conceptOf concept) ↔
     ∃ fields t x, concept = JObject fields ∧
                   lookupField (js "title") fields = JString t ∧
                   lookupField (js "text") fields = JString x) ∧
  (∀ concept c, conceptOf concept = Some c →
     ∃ fields, concept = JObject fields ∧
       lookupField (js "title") fields = JString (title c) ∧
       lookupField (js "text") fields = JString (text c) ∧
       short_label c =
         match lookupField (js "short_label") fields with JString s => s | _ => title c end ∧
       importance c =
         match lookupField (js "importance") fields with JNumber q => Some q | _ => None end) ∧
  (∀ before concept after, conceptOf concept = None →
     omap conceptOf (before ++ concept :: after) = omap conceptOf (before ++ after)).
Proof.
  intros Hconcepts. split; [|split; [|split]].
  - unfold validateConceptsResponse.
    destruct response as [| |b|q|s|l|fields]; try done.
    unfold prop in *; simpl in *. rewrite Hconcepts. simpl.
    by rewrite validateLoop_elementwise.
  - intros concept. split.
    + intros [c Hc]. apply conceptOf_spec in Hc as (fields & ? & ? & ? & _).
      by exists fields, (title c), (text c).
    + intros (fields & t & x & -> & Ht & Hx).
      exists {| title := t; text := x;
                short_label :=
                  match lookupField (js "short_label") fields with JString s => s | _ => t end;
                importance :=
                  match lookupField (js "importance") fields with
                  | JNumber q => Some q | _ => None end |}.
      apply conceptOf_spec. by exists fields.
  - intros concept c Hc. by apply conceptOf_spec.
  - intros before concept after Hdrop.
    rewrite !omap_app. simpl. by rewrite Hdrop.
Qed.

Lemma validateConceptsResponse_elementwise_witness :
  (validateConceptsResponse mixedAnswer).2 =
  inr [{| title := js "Masking"; text := js "Hiding traits.";
          short_label := js "Masking"; importance := None |}].
Proof.
  exact (proj1 (validateConceptsResponse_elementwise mixedAnswer _ eq_refl)).
Defined.

(** C4 as stated fails: a concept whose title and text are empty strings
    is kept. *)
Lemma blank_concept_is_kept :
  (validateConceptsResponse blankAnswer).2 =
  inr [{| title := []; text := []; short_label := []; importance := None |}].
Proof. vm_compute. reflexivity. Qed.

(** C10. For a text and a bound of at least 0, [truncateContent] returns
    the text itself when it is no longer than the bound; otherwise it
    returns a prefix of the text of at most [maxChars] characters followed
    by one of the two truncation markers.  [buildExpandPrompt] puts
    between the fixed head and tail of the prompt exactly that result for
    the bound 2000, so at most the first 2000 characters of the content
    reach the prompt. *)
Theorem truncateContent_bounded (exceeds70 : Z → Z → bool) (content : jsstring) (maxChars : Z) :
  0 ≤ maxChars →
  (Z.of_nat (length content) ≤ maxChars →
     truncateContent exceeds70 content maxChars = content) ∧
  (maxChars < Z.of_nat (length content) →
     truncatedTo content maxChars (truncateContent exceeds70 content maxChars)) ∧
  (∀ title url conceptCount,
     let source :=
       {| source_title := title; source_url := url; source_content := content |} in
     ∃ shown,
       buildExpandPrompt exceeds70 source conceptCount =
         promptHead source ++ shown ++ promptTail conceptCount ∧
       (shown = content ∧ Z.of_nat (length content) ≤ 2000 ∨
        truncatedTo content 2000 shown)).
Proof.
  assert (∀ m, 0 ≤ m → m < Z.of_nat (length content) →
               truncatedTo content m (truncateContent exceeds70 content m)) as Hcut.
  { intros m Hm Hlong. unfold truncateContent, substring0.
    destruct (Z.leb_spec (Z.of_nat (length content)) m); [lia|].
    destruct (exceeds70 _ m).
    - eexists _, _. split; [reflexivity|]. split; [|split; [|by left]].
      + etrans; apply prefix_take.
      + rewrite !length_take. lia.
    - eexists _, _. split; [reflexivity|]. split; [|split; [|by right]].
      + apply prefix_take.
      + rewrite length_take. lia. }
  intros Hbound. split; [|split].
  - intros Hshort. unfold truncateContent.
    by destruct (Z.leb_spec (Z.of_nat (length content)) maxChars); [|lia].
  - by apply Hcut.
  - intros title url conceptCount source.
    exists (truncateContent exceeds70 content 2000). split; [reflexivity|].
    destruct (Z.leb_spec (Z.of_nat (length content)) 2000) as [Hshort|Hlong].
    + left. split; [|done]. unfold truncateContent.
      by destruct (Z.leb_spec (Z.of_nat (length content)) 2000); [|lia].
    + right. by apply Hcut.
Qed.

Lemma truncateContent_bounded_witness :
  truncateContent exceeds70Exact (js "One. Two. Three") 10 = js "One. Two. [...]" ∧
  truncateContent exceeds70Exact (js "One two three") 10 = js "One two th..." ∧
  truncatedTo (js "One. Two. Three") 10 (truncateContent exceeds70Exact (js "One. Two. Three") 10).
Proof.
  split; [vm_compute; reflexivity|]. split; [vm_compute; reflexivity|].
  refine (proj1 (proj2 (truncateContent_bounded exceeds70Exact (js "One. Two. Three") 10 _)) _);
    vm_compute; congruence.
Defined.

End ExpandSpec.

(** ** The route *)

Module RouteSpec.
Import Js Density Eff Expand Route.

Lemma passes_string_check s :
  s ≠ [] →
  negb (truthy (JString s)) || negb (JSType_eqb (typeof (JString s)) TString) = false.
Proof. intros. simpl. by rewrite bool_decide_eq_false_2. Qed.

Section Handler.

Variable exceeds70 : Z → Z → bool.
Variable exaApiKey : option jsstring.
Variable exaAnswer : jsstring → Thrown + JSValue.
Variable typeErrorMessage : jsstring.

Local Abbreviation handle := (handleExpandSource exceeds70 exaApiKey exaAnswer typeErrorMessage).

(** No request is ever answered with the [Empty content] body: the test
    [!body.content] before it already refuses the empty string. *)
Lemma emptyContentBody_unreachable reqBody requestStart finish w :
  (handle reqBody requestStart finish w).2 ≠
  inr {| statusCode := 400; body := emptyContentBody |}.
Proof.
  unfold handleExpandSource, tryCatch, readProp.
  unfold mbind, M_bind, mret, M_ret, throw.
  destruct (getProp reqBody (js "title")) as [b_title|]; [|simpl; discriminate].
  destruct (negb (truthy b_title) || negb (JSType_eqb (typeof b_title) TString)).
  { simpl. by intros [=]. }
  destruct (getProp reqBody (js "url")) as [b_url|]; [|simpl; discriminate].
  destruct (negb (truthy b_url) || negb (JSType_eqb (typeof b_url) TString)).
  { simpl. by intros [=]. }
  destruct (getProp reqBody (js "content")) as [b_content|]; [|simpl; discriminate].
  destruct (negb (truthy b_content) || negb (JSType_eqb (typeof b_content) TString)) eqn:Hc.
  { simpl. by intros [=]. }
  case_bool_decide as Hlen.
  { exfalso. destruct b_content as [| |b|q|[|c s]|l|f]; simpl in *;
      rewrite ?orb_true_r in Hc; discriminate. }
  destruct (getProp reqBody (js "densityLevel")) as [b_level|]; [|simpl; discriminate].
  simpl.
  match goal with |- context [expandSourceAgent ?a ?b ?c ?d ?e ?f ?g] =>
    destruct (expandSourceAgent a b c d e f g) as [w' [e'|concepts]] end;
    simpl; by intros [=].
Qed.

(** A request with a title and a url whose content is the empty string is
    refused with status 400 before anything else happens: nothing is
    logged and the collaborator is not called. *)
Lemma empty_content_is_refused reqBody title url requestStart finish w :
  getProp reqBody (js "title") = Some (JString title) → title ≠ [] →
  getProp reqBody (js "url") = Some (JString url) → url ≠ [] →
  getProp reqBody (js "content") = Some (JString []) →
  handle reqBody requestStart finish w =
  (w, inr {| statusCode := 400; body := missingContentBody |}).
Proof.
  intros Ht Htne Hu Hune Hc.
  unfold handleExpandSource, tryCatch, readProp.
  unfold mbind, M_bind, mret, M_ret, throw.
  by rewrite Ht, Hu, Hc, !passes_string_check by done.
Qed.

(** With the three required fields present, a collaborator that rejects
    the call makes the handler answer 500 with [error], [message] and
    [meta.latencyMs]; the collaborator was called once, with the prompt. *)
Lemma collaborator_failure_is_500 reqBody title url content e requestStart finish w :
  wellFormed reqBody title url content →
  configured exaApiKey = true →
  let level := validateDensityLevel (prop reqBody (js "densityLevel")) in
  let prompt :=
    buildExpandPrompt exceeds70
      {| source_title := title; source_url := url; source_content := content |}
      (conceptsPerSource (secondarySources (getDensityConfig (Some level)))) in
  exaAnswer prompt = inl e →
  let r := handle reqBody requestStart finish w in
  r.2 = inr {| statusCode := 500;
               body := failureBody (js "Failed to extract concepts: " ++ errorMsgOf e)
                         (finish - requestStart) |} ∧
  exaCalls r.1 = exaCalls w ++ [prompt].
Proof.
  intros (Ht & Htne & Hu & Hune & Hc & Hcne) Hkey level prompt Hexa r.
  subst r. unfold handleExpandSource, tryCatch, readProp.
  unfold mbind, M_bind, mret, M_ret, throw.
  rewrite Ht, Hu, Hc, !passes_string_check by done.
  rewrite bool_decide_eq_false_2 by (by destruct content).
  assert (getProp reqBody (js "densityLevel") = Some (prop reqBody (js "densityLevel"))) as ->.
  { unfold prop. destruct reqBody; simpl in *; done. }
  fold level.
  unfold expandSourceAgent, exaClient, tryCatch, callAnswer, readProp.
  unfold mbind, M_bind, mret, M_ret, throw.
  rewrite Hkey. simpl.
  rewrite !bool_decide_eq_false_2 by done. simpl.
  fold prompt. rewrite Hexa. simpl. done.
Qed.

End Handler.

(** C7. On the request with an empty content the handler answers 400
    without logging or calling the collaborator, but the error it reports
    is the one for a missing or invalid content field: no request at all
    is answered with the error about empty content that the handler holds
    for this case. *)
Theorem empty_content_reported_as_missing
    (exceeds70 : Z → Z → bool) (exaApiKey : option jsstring)
    (exaAnswer : jsstring → Thrown + JSValue) (typeErrorMessage : jsstring)
    (requestStart finish : Z) (w : World) :
  handleExpandSource exceeds70 exaApiKey exaAnswer typeErrorMessage
    emptyContentRequest requestStart finish w =
    (w, inr {| statusCode := 400; body := missingContentBody |}) ∧
  missingContentBody ≠ emptyContentBody ∧
  (∀ reqBody,
     (handleExpandSource exceeds70 exaApiKey exaAnswer typeErrorMessage
        reqBody requestStart finish w).2 ≠
     inr {| statusCode := 400; body := emptyContentBody |}).
Proof.
  split; [reflexivity|]. split; [by intros [=]|].
  intros reqBody. apply emptyContentBody_unreachable.
Qed.

Lemma empty_content_is_refused_witness :
  handleExpandSource exceeds70Exact (Some (js "key")) unavailable (js "TypeError")
    emptyContentRequest 1000 1750 quiet =
  (quiet, inr {| statusCode := 400; body := missingContentBody |}).
Proof.
  exact (empty_content_is_refused exceeds70Exact (Some (js "key")) unavailable
           (js "TypeError") emptyContentRequest
           (js "What is Autism Spectrum Disorder (ASD)?") (js "https://example.org/asd")
           1000 1750 quiet
           eq_refl ltac:(vm_compute; congruence) eq_refl ltac:(vm_compute; congruence)
           eq_refl).
Defined.

(** The 500 answer on the well-formed request when the collaborator is
    down. *)
Lemma collaborator_failure_is_500_witness :
  (handleExpandSource exceeds70Exact (Some (js "key")) unavailable (js "TypeError")
     goodRequest 1000 1750 quiet).2 =
  inr {| statusCode := 500;
         body := failureBody (js "Failed to extract concepts: connect ECONNREFUSED") 750 |}.
Proof.
  exact (proj1 (collaborator_failure_is_500 exceeds70Exact (Some (js "key")) unavailable
                  (js "TypeError") goodRequest _ _ _ (ThrowError (js "connect ECONNREFUSED"))
                  1000 1750 quiet
                  ltac:(vm_compute; repeat split; congruence) eq_refl eq_refl)).
Defined.

End RouteSpec.

(** ** Semantic edges *)

Module SemanticSpec.
Import Js Density Semantic.

Lemma idLeb_total a b : idLeb a b = true ∨ idLeb b a = true.
Proof.
  revert b. induction a as [|x a IH]; intros [|y b]; simpl; auto.
  destruct (N.ltb_spec x y), (N.ltb_spec y x); auto; lia.
Qed.

Lemma idLeb_antisym a b : idLeb a b = true → idLeb b a = true → a = b.
Proof.
  revert b. induction a as [|x a IH]; intros [|y b]; simpl; try done.
  destruct (N.ltb_spec x y), (N.ltb_spec y x); try done; try lia.
  intros. f_equal; [lia|auto].
Qed.

Lemma canonicalPair_sound cfg a b s :
  a ≠ b → (minSimilarity cfg <= s)%Q → sound cfg (canonicalPair a b, s).
Proof.
  intros Hne Hs. unfold sound, canonicalPair.
  destruct (idLeb a b) eqn:Hab; simpl; [done|].
  split; [done|]. split; [|done].
  by destruct (idLeb_total a b) as [Hle|Hle]; [congruence|].
Qed.

(** *** Sorting *)

Lemma insertDesc_Permutation x l : insertDesc x l ≡ₚ x :: l.
Proof.
  induction l as [|y r IH]; simpl; [done|].
  destruct (Qle_bool (similarityOf y) (similarityOf x)); [done|].
  rewrite IH. apply Permutation_swap.
Qed.

Lemma sortDesc_Permutation l : sortDesc l ≡ₚ l.
Proof.
  induction l as [|x r IH]; simpl; [done|].
  by rewrite insertDesc_Permutation, IH.
Qed.

(** *** Deduplication *)

Lemma upsert_keys k s acc :
  (upsert k s acc).*1 = if bool_decide (k ∈ acc.*1) then acc.*1 else acc.*1 ++ [k].
Proof.
  induction acc as [|[k' s'] r IH]; csimpl; [done|].
  destruct (decide (k' = k)) as [->|Hne].
  - rewrite (bool_decide_eq_true_2 (k = k)) by done. csimpl.
    rewrite bool_decide_eq_true_2; [done|by left].
  - rewrite (bool_decide_eq_false_2 (k' = k)) by done. csimpl.
    rewrite IH. destruct (decide (k ∈ r.*1)) as [Hin|Hin].
    + rewrite !bool_decide_eq_true_2; [done|by right|done].
    + rewrite !bool_decide_eq_false_2; [done| |done].
      intros [?|?]%elem_of_cons; [congruence|done].
Qed.

Lemma upsert_NoDup k s acc : NoDup acc.*1 → NoDup (upsert k s acc).*1.
Proof.
  intros Hnd. rewrite upsert_keys. case_bool_decide as Hk; [done|].
  apply NoDup_app. split; [done|]. split; [|apply NoDup_singleton].
  intros x Hx ->%list_elem_of_singleton. done.
Qed.

Lemma upsert_sound cfg k s acc :
  sound cfg (k, s) → Forall (sound cfg) acc → Forall (sound cfg) (upsert k s acc).
Proof.
  intros Hks. induction 1 as [|[k' s'] r Hc Hr IH]; simpl.
  - by constructor.
  - destruct (decide (k' = k)) as [->|Hne].
    + rewrite (bool_decide_eq_true_2 (k = k)) by done.
      constructor; [|done]. by destruct (Qle_bool s' s).
    + rewrite (bool_decide_eq_false_2 (k' = k)) by done. by constructor.
Qed.

Lemma dedupe_spec cfg cands :
  Forall (sound cfg) cands →
  NoDup (dedupe cands).*1 ∧ Forall (sound cfg) (dedupe cands).
Proof.
  unfold dedupe.
  assert (∀ acc, NoDup acc.*1 → Forall (sound cfg) acc → Forall (sound cfg) cands →
                 NoDup (foldl (fun acc c => upsert c.1 c.2 acc) acc cands).*1 ∧
                 Forall (sound cfg) (foldl (fun acc c => upsert c.1 c.2 acc) acc cands)) as H.
  { induction cands as [|[k s] r IH]; intros acc Hnd Hacc Hall; simpl; [done|].
    apply Forall_cons in Hall as [Hks Hr].
    apply IH; [by apply upsert_NoDup|by apply upsert_sound|done]. }
  intros Hall. apply H; [constructor|constructor|done].
Qed.

(** *** The builder *)

Section Builder.

Variable Embedding : Type.
Variable embed : Node → option Embedding.
Variable cosineSimilarity : Embedding → Embedding → Q.

Lemma neighboursOf_strong cfg embedded a c :
  c ∈ neighboursOf Embedding cosineSimilarity cfg embedded a →
  c.1.1 ≠ c.1.2 ∧ (minSimilarity cfg <= c.2)%Q.
Proof.
  unfold neighboursOf. intros Hc.
  apply subseteq_take in Hc. rewrite sortDesc_Permutation in Hc.
  apply list_elem_of_filter in Hc as [Hmin Hc].
  apply list_elem_of_fmap in Hc as (b & -> & Hb).
  apply list_elem_of_filter in Hb as [Hne _]. simpl in *.
  split; [congruence|]. by apply Qle_bool_iff.
Qed.

Lemma keptCandidates_spec nodes level :
  let cfg := semanticEdges (getDensityConfig level) in
  NoDup (keptCandidates Embedding embed cosineSimilarity nodes level).*1 ∧
  Forall (sound cfg) (keptCandidates Embedding embed cosineSimilarity nodes level) ∧
  Z.of_nat (length (keptCandidates Embedding embed cosineSimilarity nodes level)) ≤ maxEdges cfg.
Proof.
  intros cfg. unfold keptCandidates. fold cfg.
  set (embedded := embedNodes Embedding embed nodes).
  match goal with |- context [dedupe ?l] => set (canonical := l) end.
  assert (Forall (sound cfg) canonical) as Hcanonical.
  { apply Forall_forall. intros c Hc.
    apply list_elem_of_fmap in Hc as (c0 & -> & Hc0).
    apply list_elem_of_bind in Hc0 as (a & Hc0 & _).
    apply neighboursOf_strong in Hc0 as [Hne Hmin].
    by apply canonicalPair_sound. }
  destruct (dedupe_spec cfg canonical Hcanonical) as [Hnd Hsound].
  assert (0 ≤ maxEdges cfg) as Hcap by (subst cfg; by destruct level as [[]|]).
  destruct (Z.ltb_spec (maxEdges cfg) (Z.of_nat (length (dedupe canonical)))) as [Hmany|Hfew].
  - split; [|split].
    + rewrite fmap_take. eapply sublist_NoDup; [|apply sublist_take].
      by rewrite sortDesc_Permutation.
    + apply Forall_forall. intros c Hc%subseteq_take.
      rewrite sortDesc_Permutation in Hc.
      by apply (proj1 (Forall_forall _ _) Hsound).
    + rewrite length_take. lia.
  - done.
Qed.

Lemma semanticEdgesOf_assembleEdges structural nodes level :
  semanticEdgesOf (assembleEdges Embedding embed cosineSimilarity structural nodes level) =
  emit <$> keptCandidates Embedding embed cosineSimilarity nodes level.
Proof.
  unfold semanticEdgesOf, assembleEdges, buildSemanticEdges. rewrite filter_app.
  assert (filter (fun e => isSemantic e = true) (structuralEdge <$> structural) = []) as ->.
  { induction structural as [|[[[a b] r] q] rest IH]; [done|].
    rewrite fmap_cons, filter_cons. by destruct r. }
  rewrite app_nil_l.
  generalize (keptCandidates Embedding embed cosineSimilarity nodes level).
  intros kept. induction kept as [|c rest IH]; [done|].
  rewrite fmap_cons, filter_cons. simpl. by rewrite IH.
Qed.

End Builder.

(** C9. Among the [semantic_related] edges of an assembled graph no two
    join the same unordered pair of nodes (neither twice in one direction
    nor once in each), every one weighs at least the [minSimilarity] of
    the resolved density, none joins a node to itself, and there are at
    most [maxEdges] of them. *)
Theorem semantic_edges_invariants (Embedding : Type) (embed : Node → option Embedding)
    (cosineSimilarity : Embedding → Embedding → Q)
    (structural : list (jsstring * jsstring * Structural * Q))
    (nodes : list Node) (level : option DensityLevel) :
  let cfg := semanticEdges (getDensityConfig level) in
  let edges :=
    semanticEdgesOf (assembleEdges Embedding embed cosineSimilarity structural nodes level) in
  (∀ i j e1 e2, edges !! i = Some e1 → edges !! j = Some e2 → samePair e1 e2 → i = j) ∧
  (∀ e, e ∈ edges → (minSimilarity cfg <= weight e)%Q ∧ from e ≠ to e) ∧
  Z.of_nat (length edges) ≤ maxEdges cfg.
Proof.
  intros cfg edges. subst edges. rewrite semanticEdgesOf_assembleEdges.
  destruct (keptCandidates_spec Embedding embed cosineSimilarity nodes level)
    as (Hnd & Hsound & Hlen).
  fold cfg in Hsound, Hlen.
  set (kept := keptCandidates Embedding embed cosineSimilarity nodes level) in *.
  split; [|split].
  - intros i j e1 e2 H1 H2 Hsame.
    apply list_lookup_fmap_Some in H1 as (c1 & -> & H1).
    apply list_lookup_fmap_Some in H2 as (c2 & -> & H2).
    destruct (proj1 (Forall_forall _ _) Hsound c1) as (Hne1 & Hle1 & _);
      [by eapply list_elem_of_lookup_2|].
    destruct (proj1 (Forall_forall _ _) Hsound c2) as (Hne2 & Hle2 & _);
      [by eapply list_elem_of_lookup_2|].
    destruct Hsame as [[Hf Ht]|[Hf Ht]]; simpl in *.
    + apply (proj1 (NoDup_alt _) Hnd i j c1.1).
      * apply list_lookup_fmap_Some. by exists c1.
      * apply list_lookup_fmap_Some. exists c2. split; [|done].
        destruct c1 as [[a1 b1] s1], c2 as [[a2 b2] s2]; simpl in *. congruence.
    + exfalso. apply Hne1. apply idLeb_antisym; [done|]. by rewrite Hf, Ht.
  - intros e He. apply list_elem_of_fmap in He as (c & -> & Hc).
    destruct (proj1 (Forall_forall _ _) Hsound c Hc) as (Hne & _ & Hmin). by split.
  - by rewrite length_fmap.
Qed.

(** The builder on three nodes of which two are similar: one edge, from
    the smaller id to the greater. *)
Lemma semantic_edges_invariants_witness :
  buildSemanticEdges jsstring sampleEmbed sampleSimilarity sampleNodes (Some Low) =
    [{| from := js "b1"; to := js "s1"; relation := semantic_related; weight := 0.90 |}] ∧
  Z.of_nat (length (semanticEdgesOf
     (assembleEdges jsstring sampleEmbed sampleSimilarity
        [(js "b1", js "s1", SSupports, 1%Q)] sampleNodes (Some Low)))) ≤ 40.
Proof.
  split; [vm_compute; reflexivity|].
  exact (proj2 (proj2 (semantic_edges_invariants jsstring sampleEmbed sampleSimilarity
                         [(js "b1", js "s1", SSupports, 1%Q)] sampleNodes (Some Low)))).
Defined.

End SemanticSpec.

(** ** Progress tracker: life cycle of a job *)

Module ProgressLaws.
Import Js Progress ProgressSpec ProgressNotions.

Lemma step_inRange pm c : inRange pm → inRange (step pm c).
Proof.
  intros Hpm jobId job. destruct c as [t c]. unfold step; simpl.
  destruct c as [j|j p st ph|j|j|]; simpl.
  - rewrite getProgress_createJob. destruct (decide (j = jobId)); [|apply Hpm].
    intros [= <-]. simpl. lia.
  - rewrite getProgress_updateProgress. destruct (decide (j = jobId)) as [->|]; [|apply Hpm].
    destruct (getProgress jobId pm) as [old|] eqn:Hold; [|done].
    simpl. intros [= <-]. simpl. specialize (Hpm _ _ Hold). lia.
  - rewrite getProgress_completeJob. destruct (decide (j = jobId)) as [->|]; [|apply Hpm].
    destruct (getProgress jobId pm) as [old|]; [|done].
    simpl. intros [= <-]. simpl. lia.
  - rewrite getProgress_removeJob. destruct (decide (j = jobId)); [done|apply Hpm].
  - destruct (cleanupInterval pm); [|apply Hpm].
    rewrite getProgress_cleanupOldJobs.
    destruct (getProgress jobId pm) as [old|] eqn:Hold; [|done].
    destruct (CLEANUP_AFTER_MS <? t - createdAt old); [done|].
    intros [= <-]. by apply (Hpm jobId).
Qed.

Lemma run_inRange calls pm : inRange pm → inRange (run calls pm).
Proof.
  revert pm. induction calls as [|c calls IH]; intros pm Hpm; [done|].
  apply (IH (step pm c)). by apply step_inRange.
Qed.

Lemma constructor_inRange : inRange constructor.
Proof. intros jobId job. unfold getProgress; simpl. by rewrite lookup_empty. Qed.

(** Whatever calls were made since the manager was built, every job it
    holds has a progress between 0 and 100. *)
Theorem every_job_stays_in_range (calls : list (Z * Call)) (jobId : jsstring)
    (job : ProgressState) :
  getProgress jobId (run calls constructor) = Some job → 0 ≤ progress job ≤ 100.
Proof. apply run_inRange, constructor_inRange. Qed.

Lemma every_job_stays_in_range_witness :
  getProgress j1 (run lateCall constructor) =
    Some {| progress := 100; status := js "Building graph"; phase := js "graph";
            createdAt := 0 |} ∧
  0 ≤ 100 ≤ 100.
Proof.
  split; [vm_compute; reflexivity|].
  exact (every_job_stays_in_range lateCall j1
           {| progress := 100; status := js "Building graph"; phase := js "graph";
              createdAt := 0 |}
           ltac:(vm_compute; reflexivity)).
Defined.

Lemma run_without_createJob calls pm jobId after :
  inRange pm → neverCreates jobId calls →
  getProgress jobId (run calls pm) = Some after →
  ∃ before, getProgress jobId pm = Some before ∧
            progress before ≤ progress after ∧ createdAt before = createdAt after.
Proof.
  intros Hpm. revert after.
  induction calls as [|[t c] calls IH] using rev_ind; intros after Hno.
  - intros Hjob. exists after. by split.
  - apply Forall_app in Hno as [Hno Hc]. apply Forall_inv in Hc.
    rewrite run_snoc. unfold step; simpl.
    destruct c as [j|j p st ph|j|j|]; unfold creates in Hc; simpl in *.
    + rewrite getProgress_createJob. destruct (decide (j = jobId)) as [->|]; [|by apply IH].
      by rewrite bool_decide_eq_true_2 in Hc.
    + rewrite getProgress_updateProgress. destruct (decide (j = jobId)) as [->|]; [|by apply IH].
      destruct (getProgress jobId (run calls pm)) as [old|] eqn:Hold; [|done].
      simpl. intros [= <-]. simpl.
      destruct (IH _ Hno eq_refl) as (before & Hb & Hle & Hcr).
      exists before. split; [done|]. split; [lia|done].
    + rewrite getProgress_completeJob. destruct (decide (j = jobId)) as [->|]; [|by apply IH].
      destruct (getProgress jobId (run calls pm)) as [old|] eqn:Hold; [|done].
      simpl. intros [= <-]. simpl.
      destruct (IH _ Hno eq_refl) as (before & Hb & Hle & Hcr).
      exists before. split; [done|]. split; [|done].
      pose proof (run_inRange calls pm Hpm _ _ Hold). lia.
    + rewrite getProgress_removeJob. destruct (decide (j = jobId)); [done|by apply IH].
    + destruct (cleanupInterval (run calls pm)); [|by apply IH].
      rewrite getProgress_cleanupOldJobs.
      destruct (getProgress jobId (run calls pm)) as [old|] eqn:Hold; [|done].
      destruct (CLEANUP_AFTER_MS <? t - createdAt old); [done|].
      intros [= <-]. by apply IH.
Qed.

(** After any history, along further calls among which there is no
    [createJob] on a job's id (calls on other ids, completions, removals
    and sweeps are all allowed), a job found at the end was there before
    them, carries the same creation time, and has not lost progress: only
    [createJob] lowers the progress of a job. *)
Theorem progress_drops_only_on_createJob (history calls : list (Z * Call))
    (jobId : jsstring) (after : ProgressState) :
  neverCreates jobId calls →
  getProgress jobId (run (history ++ calls) constructor) = Some after →
  ∃ before, getProgress jobId (run history constructor) = Some before ∧
            progress before ≤ progress after ∧ createdAt before = createdAt after.
Proof.
  intros Hno. rewrite run_app.
  apply run_without_createJob; [|done]. apply run_inRange, constructor_inRange.
Qed.

Lemma progress_drops_only_on_createJob_witness :
  ∃ before, getProgress j1 (run [(0, CreateJob j1)] constructor) = Some before ∧
            progress before ≤ 100 ∧ createdAt before = 0.
Proof.
  exact (progress_drops_only_on_createJob [(0, CreateJob j1)]
           [(10, CompleteJob j1);
            (20, UpdateProgress j1 30 (js "Building graph") (js "graph"))]
           j1
           {| progress := 100; status := js "Building graph"; phase := js "graph";
              createdAt := 0 |}
           ltac:(repeat constructor)
           ltac:(vm_compute; reflexivity)).
Defined.

(** An update that arrives after [completeJob] cannot lower the progress
    from 100, but it does replace the status [Ready] and the phase
    [complete] by its own. *)
Theorem late_update_overwrites_completion (pm : ProgressManager) (jobId : jsstring)
    (job : ProgressState) (p : Z) (st ph : jsstring) :
  getProgress jobId pm = Some job →
  getProgress jobId (updateProgress jobId p st ph (completeJob jobId pm)) =
  Some {| progress := 100; status := st; phase := ph; createdAt := createdAt job |}.
Proof.
  intros Hjob. rewrite getProgress_updateProgress, getProgress_completeJob, Hjob.
  destruct (decide (jobId = jobId)); [|done]. simpl. do 2 f_equal. lia.
Qed.

Lemma late_update_overwrites_completion_witness :
  getProgress j1 (run lateCall constructor) =
  Some {| progress := 100; status := js "Building graph"; phase := js "graph";
          createdAt := 0 |}.
Proof.
  exact (late_update_overwrites_completion (run [(0, CreateJob j1)] constructor) j1
           {| progress := 0; status := js "Starting..."; phase := js "init"; createdAt := 0 |}
           30 (js "Building graph") (js "graph")
           ltac:(vm_compute; reflexivity)).
Defined.

(** *** The sweep as a filter *)

Lemma sweepEntries_count now entries acc :
  (sweepEntries now entries acc).2 =
  acc.2 + Z.of_nat (length (filter (fun e => ¬ young now e) entries)).
Proof.
  revert acc. induction entries as [|[k job] rest IH]; intros acc; simpl; [lia|].
  rewrite IH, filter_cons.
  destruct (Z.ltb_spec CLEANUP_AFTER_MS (now - createdAt job)); simpl.
  - rewrite decide_True by (unfold young; simpl; lia). simpl. lia.
  - by rewrite decide_False by (unfold young; simpl; lia).
Qed.

Lemma map_to_list_filter_Permutation (P : jsstring * ProgressState → Prop)
    `{!∀ e, Decision (P e)} (m : gmap jsstring ProgressState) :
  map_to_list (filter P m) ≡ₚ filter P (map_to_list m).
Proof.
  apply NoDup_Permutation.
  - apply NoDup_map_to_list.
  - apply NoDup_filter, NoDup_map_to_list.
  - intros [k job]. rewrite elem_of_map_to_list, map_lookup_filter_Some.
    rewrite list_elem_of_filter, elem_of_map_to_list. tauto.
Qed.

Lemma size_filter_young (now : Z) (m : gmap jsstring ProgressState) :
  size m = (size (filter (young now) m)
            + length (filter (fun e => ¬ young now e) (map_to_list m)))%nat.
Proof.
  rewrite <- (map_to_list_filter_Permutation (fun e => ¬ young now e)).
  rewrite length_map_to_list.
  rewrite <- map_size_disj_union by apply map_disjoint_filter_complement.
  by rewrite map_filter_union_complement.
Qed.

Lemma jobs_cleanupOldJobs now pm :
  jobs (cleanupOldJobs now pm) = filter (young now) (jobs pm).
Proof.
  apply map_eq. intros jobId.
  change (jobs (cleanupOldJobs now pm) !! jobId)
    with (getProgress jobId (cleanupOldJobs now pm)).
  rewrite getProgress_cleanupOldJobs, map_lookup_filter. unfold getProgress.
  destruct (jobs pm !! jobId) as [job|]; simpl; [|done].
  unfold young; simpl.
  destruct (Z.ltb_spec CLEANUP_AFTER_MS (now - createdAt job)).
  - by rewrite option_guard_False by lia.
  - by rewrite option_guard_True by lia.
Qed.

(** The sweep at time [now] keeps exactly the jobs whose age does not
    exceed the retention window and touches no other part of a job; it
    writes one line, with the number of jobs it deleted, when it deleted
    some and none otherwise; and a second sweep at the same time changes
    nothing at all. *)
Theorem cleanupOldJobs_filters (now : Z) (pm : ProgressManager) :
  let kept := filter (young now) (jobs pm) in
  let cleanedCount := Z.of_nat (size (jobs pm) - size kept) in
  jobs (cleanupOldJobs now pm) = kept ∧
  console (cleanupOldJobs now pm) =
    console pm ++
    (if 0 <? cleanedCount
     then [(Console.Log,
            js "[ProgressManager] Cleaned up " ++ showZ cleanedCount ++ js " old job(s)")]
     else []) ∧
  cleanupOldJobs now (cleanupOldJobs now pm) = cleanupOldJobs now pm.
Proof.
  intros kept cleanedCount.
  assert (∀ pm', (sweepEntries now (map_to_list (jobs pm')) (jobs pm', 0)).2 =
                 Z.of_nat (size (jobs pm') - size (filter (young now) (jobs pm')))) as Hcount.
  { intros pm'. rewrite sweepEntries_count. simpl.
    rewrite (size_filter_young now (jobs pm')) at 1. f_equal. lia. }
  assert (∀ pm', console (cleanupOldJobs now pm') =
                 console pm' ++
                 (if 0 <? Z.of_nat (size (jobs pm') - size (filter (young now) (jobs pm')))
                  then [(Console.Log,
                         js "[ProgressManager] Cleaned up "
                           ++ showZ (Z.of_nat (size (jobs pm')
                                               - size (filter (young now) (jobs pm'))))
                           ++ js " old job(s)")]
                  else [])) as Hconsole.
  { intros pm'. specialize (Hcount pm'). unfold cleanupOldJobs.
    destruct (sweepEntries now (map_to_list (jobs pm')) (jobs pm', 0)) as [m n].
    simpl in Hcount. subst n.
    destruct (0 <? _); simpl; [done|by rewrite app_nil_r]. }
  split; [apply jobs_cleanupOldJobs|]. split; [apply Hconsole|].
  assert (filter (young now) (jobs (cleanupOldJobs now pm)) = jobs (cleanupOldJobs now pm))
    as Hsame.
  { rewrite jobs_cleanupOldJobs. apply map_filter_id.
    intros i x Hx. by apply map_lookup_filter_Some in Hx as [_ ?]. }
  pose proof (jobs_cleanupOldJobs now (cleanupOldJobs now pm)) as Hjobs.
  pose proof (Hconsole (cleanupOldJobs now pm)) as Hlines.
  rewrite Hsame in Hjobs, Hlines.
  rewrite Nat.sub_diag in Hlines. simpl in Hlines. rewrite app_nil_r in Hlines.
  assert (cleanupInterval (cleanupOldJobs now (cleanupOldJobs now pm)) =
          cleanupInterval (cleanupOldJobs now pm)) as Htimer.
  { unfold cleanupOldJobs at 1.
    destruct (sweepEntries _ _ _) as [m n]. by destruct (0 <? n). }
  destruct (cleanupOldJobs now (cleanupOldJobs now pm)) as [a b c],
    (cleanupOldJobs now pm) as [a' b' c']; simpl in *. by subst.
Qed.

(** Creating a job again resets it and restarts its retention: whatever
    the manager held under the id, the job is fresh after [createJob] at
    time [now], and a sweep at time [t] keeps it exactly when
    [t - now] does not exceed 300000 ms. *)
Theorem createJob_restarts_retention (pm : ProgressManager) (jobId : jsstring) (now t : Z) :
  getProgress jobId (cleanupOldJobs t (createJob jobId now pm)) =
  if CLEANUP_AFTER_MS <? t - now then None
  else Some {| progress := 0; status := js "Starting..."; phase := js "init";
               createdAt := now |}.
Proof.
  rewrite getProgress_cleanupOldJobs, getProgress_createJob.
  by destruct (decide (jobId = jobId)).
Qed.

(** [removeJob] forgets the job and nothing else; on an id the manager
    does not know it changes nothing at all, not even the console (where
    [updateProgress] and [completeJob] leave a warning); removing twice is
    removing once; and an update that follows the removal does not bring
    the job back. *)
Theorem removeJob_forgets (pm : ProgressManager) (jobId : jsstring) :
  getProgress jobId (removeJob jobId pm) = None ∧
  (∀ other, other ≠ jobId → getProgress other (removeJob jobId pm) = getProgress other pm) ∧
  (jobId ∉ dom (jobs pm) → removeJob jobId pm = pm) ∧
  removeJob jobId (removeJob jobId pm) = removeJob jobId pm ∧
  (∀ p st ph, getProgress jobId (updateProgress jobId p st ph (removeJob jobId pm)) = None) ∧
  getActiveJobCount (removeJob jobId pm) =
    getActiveJobCount pm - (if decide (jobId ∈ dom (jobs pm)) then 1 else 0).
Proof.
  assert (getProgress jobId (removeJob jobId pm) = None) as Hgone.
  { rewrite getProgress_removeJob. by destruct (decide (jobId = jobId)). }
  assert (∀ pm', jobs pm' !! jobId = None → removeJob jobId pm' = pm') as Hnoop.
  { intros pm' Hnone. unfold removeJob. by rewrite Hnone. }
  split; [done|]. split; [|split; [|split; [|split]]].
  - intros other Hne. rewrite getProgress_removeJob. by destruct (decide (jobId = other)).
  - intros Hdom. apply Hnoop. by apply not_elem_of_dom.
  - by apply Hnoop.
  - intros p st ph. rewrite getProgress_updateProgress, Hgone.
    by destruct (decide (jobId = jobId)).
  - unfold getActiveJobCount, removeJob.
    destruct (jobs pm !! jobId) as [job|] eqn:Hjob; simpl.
    + rewrite decide_True by (apply elem_of_dom; eauto).
      pose proof (map_size_delete jobId (jobs pm)) as Hsize. rewrite Hjob in Hsize.
      assert (size (jobs pm) ≠ 0%nat).
      { intros Hz. apply map_size_empty_inv in Hz. by rewrite Hz, lookup_empty in Hjob. }
      lia.
    + rewrite decide_False by (by apply not_elem_of_dom). lia.
Qed.

(** *** The number of jobs *)

(** [getActiveJobCount] follows the calls: [createJob] adds one when the
    id is new and none when it replaces a job; [updateProgress],
    [completeJob] and [shutdown] leave the count as it is, on a known id
    and on an unknown one; [removeJob] takes one away when the job exists
    and none otherwise; and the sweep takes away as many as it reports. *)
Theorem getActiveJobCount_follows_the_calls (pm : ProgressManager) (jobId : jsstring)
    (now p : Z) (st ph : jsstring) :
  getActiveJobCount (createJob jobId now pm) =
    getActiveJobCount pm + match getProgress jobId pm with Some _ => 0 | None => 1 end ∧
  getActiveJobCount (updateProgress jobId p st ph pm) = getActiveJobCount pm ∧
  getActiveJobCount (completeJob jobId pm) = getActiveJobCount pm ∧
  getActiveJobCount (removeJob jobId pm) =
    getActiveJobCount pm - match getProgress jobId pm with Some _ => 1 | None => 0 end ∧
  getActiveJobCount (shutdown pm) = getActiveJobCount pm ∧
  getActiveJobCount (cleanupOldJobs now pm) =
    getActiveJobCount pm
    - Z.of_nat (length (filter (fun e => ¬ young now e) (map_to_list (jobs pm)))).
Proof.
  unfold getActiveJobCount, getProgress. split_and!.
  - unfold createJob. simpl. destruct (jobs pm !! jobId) as [job|] eqn:Hjob.
    + rewrite map_size_insert_Some by done. lia.
    + rewrite map_size_insert_None by done. lia.
  - unfold updateProgress. destruct (jobs pm !! jobId) as [job|] eqn:Hjob; simpl; [|done].
    by rewrite map_size_insert_Some.
  - unfold completeJob. destruct (jobs pm !! jobId) as [job|] eqn:Hjob; simpl; [|done].
    by rewrite map_size_insert_Some.
  - unfold removeJob. destruct (jobs pm !! jobId) as [job|] eqn:Hjob; simpl; [|lia].
    rewrite map_size_delete_Some by done.
    assert (size (jobs pm) ≠ 0%nat); [|lia].
    intros Hz. apply map_size_empty_inv in Hz. by rewrite Hz in Hjob.
  - done.
  - rewrite jobs_cleanupOldJobs, (size_filter_young now (jobs pm)) at 1. lia.
Qed.

(** *** Shutdown *)

Lemma cleanupInterval_step pm c : cleanupInterval (step pm c) = cleanupInterval pm.
Proof.
  destruct c as [t [id|id p st ph|id|id|]]; unfold step; simpl.
  - done.
  - unfold updateProgress. by destruct (jobs pm !! id).
  - unfold completeJob. by destruct (jobs pm !! id).
  - unfold removeJob. by destruct (jobs pm !! id).
  - destruct (cleanupInterval pm) eqn:Ht; [|done].
    unfold cleanupOldJobs. destruct (sweepEntries _ _ _) as [m n]. by destruct (0 <? n).
Qed.

Lemma cleanupInterval_run calls pm : cleanupInterval (run calls pm) = cleanupInterval pm.
Proof.
  induction calls as [|c calls IH] using rev_ind; [done|].
  by rewrite run_snoc, cleanupInterval_step.
Qed.

Lemma step_keeps_unswept pm c jobId :
  cleanupInterval pm = false → c.2 ≠ RemoveJob jobId →
  is_Some (getProgress jobId pm) → is_Some (getProgress jobId (step pm c)).
Proof.
  intros Htimer Hc [job Hjob]. destruct c as [t [id|id p st ph|id|id|]]; unfold step; simpl in *.
  - rewrite getProgress_createJob. destruct (decide (id = jobId)); [by eexists|by exists job].
  - rewrite getProgress_updateProgress.
    destruct (decide (id = jobId)) as [->|]; [|by exists job].
    rewrite Hjob. by eexists.
  - rewrite getProgress_completeJob.
    destruct (decide (id = jobId)) as [->|]; [|by exists job].
    rewrite Hjob. by eexists.
  - rewrite getProgress_removeJob.
    destruct (decide (id = jobId)) as [->|]; [done|by exists job].
  - rewrite Htimer. by exists job.
Qed.

(** [shutdown] stops the sweep and nothing starts it again: the jobs
    stay where they are, and from then on a job leaves the manager only by
    [removeJob], however old it gets and however the other methods are
    called. *)
Theorem shutdown_ends_the_sweep (pm : ProgressManager) (calls : list (Z * Call))
    (jobId : jsstring) :
  is_Some (getProgress jobId pm) → neverRemoves jobId calls →
  jobs (shutdown pm) = jobs pm ∧
  cleanupInterval (run calls (shutdown pm)) = false ∧
  is_Some (getProgress jobId (run calls (shutdown pm))).
Proof.
  intros Hjob Hcalls. split; [done|]. split; [by rewrite cleanupInterval_run|].
  induction calls as [|c calls IH] using rev_ind; [done|].
  apply Forall_app in Hcalls as [Hcalls Hc]. apply Forall_inv in Hc.
  rewrite run_snoc. apply step_keeps_unswept; [by rewrite cleanupInterval_run|done|by apply IH].
Qed.

Lemma shutdown_ends_the_sweep_witness :
  is_Some (getProgress j1 (run lateTicks (shutdown (run [(0, CreateJob j1)] constructor)))) ∧
  getProgress j1 (run lateTicks (run [(0, CreateJob j1)] constructor)) = None.
Proof.
  split; [|vm_compute; reflexivity].
  exact (proj2 (proj2 (shutdown_ends_the_sweep (run [(0, CreateJob j1)] constructor)
                         lateTicks j1
                         ltac:(vm_compute; eauto)
                         ltac:(repeat constructor; discriminate)))).
Defined.

End ProgressLaws.

(** ** The progress route *)

Module ProgressRouteSpec.
Import Js Progress ProgressSpec ProgressNotions Route ProgressRoute.

(** The route answers 400 with the error [Job ID is required] exactly
    when the id is missing or empty, 404 with the error [Job not found]
    exactly when the id is not empty and the manager holds no job under
    it, and otherwise 200 with the id and the job's progress, status and
    phase; the creation time is never sent.  In particular a job created
    under the empty id cannot be read through the route. *)
Theorem getProgressRoute_answers (jobId : option jsstring) (pm : ProgressManager) :
  let r := getProgressRoute jobId pm in
  (statusCode r = 400 ↔ jobId = None ∨ jobId = Some []) ∧
  (statusCode r = 404 ↔ ∃ id, jobId = Some id ∧ id ≠ [] ∧ getProgress id pm = None) ∧
  (statusCode r = 200 ↔ ∃ id job, jobId = Some id ∧ id ≠ [] ∧ getProgress id pm = Some job) ∧
  (statusCode r = 400 → r = idRequired) ∧
  (statusCode r = 404 → r = notFound) ∧
  (∀ id job, jobId = Some id → id ≠ [] → getProgress id pm = Some job →
     r = found id (progress job) (status job) (phase job)) ∧
  lookupField (js "createdAt") (match body r with JObject fields => fields | _ => [] end)
    = JUndefined ∧
  (∀ now, getProgressRoute (Some []) (createJob [] now pm) = idRequired).
Proof.
  intros r. subst r. unfold getProgressRoute.
  destruct jobId as [[|c id]|]; simpl.
  - split_and!; try done.
    + split; [by right|done].
    + split; [done|]. by intros (id & [= <-] & Hne & _).
    + split; [done|]. by intros (id & job & [= <-] & Hne & _).
    + by intros id job [= <-] Hne.
  - destruct (getProgress (c :: id) pm) as [job|] eqn:Hjob; simpl.
    + split_and!; try done.
      * split; [done|]. by intros [?|?].
      * split; [done|]. intros (id' & [= <-] & _ & Hnone). congruence.
      * split; [|done]. intros _. by exists (c :: id), job.
      * intros id' job' [= <-] _ Hjob'. rewrite Hjob in Hjob'. by injection Hjob' as <-.
    + split_and!; try done.
      * split; [done|]. by intros [?|?].
      * split; [|done]. intros _. by exists (c :: id).
      * split; [done|]. intros (id' & job' & [= <-] & _ & Hsome). congruence.
      * intros id' job' [= <-] _ Hjob'. congruence.
  - split_and!; try done.
    + split; [by left|done].
    + split; [done|]. by intros (id & ? & _).
    + split; [done|]. by intros (id & job & ? & _).
Qed.

(** What a client polling the route sees along the life of a job with a
    non-empty id: the fresh state after [createJob], 100 and [Ready] after
    [completeJob], and 404 after [removeJob] or after a sweep that finds
    the job older than the retention window. *)
Theorem getProgressRoute_lifecycle (pm : ProgressManager) (id : jsstring) (now t : Z) :
  id ≠ [] →
  let created := createJob id now pm in
  getProgressRoute (Some id) created = found id 0 (js "Starting...") (js "init") ∧
  getProgressRoute (Some id) (completeJob id created) = found id 100 (js "Ready") (js "complete") ∧
  getProgressRoute (Some id) (removeJob id created) = notFound ∧
  (CLEANUP_AFTER_MS < t - now →
   getProgressRoute (Some id) (cleanupOldJobs t created) = notFound) ∧
  (t - now ≤ CLEANUP_AFTER_MS →
   getProgressRoute (Some id) (cleanupOldJobs t created) =
   found id 0 (js "Starting...") (js "init")).
Proof.
  intros Hid created.
  assert (getProgress id created =
          Some {| progress := 0; status := js "Starting..."; phase := js "init";
                  createdAt := now |}) as Hcreated.
  { subst created. rewrite getProgress_createJob. by destruct (decide (id = id)). }
  destruct id as [|c id]; [done|]. unfold getProgressRoute.
  rewrite getProgress_completeJob, getProgress_removeJob, getProgress_cleanupOldJobs.
  rewrite Hcreated. destruct (decide (c :: id = c :: id)); [|done]. simpl.
  repeat split; try done.
  - intros Hold. by destruct (Z.ltb_spec CLEANUP_AFTER_MS (t - now)); [|lia].
  - intros Hyoung. by destruct (Z.ltb_spec CLEANUP_AFTER_MS (t - now)); [lia|].
Qed.

Lemma getProgressRoute_lifecycle_witness :
  getProgressRoute (Some j1) (createJob j1 0 constructor)
    = found j1 0 (js "Starting...") (js "init") ∧
  getProgressRoute (Some j1) (removeJob j1 (createJob j1 0 constructor)) = notFound.
Proof.
  pose proof (getProgressRoute_lifecycle constructor j1 0 0 ltac:(vm_compute; congruence))
    as (Hcreated & _ & Hremoved & _).
  by split.
Defined.

(** Between two polls separated by calls that do not create the job
    again, the progress a client reads never goes down, and if the second
    poll finds the job the first one found it too. *)
Theorem polled_progress_never_drops (history calls : list (Z * Call)) (id : jsstring)
    (p2 : Z) (st2 ph2 : jsstring) :
  neverCreates id calls →
  getProgressRoute (Some id) (run (history ++ calls) constructor) = found id p2 st2 ph2 →
  ∃ p1 st1 ph1,
    getProgressRoute (Some id) (run history constructor) = found id p1 st1 ph1 ∧
    0 ≤ p1 ∧ p1 ≤ p2 ∧ p2 ≤ 100.
Proof.
  intros Hno. unfold getProgressRoute.
  destruct id as [|c id]; [done|].
  destruct (getProgress (c :: id) (run (history ++ calls) constructor)) as [after|] eqn:Hafter;
    [|done].
  intros [= Hp _ _]. subst p2.
  pose proof (ProgressLaws.run_inRange (history ++ calls) constructor
                ProgressLaws.constructor_inRange _ _ Hafter) as Hrange2.
  rewrite run_app in Hafter.
  destruct (ProgressLaws.run_without_createJob calls (run history constructor) (c :: id) after)
    as (before & Hbefore & Hle & _); [apply ProgressLaws.run_inRange,
      ProgressLaws.constructor_inRange|done|done|].
  pose proof (ProgressLaws.run_inRange history constructor
                ProgressLaws.constructor_inRange _ _ Hbefore) as Hrange1.
  rewrite Hbefore. exists (progress before), (status before), (phase before).
  split; [done|lia].
Qed.

Lemma polled_progress_never_drops_witness :
  ∃ p1 st1 ph1,
    getProgressRoute (Some j1) (run [(0, CreateJob j1)] constructor) = found j1 p1 st1 ph1 ∧
    0 ≤ p1 ∧ p1 ≤ 100 ∧ 100 ≤ 100.
Proof.
  exact (polled_progress_never_drops [(0, CreateJob j1)]
           [(10, CompleteJob j1);
            (20, UpdateProgress j1 30 (js "Building graph") (js "graph"))]
           j1 100 (js "Building graph") (js "graph")
           ltac:(repeat constructor) ltac:(vm_compute; reflexivity)).
Defined.

End ProgressRouteSpec.

(** ** Density resolver: the heuristic and the table *)

Module DensityLaws.
Import Js Density DensityNotions DensitySpec.

Lemma levelRank_of_score a b :
  a ≤ b →
  levelRank (if 4 <=? a then High else if 2 <=? a then Medium else Low) ≤
  levelRank (if 4 <=? b then High else if 2 <=? b then Medium else Low).
Proof.
  intros. destruct (Z.leb_spec 4 a), (Z.leb_spec 2 a), (Z.leb_spec 4 b), (Z.leb_spec 2 b);
    simpl; lia.
Qed.

(** More answer blocks never lower the inferred level, and supplying a
    block count never gives a lower level than leaving it out. *)
Theorem inferDensityLevel_monotone_in_blocks (question : jsstring) :
  (∀ n m, n ≤ m →
     levelRank (inferDensityLevel question (Some n)) ≤
     levelRank (inferDensityLevel question (Some m))) ∧
  (∀ n, levelRank (inferDensityLevel question None) ≤
        levelRank (inferDensityLevel question (Some n))).
Proof.
  split.
  - intros n m Hnm. rewrite !inferDensityLevel_additive. apply levelRank_of_score.
    unfold additiveScore, blockPoints.
    destruct (Z.leb_spec 6 n), (Z.leb_spec 4 n), (Z.leb_spec 6 m), (Z.leb_spec 4 m); lia.
  - intros n. rewrite !inferDensityLevel_additive. apply levelRank_of_score.
    unfold additiveScore, blockPoints.
    destruct (Z.leb_spec 6 n), (Z.leb_spec 4 n); lia.
Qed.

(** *** Case of letters *)

Ltac decide_comparisons :=
  repeat match goal with
    | |- context [(?a =? ?b)%N] =>
        first [rewrite (proj2 (N.eqb_neq a b)) by lia | rewrite (proj2 (N.eqb_eq a b)) by lia]
    | |- context [(?a <=? ?b)%N] =>
        first [rewrite (proj2 (N.leb_gt a b)) by lia | rewrite (proj2 (N.leb_le a b)) by lia]
    end.

Lemma canonicalize_cases c :
  canonicalize c = c ∨ ((97 <= c <= 122)%N ∧ canonicalize c = (c - 32)%N).
Proof.
  unfold canonicalize.
  destruct (N.leb_spec 97 c), (N.leb_spec c 122); simpl; auto.
Qed.

Lemma isWhiteSpace_canonicalize c : isWhiteSpace (canonicalize c) = isWhiteSpace c.
Proof.
  destruct (canonicalize_cases c) as [->|[Hc ->]]; [done|].
  unfold isWhiteSpace. by decide_comparisons.
Qed.

Lemma isWordChar_canonicalize c : isWordChar (canonicalize c) = isWordChar c.
Proof.
  destruct (canonicalize_cases c) as [->|[Hc ->]]; [done|].
  unfold isWordChar. by decide_comparisons.
Qed.

Lemma canonicalize_idemp c : canonicalize (canonicalize c) = canonicalize c.
Proof.
  destruct (canonicalize_cases c) as [Heq|[Hc ->]]; [by rewrite !Heq|].
  unfold canonicalize. by decide_comparisons.
Qed.

Lemma canonicalize_question_mark c : canonicalize c = 63%N ↔ c = 63%N.
Proof.
  destruct (canonicalize_cases c) as [->|[Hc ->]]; [done|]. lia.
Qed.

Lemma countRuns_canonicalize b (s : jsstring) : countRuns b (canonicalize <$> s) = countRuns b s.
Proof.
  revert b. induction s as [|c r IH]; intros b; [done|].
  rewrite fmap_cons, !countRuns_cons, isWhiteSpace_canonicalize, !IH. done.
Qed.

Lemma countChar_canonicalize (s : jsstring) :
  countChar 63%N (canonicalize <$> s) = countChar 63%N s.
Proof.
  unfold countChar. induction s as [|c r IH]; [done|].
  rewrite fmap_cons, !filter_cons.
  destruct (decide (c = 63%N)) as [->|Hc].
  - rewrite decide_True by done. simpl. by rewrite IH.
  - rewrite decide_False by (by rewrite canonicalize_question_mark). done.
Qed.

Lemma matchLiteral_canonicalize (w s : jsstring) (last : option N) :
  matchLiteral w (canonicalize <$> s) (canonicalize <$> last) =
  (fun r : option N * jsstring => (canonicalize <$> r.1, canonicalize <$> r.2))
    <$> matchLiteral w s last.
Proof.
  revert s last. induction w as [|p w IH]; intros s last; [done|].
  destruct s as [|c s]; [done|]. rewrite fmap_cons. simpl.
  rewrite canonicalize_idemp.
  destruct (canonicalize c =? canonicalize p)%N; [|done].
  apply (IH s (Some c)).
Qed.

Lemma isWordAt_canonicalize (c : option N) : isWordAt (canonicalize <$> c) = isWordAt c.
Proof. destruct c; [apply isWordChar_canonicalize|done]. Qed.

Lemma matchWordHere_canonicalize (prev : option N) (s w : jsstring) :
  matchWordHere (canonicalize <$> prev) (canonicalize <$> s) w = matchWordHere prev s w.
Proof.
  unfold matchWordHere, wordBoundary.
  rewrite matchLiteral_canonicalize.
  assert (head (canonicalize <$> s) = canonicalize <$> head s) as -> by (by destruct s).
  rewrite !isWordAt_canonicalize.
  destruct (matchLiteral w s prev) as [[last rest]|]; simpl; [|done].
  assert (head (canonicalize <$> rest) = canonicalize <$> head rest) as ->
    by (by destruct rest).
  by rewrite !isWordAt_canonicalize.
Qed.

Lemma existsb_pointwise {A} (f g : A → bool) (l : list A) :
  (∀ x, f x = g x) → existsb f l = existsb g l.
Proof. intros Hfg. induction l as [|x l IH]; simpl; [done|]. by rewrite Hfg, IH. Qed.

Lemma testWordsFrom_canonicalize alts (prev : option N) (s : jsstring) :
  testWordsFrom alts (canonicalize <$> prev) (canonicalize <$> s) = testWordsFrom alts prev s.
Proof.
  revert prev. induction s as [|c r IH]; intros prev.
  - simpl. f_equal. apply existsb_pointwise. intros w.
    apply (matchWordHere_canonicalize prev [] w).
  - rewrite fmap_cons. simpl. f_equal.
    + apply existsb_pointwise. intros w. apply (matchWordHere_canonicalize prev (c :: r) w).
    + apply (IH (Some c)).
Qed.

Lemma features_canonicalize (s : jsstring) :
  questionWords (canonicalize <$> s) = questionWords s ∧
  questionMarks (canonicalize <$> s) = questionMarks s ∧
  hasMultiPartIndicators (canonicalize <$> s) = hasMultiPartIndicators s ∧
  hasListIndicators (canonicalize <$> s) = hasListIndicators s.
Proof.
  split_and!.
  - rewrite !questionWords_wordCount. unfold wordCount. by rewrite countRuns_canonicalize.
  - unfold questionMarks. by rewrite countChar_canonicalize.
  - apply (testWordsFrom_canonicalize multiPartWords None s).
  - apply (testWordsFrom_canonicalize listWords None s).
Qed.

(** The heuristic does not look at the case of ASCII letters: two
    questions that differ only there get the same level. *)
Theorem inferDensityLevel_ignores_case (question question' : jsstring)
    (answerBlockCount : option Z) :
  sameLetters question question' →
  inferDensityLevel question answerBlockCount = inferDensityLevel question' answerBlockCount.
Proof.
  unfold sameLetters. intros Hsame. unfold inferDensityLevel.
  destruct (features_canonicalize question) as (<- & <- & <- & <-).
  destruct (features_canonicalize question') as (<- & <- & <- & <-).
  by rewrite Hsame.
Qed.

Lemma inferDensityLevel_ignores_case_witness :
  inferDensityLevel shouted None = inferDensityLevel whispered None ∧
  inferDensityLevel whispered None = Medium.
Proof.
  split; [|vm_compute; reflexivity].
  exact (inferDensityLevel_ignores_case shouted whispered None
           ltac:(vm_compute; reflexivity)).
Defined.

(** *** The table *)

(** Every preset is well formed, and the presets grow in richness from
    [low] over [medium] to [high]; in particular the concepts asked of the
    processed sources never exceed the global cap of their preset. *)
Theorem presets_fit_together :
  (∀ level, wellFormedConfig (getDensityConfig level)) ∧
  atMostAsRich (getDensityConfig (Some Low)) (getDensityConfig (Some Medium)) ∧
  atMostAsRich (getDensityConfig (Some Medium)) (getDensityConfig (Some High)).
Proof.
  split; [|split].
  - intros [[]|]; unfold wellFormedConfig; simpl; repeat split; try lia; reflexivity.
  - unfold atMostAsRich; simpl; repeat split; try lia. by vm_compute.
  - unfold atMostAsRich; simpl; repeat split; try lia. by vm_compute.
Qed.

End DensityLaws.

(** ** Concept extraction: validation, prompt and agent *)

Module ExpandLaws.
Import Js Density Eff Expand Route ExpandSpec ExpandNotions.

(** *** Validation *)

Lemma validateElement_warns i concept out :
  ∃ lines,
    (validateElement i concept out).1 = out.1 ++ lines ∧
    Forall (fun l => l.1 = Console.Warn) lines ∧
    (length lines + length (option_list (conceptOf concept)) = 1)%nat.
Proof.
  unfold conceptOf, validateElement.
  destruct (negb (truthy concept) || negb (JSType_eqb (typeof concept) TObject)); simpl.
  { eexists [_]. split; [done|]. split; [by repeat constructor|done]. }
  destruct (prop concept (js "title")); simpl;
    try (eexists [_]; split; [done|]; split; [by repeat constructor|done]).
  destruct (prop concept (js "text")); simpl;
    try (eexists [_]; split; [done|]; split; [by repeat constructor|done]).
  exists []. split; [by rewrite app_nil_r|]. split; [constructor|done].
Qed.

Lemma validateLoop_warns i elems out :
  ∃ lines,
    (validateLoop i elems out).1 = out.1 ++ lines ∧
    Forall (fun l => l.1 = Console.Warn) lines ∧
    (length lines + length (omap conceptOf elems) = length elems)%nat.
Proof.
  revert i out. induction elems as [|concept rest IH]; intros i out; csimpl.
  - exists []. split; [by rewrite app_nil_r|]. split; [constructor|done].
  - destruct (validateElement_warns i concept out) as (l1 & H1 & Hw1 & Hn1).
    destruct (IH (i + 1) (validateElement i concept out)) as (l2 & H2 & Hw2 & Hn2).
    exists (l1 ++ l2). rewrite H2, H1, app_assoc. split; [done|].
    split; [by apply Forall_app|]. rewrite length_app.
    destruct (conceptOf concept); csimpl in *; lia.
Qed.

(** Validation accounts for every element of the array: each one is
    either kept or answered by exactly one warning, so the warnings and
    the concepts together are as many as the elements; nothing but
    warnings is written. *)
Theorem validation_warns_once_per_dropped_element (response : JSValue)
    (elems : list JSValue) :
  prop response (js "concepts") = JArray elems →
  ∃ warnings concepts,
    validateConceptsResponse response = (warnings, inr concepts) ∧
    Forall (fun l => l.1 = Console.Warn) warnings ∧
    (length warnings + length concepts = length elems)%nat.
Proof.
  intros Hconcepts. unfold validateConceptsResponse.
  destruct response as [| |b|q|s|l|fields]; try done.
  unfold prop in *; simpl in *. rewrite Hconcepts. simpl.
  destruct (validateLoop_warns 0 elems ([], [])) as (lines & Hlines & Hwarn & Hcount).
  simpl in Hlines. exists lines, (validateLoop 0 elems ([], [])).2.
  split; [by rewrite Hlines|]. split; [done|].
  by rewrite validateLoop_elementwise.
Qed.

Lemma validation_warns_once_per_dropped_element_witness :
  ∃ warnings concepts,
    validateConceptsResponse mixedAnswer = (warnings, inr concepts) ∧
    Forall (fun l => l.1 = Console.Warn) warnings ∧
    (length warnings + length concepts = 3)%nat.
Proof.
  exact (validation_warns_once_per_dropped_element mixedAnswer _ eq_refl).
Defined.

(** An answer that is not an object, or whose [concepts] is not an array,
    makes the validation throw an [Error] that says which, before
    anything is written. *)
Theorem validation_rejects_malformed_answer (response : JSValue) :
  (∀ elems, prop response (js "concepts") ≠ JArray elems) →
  validateConceptsResponse response =
  ([], inl (ThrowError
              (match response with
               | JObject _ | JArray _ => js "Invalid response: concepts is not an array"
               | _ => js "Invalid response: not an object"
               end))).
Proof.
  intros Hnot. unfold validateConceptsResponse.
  destruct response as [| |b|q|s|l|fields]; simpl; try done.
  - by destruct b.
  - by destruct (negb (Qeq_bool q 0)).
  - by destruct (negb (bool_decide (s = []))).
  - unfold prop in *; simpl in *.
    destruct (lookupField (js "concepts") fields) as [| | | | |elems|] eqn:Hc; try done.
    by destruct (Hnot elems).
Qed.

Lemma validation_rejects_malformed_answer_witness :
  validateConceptsResponse (JString (js "I cannot help with that.")) =
  ([], inl (ThrowError (js "Invalid response: not an object"))).
Proof.
  exact (validation_rejects_malformed_answer (JString (js "I cannot help with that."))
           ltac:(intros elems; vm_compute; discriminate)).
Defined.

Lemma conceptOf_conceptValue c : conceptOf (conceptValue c) = Some c.
Proof. destruct c as [t x l [q|]]; reflexivity. Qed.

Lemma validateElement_conceptValue i c out :
  validateElement i (conceptValue c) out = (out.1, out.2 ++ [c]).
Proof. destruct c as [t x l [q|]]; reflexivity. Qed.

Lemma validateLoop_conceptValue i concepts out :
  validateLoop i (conceptValue <$> concepts) out = (out.1, out.2 ++ concepts).
Proof.
  revert i out. induction concepts as [|c rest IH]; intros i out.
  - simpl. rewrite app_nil_r. by destruct out.
  - rewrite fmap_cons. simpl. rewrite validateElement_conceptValue, IH. simpl.
    by rewrite <- app_assoc.
Qed.

(** Validation accepts its own output: the concepts it returns, listed
    again as an answer, come back unchanged and without a warning. *)
Theorem validation_accepts_its_output (concepts : list ExpandedConcept) :
  validateConceptsResponse (answerOf concepts) = ([], inr concepts).
Proof.
  unfold validateConceptsResponse, answerOf, prop. simpl.
  by rewrite validateLoop_conceptValue.
Qed.

(** *** Truncation *)

Lemma lastIndexOfFrom_spec c s i found :
  (lastIndexOfFrom c s i found = found ∧ Forall (fun x => x ≠ c) s) ∨
  (∃ k : nat, lastIndexOfFrom c s i found = i + Z.of_nat k ∧ s !! k = Some c ∧
              ∀ j, (k < j)%nat → s !! j ≠ Some c).
Proof.
  revert i found. induction s as [|x rest IH]; intros i found; simpl; [by left|].
  destruct (IH (i + 1) (if (x =? c)%N then i else found)) as [[Hr Hall]|(k & Hr & Hk & Hlast)].
  - destruct (N.eqb_spec x c) as [->|Hne].
    + right. exists 0%nat. rewrite Hr. split; [lia|]. split; [done|].
      intros [|j] Hj; [lia|]. simpl. intros Hc.
      by apply (proj1 (Forall_forall _ _) Hall c (list_elem_of_lookup_2 _ _ _ Hc)).
    + left. split; [done|]. by constructor.
  - right. exists (S k). rewrite Hr. split; [lia|]. split; [done|].
    intros [|j] Hj; [lia|]. simpl. apply Hlast. lia.
Qed.

(** [lastIndexOf]: -1 when the character does not occur, otherwise the
    index of its last occurrence. *)
Lemma lastIndexOf_spec c s :
  (lastIndexOf c s = -1 ∧ Forall (fun x => x ≠ c) s) ∨
  (∃ k : nat, lastIndexOf c s = Z.of_nat k ∧ s !! k = Some c ∧
              ∀ j, (k < j)%nat → s !! j ≠ Some c).
Proof.
  unfold lastIndexOf. destruct (lastIndexOfFrom_spec c s 0 (-1)) as [?|(k & Hr & ?)]; [by left|].
  right. exists k. by rewrite Hr.
Qed.

(** A text that does not fit is cut at a sentence end when there is one
    in the last 30 per cent of the allowed length: the part kept then ends
    with the last such full stop and [ [...]] follows; otherwise the first
    [maxChars] characters are kept, none of the last 30 per cent of which
    is a full stop, and [...] follows.  This holds for every bound at which
    the comparison of doubles agrees with the exact one, as it does at the
    bound 2000 of the prompt. *)
Theorem truncation_prefers_sentence_end (exceeds70 : Z → Z → bool) (content : jsstring)
    (maxChars : Z) :
  (∀ lastPeriod, exceeds70 lastPeriod maxChars = exceeds70Exact lastPeriod maxChars) →
  0 ≤ maxChars → maxChars < Z.of_nat (length content) →
  (∃ kept,
     truncateContent exceeds70 content maxChars = kept ++ js " [...]" ∧
     kept `prefix_of` content ∧ last kept = Some 46%N ∧
     7 * maxChars < 10 * (Z.of_nat (length kept) - 1) ∧
     Z.of_nat (length kept) ≤ maxChars ∧
     ∀ i : nat, (length kept ≤ i)%nat → Z.of_nat i < maxChars → content !! i ≠ Some 46%N) ∨
  (truncateContent exceeds70 content maxChars =
     take (Z.to_nat maxChars) content ++ js "..." ∧
   ∀ i : nat, 7 * maxChars < 10 * Z.of_nat i → Z.of_nat i < maxChars →
              content !! i ≠ Some 46%N).
Proof.
  intros Hexact Hbound Hlong. unfold truncateContent, substring0. rewrite Hexact.
  unfold exceeds70Exact.
  destruct (Z.leb_spec (Z.of_nat (length content)) maxChars); [lia|].
  set (truncated := take (Z.to_nat maxChars) content).
  assert (length truncated = Z.to_nat maxChars) as Hlen
    by (subst truncated; rewrite length_take; lia).
  assert (∀ i : nat, Z.of_nat i < maxChars → truncated !! i = content !! i) as Hsame.
  { intros i Hi. subst truncated. apply lookup_take_lt. lia. }
  destruct (lastIndexOf_spec 46%N truncated) as [[Hr Hall]|(k & Hr & Hk & Hlast)]; rewrite Hr.
  - right. destruct (Z.ltb_spec (7 * maxChars) (10 * -1)); [lia|]. split; [done|].
    intros i _ Hi Hc. rewrite <- Hsame in Hc by done.
    by apply (proj1 (Forall_forall _ _) Hall 46%N (list_elem_of_lookup_2 _ _ _ Hc)).
  - assert (k < length truncated)%nat as Hklen by (by eapply lookup_lt_Some).
    destruct (Z.ltb_spec (7 * maxChars) (10 * Z.of_nat k)).
    + left. exists (take (Z.to_nat (Z.of_nat k + 1)) truncated).
      assert (Z.to_nat (Z.of_nat k + 1) = S k) as -> by lia.
      split; [done|]. split; [etrans; apply prefix_take|]. split; [|split; [|split]].
      * rewrite last_lookup, length_take, Nat.min_l by lia. simpl.
        by rewrite lookup_take_lt by lia.
      * rewrite length_take. lia.
      * rewrite length_take. lia.
      * intros i Hi Hmax. rewrite length_take in Hi. rewrite <- Hsame by done.
        apply Hlast. lia.
    + right. split; [done|]. intros i Hi Hmax. rewrite <- Hsame by done.
      apply Hlast. lia.
Qed.

Lemma truncation_prefers_sentence_end_witness :
  (∃ kept,
     truncateContent exceeds70Exact (js "One. Two. Three") 10 = kept ++ js " [...]" ∧
     kept `prefix_of` js "One. Two. Three" ∧ last kept = Some 46%N ∧
     7 * 10 < 10 * (Z.of_nat (length kept) - 1) ∧
     Z.of_nat (length kept) ≤ 10 ∧
     ∀ i : nat, (length kept ≤ i)%nat → Z.of_nat i < 10 →
                js "One. Two. Three" !! i ≠ Some 46%N) ∨
  (truncateContent exceeds70Exact (js "One. Two. Three") 10 =
     take (Z.to_nat 10) (js "One. Two. Three") ++ js "..." ∧
   ∀ i : nat, 7 * 10 < 10 * Z.of_nat i → Z.of_nat i < 10 →
              js "One. Two. Three" !! i ≠ Some 46%N).
Proof.
  exact (truncation_prefers_sentence_end exceeds70Exact (js "One. Two. Three") 10
           (fun _ => eq_refl) ltac:(lia) ltac:(vm_compute; reflexivity)).
Defined.

(** However the comparison with 70 per cent falls, the truncated text is
    at most 6 characters longer than the shorter of the content and the
    bound; so the prompt is at most 2006 characters longer than its fixed
    head and tail, whatever the length of the content. *)
Theorem prompt_length_is_bounded (exceeds70 : Z → Z → bool) (content : jsstring)
    (maxChars : Z) :
  0 ≤ maxChars →
  Z.of_nat (length (truncateContent exceeds70 content maxChars)) ≤
    Z.min (Z.of_nat (length content)) maxChars + 6 ∧
  ∀ title url conceptCount,
    let source :=
      {| source_title := title; source_url := url; source_content := content |} in
    (length (buildExpandPrompt exceeds70 source conceptCount) ≤
     length (promptHead source) + 2006 + length (promptTail conceptCount))%nat.
Proof.
  assert (∀ m, 0 ≤ m →
               Z.of_nat (length (truncateContent exceeds70 content m)) ≤
               Z.min (Z.of_nat (length content)) m + 6) as Hcut.
  { intros m Hm. unfold truncateContent, substring0.
    destruct (Z.leb_spec (Z.of_nat (length content)) m); [lia|].
    destruct (exceeds70 _ m); rewrite length_app, ?length_take; simpl; lia. }
  intros Hbound. split; [by apply Hcut|].
  intros title url conceptCount source. unfold buildExpandPrompt.
  rewrite !length_app. specialize (Hcut 2000 ltac:(lia)). simpl in *. lia.
Qed.

Lemma prompt_length_is_bounded_witness :
  Z.of_nat (length (truncateContent exceeds70Exact (js "One. Two. Three") 10)) ≤ 16.
Proof.
  exact (proj1 (prompt_length_is_bounded exceeds70Exact (js "One. Two. Three") 10
                  ltac:(lia))).
Defined.

(** *** The agent *)

Section Agent.

Variable exceeds70 : Z → Z → bool.
Variable exaApiKey : option jsstring.
Variable exaAnswer : jsstring → Thrown + JSValue.
Variable typeErrorMessage : jsstring.

Local Abbreviation agent := (expandSourceAgent exceeds70 exaApiKey exaAnswer typeErrorMessage).

Local Ltac run_agent :=
  unfold expandSourceAgent, exaClient, tryCatch, callAnswer, readProp, lift;
  unfold mbind, M_bind, mret, M_ret, throw.

Lemma incomplete_guard source :
  ¬ complete source →
  bool_decide (source_title source = []) || bool_decide (source_url source = [])
    || bool_decide (source_content source = []) = true.
Proof.
  intros Hnot. unfold complete in Hnot.
  destruct (decide (source_title source = [])) as [->|?]; [done|].
  destruct (decide (source_url source = [])) as [->|?]; [by rewrite orb_true_r|].
  destruct (decide (source_content source = [])) as [->|?]; [by rewrite orb_true_r|].
  by destruct Hnot.
Qed.

Lemma complete_guard source :
  complete source →
  bool_decide (source_title source = []) || bool_decide (source_url source = [])
    || bool_decide (source_content source = []) = false.
Proof. intros (? & ? & ?). by rewrite !bool_decide_eq_false_2. Qed.

(** When the key is missing or the source is incomplete, the agent throws
    without calling the collaborator. *)
Lemma agent_refuses source level w :
  configured exaApiKey = false ∨ ¬ complete source →
  let r := agent source level w in
  exaCalls r.1 = exaCalls w ∧
  r.2 = inl (ThrowError (if configured exaApiKey
                         then js "Source must have title, url, and content"
                         else js "EXA_API_KEY not configured")).
Proof.
  intros Hguard. run_agent.
  destruct (configured exaApiKey) eqn:Hkey; simpl; [|done].
  destruct Hguard as [|Hnot]; [done|]. by rewrite (incomplete_guard _ Hnot).
Qed.

(** A run that gets past the two guards: one call of the collaborator,
    with the prompt for the source and the level, and then either the
    validated concepts or the failure wrapped in a new error, each with its
    last console line. *)
Lemma agent_past_guards source level w :
  configured exaApiKey = true → complete source →
  let prompt := promptFor exceeds70 source level in
  let outcome : Thrown + list ExpandedConcept :=
    match exaAnswer prompt with
    | inl e => inl e
    | inr response =>
        match getProp response (js "answer") with
        | None => inl (ThrowError typeErrorMessage)
        | Some answer => (validateConceptsResponse answer).2
        end
    end in
  let r := agent source level w in
  exaCalls r.1 = exaCalls w ++ [prompt] ∧
  match outcome with
  | inl e =>
      r.2 = inl (ThrowError (js "Failed to extract concepts: " ++ errorMsgOf e)) ∧
      last (console r.1) =
        Some (Console.Error, js "[ExpandSourceAgent] Extraction failed: " ++ errorMsgOf e)
  | inr concepts =>
      r.2 = inr concepts ∧
      last (console r.1) =
        Some (Console.Log,
              js "[ExpandSourceAgent] Successfully extracted "
                ++ showZ (Z.of_nat (length concepts)) ++ js " concepts")
  end.
Proof.
  intros Hkey Hcomplete prompt. run_agent. rewrite Hkey. simpl.
  rewrite (complete_guard _ Hcomplete). simpl. fold (promptFor exceeds70 source level).
  fold prompt. destruct (exaAnswer prompt) as [e|response]; simpl.
  { split; [done|]. split; [done|]. by rewrite last_snoc. }
  destruct (getProp response (js "answer")) as [answer|]; simpl.
  2: { split; [done|]. split; [done|]. by rewrite last_snoc. }
  destruct (validateConceptsResponse answer) as [lines [e|concepts]]; simpl;
    (split; [done|]); (split; [done|]); by rewrite last_snoc.
Qed.

(** Whatever it is given, the agent calls the collaborator at most once. *)
Lemma agent_calls_at_most_once source level w :
  exaCalls (agent source level w).1 = exaCalls w ∨
  exaCalls (agent source level w).1 = exaCalls w ++ [promptFor exceeds70 source level].
Proof.
  destruct (configured exaApiKey) eqn:Hkey.
  - destruct (decide (complete source)) as [Hc|Hc].
    + right. apply (agent_past_guards source level w Hkey Hc).
    + left. apply (agent_refuses source level w (or_intror Hc)).
  - left. apply (agent_refuses source level w (or_introl Hkey)).
Qed.

(** The agent checks the key and the source before it calls the
    collaborator: without a key it throws [EXA_API_KEY not configured], and
    with a key but an empty title, url or content it throws [Source must
    have title, url, and content]; in both cases no call has been made and
    only the two opening lines have been logged.  No run ends with [Exa
    client not initialized]: the client exists whenever the key does. *)
Theorem agent_guards_come_before_the_call (source : SourceInput)
    (level : option DensityLevel) (w : World) :
  let r := agent source level w in
  let opening :=
    [(Console.Log, js "[ExpandSourceAgent] Expanding source: " ++ source_title source);
     (Console.Log,
      js "[ExpandSourceAgent] Density level: " ++ levelName (default DEFAULT_DENSITY level))] in
  (configured exaApiKey = false →
   r = ({| console := console w ++ opening; exaCalls := exaCalls w |},
        inl (ThrowError (js "EXA_API_KEY not configured")))) ∧
  (configured exaApiKey = true → ¬ complete source →
   r = ({| console := console w ++ opening; exaCalls := exaCalls w |},
        inl (ThrowError (js "Source must have title, url, and content")))) ∧
  r.2 ≠ inl (ThrowError (js "Exa client not initialized")).
Proof.
  intros r opening. split; [|split].
  - intros Hkey. subst r. run_agent. rewrite Hkey. simpl. by rewrite <- app_assoc.
  - intros Hkey Hnot. subst r. run_agent. rewrite Hkey. simpl.
    rewrite (incomplete_guard _ Hnot). by rewrite <- app_assoc.
  - destruct (configured exaApiKey) eqn:Hkey.
    + destruct (decide (complete source)) as [Hc|Hc].
      * destruct (agent_past_guards source level w Hkey Hc) as [_ Hout].
        fold r in Hout. cbv zeta in Hout.
        destruct (match exaAnswer _ with inl e => _ | inr response => _ end)
          as [e|concepts]; destruct Hout as [-> _]; [|done].
        intros [= Heq]; vm_compute in Heq; discriminate.
      * destruct (agent_refuses source level w (or_intror Hc)) as [_ Hout].
        fold r in Hout. rewrite Hout, Hkey. intros [= Heq]; vm_compute in Heq; discriminate.
    + destruct (agent_refuses source level w (or_introl Hkey)) as [_ Hout].
      fold r in Hout. rewrite Hout, Hkey. intros [= Heq]; vm_compute in Heq; discriminate.
Qed.

(** When the collaborator answers with an object whose [concepts] is an
    array, the agent returns what each element yields taken alone, in
    order, after one call with the prompt: as many concepts as the answer
    has valid elements, also when that is more than the number the prompt
    asks for. *)
Theorem agent_returns_every_valid_concept (source : SourceInput)
    (level : option DensityLevel) (w : World) (response answer : JSValue)
    (elems : list JSValue) :
  configured exaApiKey = true → complete source →
  exaAnswer (promptFor exceeds70 source level) = inr response →
  getProp response (js "answer") = Some answer →
  prop answer (js "concepts") = JArray elems →
  let r := agent source level w in
  r.2 = inr (omap conceptOf elems) ∧
  exaCalls r.1 = exaCalls w ++ [promptFor exceeds70 source level].
Proof.
  intros Hkey Hcomplete Hexa Hanswer Hconcepts r.
  destruct (agent_past_guards source level w Hkey Hcomplete) as [Hcalls Hout].
  fold r in Hcalls, Hout. cbv zeta in Hcalls, Hout. rewrite Hexa, Hanswer in Hout.
  split; [|done].
  assert ((validateConceptsResponse answer).2 = inr (omap conceptOf elems)) as Hv.
  { unfold validateConceptsResponse.
    destruct answer as [| |b|q|s|l|fields]; try done.
    unfold prop in *; simpl in *. rewrite Hconcepts. simpl.
    by rewrite validateLoop_elementwise. }
  rewrite Hv in Hout. by destruct Hout.
Qed.

(** Past the guards, the collaborator is called exactly once, and the
    agent throws exactly when something goes wrong after that: the call is
    rejected, the response has no answer to read, or the validation
    throws.  What it throws is then an [Error] whose message is [Failed to
    extract concepts: ] followed by the message of that cause ([Unknown
    error] for a cause that is not an [Error]), and the last console line
    reports the same message as an error. *)
Theorem agent_failures_are_wrapped (source : SourceInput) (level : option DensityLevel)
    (w : World) :
  configured exaApiKey = true → complete source →
  let r := agent source level w in
  let prompt := promptFor exceeds70 source level in
  exaCalls r.1 = exaCalls w ++ [prompt] ∧
  (∀ cause,
     causeOfFailure exaAnswer typeErrorMessage prompt = Some cause →
     r.2 = inl (ThrowError (js "Failed to extract concepts: " ++ causeMessage cause)) ∧
     last (console r.1) =
       Some (Console.Error,
             js "[ExpandSourceAgent] Extraction failed: " ++ causeMessage cause)) ∧
  (∀ e, r.2 = inl e →
        ∃ cause,
          causeOfFailure exaAnswer typeErrorMessage prompt = Some cause ∧
          e = ThrowError (js "Failed to extract concepts: " ++ causeMessage cause) ∧
          last (console r.1) =
            Some (Console.Error,
                  js "[ExpandSourceAgent] Extraction failed: " ++ causeMessage cause)).
Proof.
  intros Hkey Hcomplete r prompt.
  destruct (agent_past_guards source level w Hkey Hcomplete) as [Hcalls Hout].
  fold r in Hcalls, Hout. cbv zeta in Hcalls, Hout. fold prompt in Hcalls, Hout.
  split; [done|].
  assert (match causeOfFailure exaAnswer typeErrorMessage prompt with
          | Some cause =>
              r.2 = inl (ThrowError (js "Failed to extract concepts: " ++ causeMessage cause)) ∧
              last (console r.1) =
                Some (Console.Error,
                      js "[ExpandSourceAgent] Extraction failed: " ++ causeMessage cause)
          | None => ∃ concepts, r.2 = inr concepts
          end) as Hcause.
  { unfold causeOfFailure. destruct (exaAnswer prompt) as [rejection|response].
    { by destruct rejection. }
    destruct response as [| |b|q|s|l|fields]; try done;
      cbv [prop getProp default from_option id] in Hout |- *;
      match goal with |- context [validateConceptsResponse ?a] =>
        destruct (validateConceptsResponse a) as [lines [invalid|concepts]] end;
      cbn [snd] in Hout; [by destruct invalid|destruct Hout as [Hr _]; by eexists]. }
  split.
  - intros cause Hc. by rewrite Hc in Hcause.
  - intros e He. destruct (causeOfFailure exaAnswer typeErrorMessage prompt) as [cause|].
    + destruct Hcause as [Hr Hlast]. exists cause. split; [done|]. split; [|done].
      rewrite Hr in He. by injection He as <-.
    + destruct Hcause as [concepts Hr]. by rewrite Hr in He.
Qed.

End Agent.

Lemma agent_guards_come_before_the_call_witness :
  (expandSourceAgent exceeds70Exact None generous (js "TypeError") asdSource (Some Low)
     quiet).2 = inl (ThrowError (js "EXA_API_KEY not configured")).
Proof.
  exact (f_equal snd
           (proj1 (agent_guards_come_before_the_call exceeds70Exact None generous
                     (js "TypeError") asdSource (Some Low) quiet) eq_refl)).
Defined.

Lemma agent_returns_every_valid_concept_witness :
  conceptsPerSource (secondarySources (getDensityConfig (Some Low))) = 2 ∧
  (expandSourceAgent exceeds70Exact (Some (js "key")) generous (js "TypeError")
     asdSource (Some Low) quiet).2 = inr fiveConcepts.
Proof.
  split; [reflexivity|].
  exact (proj1 (agent_returns_every_valid_concept exceeds70Exact (Some (js "key")) generous
                  (js "TypeError") asdSource (Some Low) quiet _ _
                  (conceptValue <$> fiveConcepts)
                  eq_refl ltac:(vm_compute; repeat split; congruence)
                  eq_refl eq_refl eq_refl)).
Defined.

Lemma agent_failures_are_wrapped_witness :
  (expandSourceAgent exceeds70Exact (Some (js "key")) garbled (js "TypeError")
     asdSource None quiet).2 =
  inl (ThrowError (js "Failed to extract concepts: "
                     ++ js "Invalid response: not an object")).
Proof.
  exact (proj1 (proj1 (proj2 (agent_failures_are_wrapped exceeds70Exact (Some (js "key"))
                                garbled (js "TypeError") asdSource None quiet
                                eq_refl ltac:(vm_compute; repeat split; congruence)))
                  (ThrowError (js "Invalid response: not an object")) eq_refl)).
Defined.

End ExpandLaws.

(** ** Further properties of the route *)

Module RouteLaws.
Import Js Density Eff Expand Route ExpandNotions RouteNotions RouteSpec ExpandLaws.

Lemma usable_check v :
  negb (truthy v) || negb (JSType_eqb (typeof v) TString) = false ↔ usable v.
Proof.
  unfold usable. split.
  - destruct v as [| |b|q|s|l|fields]; simpl; rewrite ?orb_true_r; try done.
    intros Hs. exists s. split; [done|]. intros ->. done.
  - intros (s & -> & Hs). simpl. by rewrite bool_decide_eq_false_2.
Qed.

Lemma unusable_check v :
  ¬ usable v → negb (truthy v) || negb (JSType_eqb (typeof v) TString) = true.
Proof.
  intros Hnot. destruct (negb (truthy v) || negb (JSType_eqb (typeof v) TString)) eqn:Hc;
    [done|]. by apply usable_check in Hc.
Qed.

Section Handler.

Variable exceeds70 : Z → Z → bool.
Variable exaApiKey : option jsstring.
Variable exaAnswer : jsstring → Thrown + JSValue.
Variable typeErrorMessage : jsstring.

Local Abbreviation handle := (handleExpandSource exceeds70 exaApiKey exaAnswer typeErrorMessage).
Local Abbreviation agent := (expandSourceAgent exceeds70 exaApiKey exaAnswer typeErrorMessage).

Local Ltac run_handler :=
  unfold handleExpandSource, tryCatch, readProp;
  unfold mbind, M_bind, mret, M_ret, throw.

Lemma getProp_densityLevel reqBody v :
  getProp reqBody (js "title") = Some v →
  getProp reqBody (js "densityLevel") = Some (prop reqBody (js "densityLevel")).
Proof. unfold prop. by destruct reqBody. Qed.

(** What the handler does with a request that passes its checks: two
    lines, the agent, and then a 200 or a 500 with one more line. *)
Lemma handle_wellFormed reqBody title url content requestStart finish w :
  wellFormed reqBody title url content →
  handle reqBody requestStart finish w =
  let level := levelOf reqBody in
  let latencyMs := finish - requestStart in
  let w1 :=
    {| console :=
         (console w
            ++ [(Console.Log, js "[ExpandSourceRoute] Processing request for source: " ++ title)])
           ++ [(Console.Log, js "[ExpandSourceRoute] Density level: " ++ levelName level)];
       exaCalls := exaCalls w |} in
  match agent (sourceOf title url content) (Some level) w1 with
  | (w2, inl e) =>
      ({| console :=
            console w2
              ++ [(Console.Error,
                   js "[ExpandSourceRoute] Error after " ++ showZ latencyMs ++ js "ms: "
                     ++ errorMsgOf e)];
          exaCalls := exaCalls w2 |},
       inr {| statusCode := 500; body := failureBody (errorMsgOf e) latencyMs |})
  | (w2, inr concepts) =>
      ({| console :=
            console w2
              ++ [(Console.Log,
                   js "[ExpandSourceRoute] Successfully extracted "
                     ++ showZ (Z.of_nat (length concepts)) ++ js " concepts in "
                     ++ showZ latencyMs ++ js "ms")];
          exaCalls := exaCalls w2 |},
       inr {| statusCode := 200;
              body := successBody concepts latencyMs level title url |})
  end.
Proof.
  intros (Ht & Htne & Hu & Hune & Hc & Hcne). run_handler.
  rewrite Ht, Hu, Hc, !passes_string_check by done.
  rewrite bool_decide_eq_false_2 by (by destruct content).
  rewrite (getProp_densityLevel _ _ Ht). cbv zeta. unfold levelOf, sourceOf. cbn [stringOf].
  unfold say at 1 2. cbn [console exaCalls].
  match goal with |- context [expandSourceAgent ?a ?b ?c ?d ?e ?f ?g] =>
    destruct (expandSourceAgent a b c d e f g) as [w2 [e'|concepts]] end; reflexivity.
Qed.

Lemma getProp_prop reqBody k v k' :
  getProp reqBody k = Some v → getProp reqBody k' = Some (prop reqBody k').
Proof. unfold prop. by destruct reqBody. Qed.

(** The three ways a request can go: it passes the checks, or it is
    refused with a 400 and nothing else happens, or reading its first
    field throws and the [catch] answers 500. *)
Lemma handle_cases reqBody requestStart finish w :
  (∃ title url content, wellFormed reqBody title url content) ∨
  (∃ refusal, handle reqBody requestStart finish w =
              (w, inr {| statusCode := 400; body := refusal |})) ∨
  (getProp reqBody (js "title") = None ∧
   handle reqBody requestStart finish w =
   ({| console :=
         console w
           ++ [(Console.Error,
                js "[ExpandSourceRoute] Error after " ++ showZ (finish - requestStart)
                  ++ js "ms: " ++ typeErrorMessage)];
       exaCalls := exaCalls w |},
    inr {| statusCode := 500;
           body := failureBody typeErrorMessage (finish - requestStart) |})).
Proof.
  destruct (getProp reqBody (js "title")) as [b_title|] eqn:Ht.
  2: { right. right. split; [done|]. run_handler. by rewrite Ht. }
  pose proof (getProp_prop _ _ _ (js "url") Ht) as Hu.
  pose proof (getProp_prop _ _ _ (js "content") Ht) as Hc.
  destruct (negb (truthy b_title) || negb (JSType_eqb (typeof b_title) TString)) eqn:Ct.
  { right. left. eexists. run_handler. by rewrite Ht, Ct. }
  destruct (negb (truthy (prop reqBody (js "url")))
            || negb (JSType_eqb (typeof (prop reqBody (js "url"))) TString)) eqn:Cu.
  { right. left. eexists. run_handler. by rewrite Ht, Ct, Hu, Cu. }
  destruct (negb (truthy (prop reqBody (js "content")))
            || negb (JSType_eqb (typeof (prop reqBody (js "content"))) TString)) eqn:Cc.
  { right. left. eexists. run_handler. by rewrite Ht, Ct, Hu, Cu, Hc, Cc. }
  left. apply usable_check in Ct as (title & -> & ?).
  apply usable_check in Cu as (url & Hurl & ?).
  apply usable_check in Cc as (content & Hcontent & ?).
  exists title, url, content. unfold wellFormed. by rewrite Hu, Hc, Hurl, Hcontent.
Qed.

(** The agent returns concepts only past its guards. *)
Lemma agent_returns_past_guards source level w w2 concepts :
  agent source level w = (w2, inr concepts) →
  exaCalls w2 = exaCalls w ++ [promptFor exceeds70 source level].
Proof.
  intros Hrun.
  destruct (configured exaApiKey) eqn:Hkey.
  - destruct (decide (complete source)) as [Hc|Hc].
    + pose proof (agent_past_guards exceeds70 exaApiKey exaAnswer typeErrorMessage
                    source level w Hkey Hc) as [Hcalls _].
      by rewrite Hrun in Hcalls.
    + pose proof (agent_refuses exceeds70 exaApiKey exaAnswer typeErrorMessage
                    source level w (or_intror Hc)) as [_ Hout].
      by rewrite Hrun in Hout.
  - pose proof (agent_refuses exceeds70 exaApiKey exaAnswer typeErrorMessage
                  source level w (or_introl Hkey)) as [_ Hout].
    by rewrite Hrun in Hout.
Qed.

(** The handler never lets an exception escape: every request, whatever
    its body and whatever the collaborator does, is answered with status
    200, 400 or 500.  A 400 leaves the world as it was: nothing logged, no
    collaborator call.  A 200 comes after exactly one collaborator call,
    and no request causes more than one. *)
Theorem handler_always_answers (reqBody : JSValue) (requestStart finish : Z) (w : World) :
  let r := handle reqBody requestStart finish w in
  ∃ response,
    r.2 = inr response ∧
    (statusCode response = 200 ∨ statusCode response = 400 ∨ statusCode response = 500) ∧
    (statusCode response = 400 → r.1 = w) ∧
    (statusCode response = 200 → ∃ prompt, exaCalls r.1 = exaCalls w ++ [prompt]) ∧
    (exaCalls r.1 = exaCalls w ∨ ∃ prompt, exaCalls r.1 = exaCalls w ++ [prompt]).
Proof.
  intros r. subst r.
  destruct (handle_cases reqBody requestStart finish w)
    as [(title & url & content & Hwf)|[[refusal ->]|[_ ->]]].
  - rewrite (handle_wellFormed _ _ _ _ _ _ _ Hwf). cbv zeta.
    match goal with |- context [expandSourceAgent ?a ?b ?c ?d ?e ?f ?g] =>
      pose proof (agent_calls_at_most_once a b c d e f g) as Honce;
      pose proof (agent_returns_past_guards e f g) as Hpast;
      destruct (expandSourceAgent a b c d e f g) as [w2 [e'|concepts]] end;
      cbn [fst snd console exaCalls] in *; eexists; (split; [done|]); cbn [statusCode].
    + split; [by right; right|]. split; [done|]. split; [done|].
      destruct Honce as [->| ->]; [by left|right; by eexists].
    + split; [by left|]. split; [done|].
      rewrite (Hpast _ _ eq_refl). split; [by eexists|right; by eexists].
  - eexists. split; [done|]. cbn [statusCode fst snd].
    split; [by right; left|]. split; [done|]. split; [done|by left].
  - eexists. split; [done|]. cbn [statusCode fst snd exaCalls].
    split; [by right; right|]. split; [done|]. split; [done|by left].
Qed.

(** The required fields are checked in the order title, url, content, and
    each must be a non-empty string: the first one that is not decides the
    400 answer, whatever the later fields hold, and nothing else happens. *)
Theorem required_fields_are_checked_in_order (fields : list (jsstring * JSValue))
    (requestStart finish : Z) (w : World) :
  let reqBody := JObject fields in
  let refused refusal :=
    handle reqBody requestStart finish w =
    (w, inr {| statusCode := 400; body := refusal |}) in
  (¬ usable (lookupField (js "title") fields) → refused missingTitleBody) ∧
  (usable (lookupField (js "title") fields) →
   ¬ usable (lookupField (js "url") fields) → refused missingUrlBody) ∧
  (usable (lookupField (js "title") fields) →
   usable (lookupField (js "url") fields) →
   ¬ usable (lookupField (js "content") fields) → refused missingContentBody).
Proof.
  intros reqBody refused. subst refused reqBody. cbv beta.
  split; [|split].
  - intros Ht. run_handler. cbn [getProp]. by rewrite (unusable_check _ Ht).
  - intros Ht Hu. run_handler. cbn [getProp].
    by rewrite (proj2 (usable_check _) Ht), (unusable_check _ Hu).
  - intros Ht Hu Hc. run_handler. cbn [getProp].
    by rewrite (proj2 (usable_check _) Ht), (proj2 (usable_check _) Hu),
      (unusable_check _ Hc).
Qed.

(** A request without a body (undefined or null) is answered 500, not
    400: reading its title throws inside the [try], and the answer carries
    the message of that error; one error line is logged and the
    collaborator is not called. *)
Theorem missing_body_is_500 (reqBody : JSValue) (requestStart finish : Z) (w : World) :
  reqBody = JUndefined ∨ reqBody = JNull →
  handle reqBody requestStart finish w =
  ({| console :=
        console w
          ++ [(Console.Error,
               js "[ExpandSourceRoute] Error after " ++ showZ (finish - requestStart)
                 ++ js "ms: " ++ typeErrorMessage)];
      exaCalls := exaCalls w |},
   inr {| statusCode := 500;
          body := failureBody typeErrorMessage (finish - requestStart) |}).
Proof. by intros [-> | ->]. Qed.

(** Without an API key a request that passes the checks is answered 500
    with the message [EXA_API_KEY not configured], and the collaborator is
    not called. *)
Theorem unconfigured_key_is_500 (reqBody : JSValue) (title url content : jsstring)
    (requestStart finish : Z) (w : World) :
  wellFormed reqBody title url content →
  configured exaApiKey = false →
  let r := handle reqBody requestStart finish w in
  r.2 = inr {| statusCode := 500;
               body := failureBody (js "EXA_API_KEY not configured")
                         (finish - requestStart) |} ∧
  exaCalls r.1 = exaCalls w.
Proof.
  intros Hwf Hkey r. subst r. rewrite (handle_wellFormed _ _ _ _ _ _ _ Hwf). cbv zeta.
  match goal with |- context [expandSourceAgent ?a ?b ?c ?d ?e ?f ?g] =>
    pose proof (agent_refuses a b c d e f g (or_introl Hkey)) as [Hcalls Hout];
    destruct (expandSourceAgent a b c d e f g) as [w2 [e'|concepts]] end;
    cbn [fst snd console exaCalls] in *; rewrite Hkey in Hout; [|done].
  injection Hout as ->. done.
Qed.

(** When the collaborator's answer passes the validation, the handler
    answers 200 with the validated concepts, in order, and a [meta] that
    gives the latency, the level that was resolved and the title and url of
    the request; the last line logged gives the number of concepts and the
    latency, and the collaborator was called once. *)
Theorem handler_relays_the_concepts (reqBody : JSValue) (title url content : jsstring)
    (response answer : JSValue) (concepts : list ExpandedConcept)
    (requestStart finish : Z) (w : World) :
  wellFormed reqBody title url content →
  configured exaApiKey = true →
  let level := levelOf reqBody in
  let prompt := promptFor exceeds70 (sourceOf title url content) (Some level) in
  exaAnswer prompt = inr response →
  getProp response (js "answer") = Some answer →
  (validateConceptsResponse answer).2 = inr concepts →
  let r := handle reqBody requestStart finish w in
  r.2 = inr {| statusCode := 200;
               body := successBody concepts (finish - requestStart) level title url |} ∧
  exaCalls r.1 = exaCalls w ++ [prompt] ∧
  last (console r.1) =
    Some (Console.Log,
          js "[ExpandSourceRoute] Successfully extracted "
            ++ showZ (Z.of_nat (length concepts)) ++ js " concepts in "
            ++ showZ (finish - requestStart) ++ js "ms").
Proof.
  intros Hwf Hkey level prompt Hexa Hanswer Hvalid r. subst r.
  rewrite (handle_wellFormed _ _ _ _ _ _ _ Hwf). cbv zeta. fold level.
  assert (complete (sourceOf title url content)) as Hcomplete.
  { destruct Hwf as (_ & ? & _ & ? & _ & ?). by repeat split. }
  match goal with |- context [expandSourceAgent ?a ?b ?c ?d ?e ?f ?g] =>
    pose proof (agent_past_guards a b c d e f g Hkey Hcomplete) as [Hcalls Hout];
    destruct (expandSourceAgent a b c d e f g) as [w2 [e'|concepts']] end;
    cbv zeta in Hout; fold prompt in Hcalls, Hout; rewrite Hexa, Hanswer, Hvalid in Hout;
    cbn [fst snd console exaCalls] in *; destruct Hout as [Hout _]; [done|].
  injection Hout as ->. split; [done|]. split; [done|]. by rewrite last_snoc.
Qed.

(** With a key, a request that passes the checks is never refused: the
    collaborator is called exactly once, and the answer is either 200 with
    some concepts or 500 with a message that starts with [Failed to extract
    concepts: ], whatever went wrong in the collaborator, in its answer or
    in the validation. *)
Theorem checked_request_gets_200_or_wrapped_500 (reqBody : JSValue)
    (title url content : jsstring) (requestStart finish : Z) (w : World) :
  wellFormed reqBody title url content →
  configured exaApiKey = true →
  let level := levelOf reqBody in
  let r := handle reqBody requestStart finish w in
  exaCalls r.1 = exaCalls w ++ [promptFor exceeds70 (sourceOf title url content) (Some level)] ∧
  ((∃ concepts,
      r.2 = inr {| statusCode := 200;
                   body := successBody concepts (finish - requestStart) level title url |}) ∨
   (∃ msg,
      r.2 = inr {| statusCode := 500;
                   body := failureBody (js "Failed to extract concepts: " ++ msg)
                             (finish - requestStart) |})).
Proof.
  intros Hwf Hkey level r. subst r.
  rewrite (handle_wellFormed _ _ _ _ _ _ _ Hwf). cbv zeta. fold level.
  assert (complete (sourceOf title url content)) as Hcomplete.
  { destruct Hwf as (_ & ? & _ & ? & _ & ?). by repeat split. }
  match goal with |- context [expandSourceAgent ?a ?b ?c ?d ?e ?f ?g] =>
    pose proof (agent_past_guards a b c d e f g Hkey Hcomplete) as [Hcalls Hout];
    destruct (expandSourceAgent a b c d e f g) as [w2 [e'|concepts']] end;
    cbv zeta in Hout; cbn [fst snd console exaCalls] in *; (split; [done|]).
  - right.
    destruct (match exaAnswer _ with inl e => _ | inr response => _ end)
      as [e|concepts]; destruct Hout as [Hout _]; [|done].
    injection Hout as ->. by eexists.
  - left. by eexists.
Qed.

End Handler.


Lemma required_fields_are_checked_in_order_witness :
  handleExpandSource exceeds70Exact (Some (js "key")) generous (js "TypeError")
    numberedRequest 1000 1750 quiet =
  (quiet, inr {| statusCode := 400; body := missingTitleBody |}).
Proof.
  exact (proj1 (required_fields_are_checked_in_order exceeds70Exact (Some (js "key"))
                  generous (js "TypeError")
                  [(js "title", JNumber 7);
                   (js "url", JString (js "https://example.org/asd"));
                   (js "content", JString (js "Autism is a developmental condition."))]
                  1000 1750 quiet)
           ltac:(intros (s & Hs & _); vm_compute in Hs; discriminate)).
Defined.

Lemma missing_body_is_500_witness :
  (handleExpandSource exceeds70Exact (Some (js "key")) generous
     (js "Cannot read properties of undefined") JUndefined 1000 1750 quiet).2 =
  inr {| statusCode := 500;
         body := failureBody (js "Cannot read properties of undefined") 750 |}.
Proof.
  exact (f_equal snd
           (missing_body_is_500 exceeds70Exact (Some (js "key")) generous
              (js "Cannot read properties of undefined") JUndefined 1000 1750 quiet
              (or_introl eq_refl))).
Defined.

Lemma unconfigured_key_is_500_witness :
  (handleExpandSource exceeds70Exact None generous (js "TypeError")
     goodRequest 1000 1750 quiet).2 =
  inr {| statusCode := 500; body := failureBody (js "EXA_API_KEY not configured") 750 |}.
Proof.
  exact (proj1 (unconfigured_key_is_500 exceeds70Exact None generous (js "TypeError")
                  goodRequest _ _ _ 1000 1750 quiet
                  ltac:(vm_compute; repeat split; congruence) eq_refl)).
Defined.

Lemma handler_relays_the_concepts_witness :
  (handleExpandSource exceeds70Exact (Some (js "key")) generous (js "TypeError")
     goodRequest 1000 1750 quiet).2 =
  inr {| statusCode := 200;
         body := successBody fiveConcepts 750 Low
                   (js "What is Autism Spectrum Disorder (ASD)?")
                   (js "https://example.org/asd") |}.
Proof.
  exact (proj1 (handler_relays_the_concepts exceeds70Exact (Some (js "key")) generous
                  (js "TypeError") goodRequest _ _ _ _ _ fiveConcepts 1000 1750 quiet
                  ltac:(vm_compute; repeat split; congruence) eq_refl
                  eq_refl eq_refl ltac:(vm_compute; reflexivity))).
Defined.

Lemma checked_request_gets_200_or_wrapped_500_witness :
  exaCalls (handleExpandSource exceeds70Exact (Some (js "key")) garbled (js "TypeError")
              goodRequest 1000 1750 quiet).1 =
  [promptFor exceeds70Exact
     (sourceOf (js "What is Autism Spectrum Disorder (ASD)?")
        (js "https://example.org/asd") (js "Autism is a developmental condition."))
     (Some Low)].
Proof.
  exact (proj1 (checked_request_gets_200_or_wrapped_500 exceeds70Exact (Some (js "key"))
                  garbled (js "TypeError") goodRequest _ _ _ 1000 1750 quiet
                  ltac:(vm_compute; repeat split; congruence) eq_refl)).
Defined.

End RouteLaws.

(** ** The graph handed to the visualisation *)

Module GraphTransformSpec.
Import Js GraphTransform.

Lemma lookupField_setField k k' v (fields : list (jsstring * JSValue)) :
  lookupField k' (setField k v fields) =
  if bool_decide (k = k') then v else lookupField k' fields.
Proof.
  induction fields as [|[k0 v0] rest IH]; simpl.
  - by repeat case_bool_decide.
  - repeat (case_bool_decide; simpl; subst); try done; try congruence.
Qed.

Lemma hasField_setField k k' v (fields : list (jsstring * JSValue)) :
  hasField k' (setField k v fields) ↔ k' = k ∨ hasField k' fields.
Proof.
  unfold hasField. induction fields as [|[k0 v0] rest IH]; simpl.
  - rewrite list_elem_of_singleton, elem_of_nil. tauto.
  - case_bool_decide; subst; csimpl; rewrite !elem_of_cons.
    + tauto.
    + rewrite IH. tauto.
Qed.

Lemma setField_held k v (fields : list (jsstring * JSValue)) :
  hasField k fields → lookupField k fields = v → setField k v fields = fields.
Proof.
  unfold hasField. induction fields as [|[k0 v0] rest IH]; csimpl.
  - by intros ?%elem_of_nil.
  - rewrite elem_of_cons. case_bool_decide; subst.
    + by intros _ ->.
    + intros [?|Hin] Hv; [done|]. by rewrite IH.
Qed.

Lemma normalizeEdge_idemp edge : normalizeEdge (normalizeEdge edge) = normalizeEdge edge.
Proof.
  unfold normalizeEdge at 1.
  assert (lookupField (js "from") (normalizeEdge edge) = lookupField (js "from") edge) as ->.
  { unfold normalizeEdge. by rewrite !lookupField_setField. }
  assert (lookupField (js "to") (normalizeEdge edge) = lookupField (js "to") edge) as ->.
  { unfold normalizeEdge. by rewrite !lookupField_setField. }
  rewrite (setField_held (js "source")).
  - apply setField_held.
    + unfold normalizeEdge. apply hasField_setField. by left.
    + unfold normalizeEdge. by rewrite lookupField_setField.
  - unfold normalizeEdge. apply hasField_setField. right. apply hasField_setField. by left.
  - unfold normalizeEdge. by rewrite !lookupField_setField.
Qed.

(** The transformation hands the nodes on as they are and keeps the
    edges in number and order.  Every edge then holds its [from] under
    [source] and its [to] under [target], whatever it held there before,
    and every other field, [from] and [to] included, reads as it did.
    Transforming a transformed graph changes nothing. *)
Theorem transformResponseToGraph_normalises (evidence_graph : GraphData) :
  let graph := transformResponseToGraph evidence_graph in
  nodes graph = nodes evidence_graph ∧
  length (edges graph) = length (edges evidence_graph) ∧
  (∀ (i : nat) edge,
     edges evidence_graph !! i = Some edge →
     ∃ normalized,
       edges graph !! i = Some normalized ∧
       lookupField (js "source") normalized = lookupField (js "from") edge ∧
       lookupField (js "target") normalized = lookupField (js "to") edge ∧
       ∀ k, k ≠ js "source" → k ≠ js "target" →
            lookupField k normalized = lookupField k edge) ∧
  transformResponseToGraph graph = graph.
Proof.
  intros graph. subst graph. unfold transformResponseToGraph. cbn [nodes edges].
  split; [done|]. split; [by rewrite length_fmap|]. split.
  - intros i edge Hedge. exists (normalizeEdge edge).
    rewrite list_lookup_fmap, Hedge. split; [done|].
    unfold normalizeEdge. rewrite !lookupField_setField. split; [done|]. split; [done|].
    intros k Hs Ht. rewrite !lookupField_setField.
    by rewrite !bool_decide_eq_false_2 by done.
  - f_equal. rewrite <- list_fmap_compose. apply list_fmap_ext.
    intros i edge _. apply normalizeEdge_idemp.
Qed.

End GraphTransformSpec.

(** ** Expanding a source from the side bar *)

Module SidebarSpec.
Import Js Density Eff Expand Route ExpandNotions RouteNotions GraphTransform Sidebar.
Import RouteSpec ExpandLaws RouteLaws GraphTransformSpec.

Section Handler.

Variable sourceNode : DirectSourceNode.
Variable render : Render.
Variable run : Run.

Lemma newNodesFrom_spec i elems newNodes :
  newNodesFrom sourceNode render run i elems = Some newNodes →
  length newNodes = length elems ∧
  ∀ (j : nat) concept,
    elems !! j = Some concept →
    ∃ node, newNodes !! j = Some node ∧
            newNode sourceNode render run (i + j) concept = Some node.
Proof.
  revert i newNodes. induction elems as [|concept rest IH]; intros i newNodes; csimpl.
  - intros [= <-]. split; [done|]. intros j c Hc. by rewrite lookup_nil in Hc.
  - destruct (newNode sourceNode render run i concept) as [node|] eqn:Hnode; [|done]. csimpl.
    destruct (newNodesFrom sourceNode render run (S i) rest) as [nodes|] eqn:Hrest; [|done].
    csimpl. intros [= <-]. destruct (IH _ _ Hrest) as [Hlen Hnodes].
    split; [by rewrite <- Hlen|]. intros [|j] c Hc; simpl in *.
    + injection Hc as <-. exists node. by rewrite Nat.add_0_r.
    + destruct (Hnodes j c Hc) as (n & Hn & Hbuilt). exists n. split; [done|].
      by replace (i + S j)%nat with (S i + j)%nat by lia.
Qed.

Lemma caught_adds_nothing newNodes newEdges :
  AddNodesAndEdges newNodes newEdges ∉ caught run.
Proof.
  unfold caught. destruct (activeInCatch run).
  - rewrite list_elem_of_singleton. discriminate.
  - apply not_elem_of_nil.
Qed.

Lemma afterFetch_adds newNodes newEdges :
  AddNodesAndEdges newNodes newEdges ∈ afterFetch sourceNode render run →
  ∃ data elems,
    fetched run = Responded true (Some data) ∧
    prop data (js "concepts") = JArray elems ∧ elems ≠ [] ∧
    newNodesFrom sourceNode render run 0 elems = Some newNodes ∧
    newEdges = newEdge sourceNode <$> newNodes.
Proof.
  unfold afterFetch. destruct (fetched run) as [|ok payload]; [by intros ?%caught_adds_nothing|].
  destruct (negb (activeAfterFetch run)); [by intros ?%elem_of_nil|].
  destruct ok; simpl.
  2: { destruct (negb (activeAfterJson run)); [by intros ?%elem_of_nil|].
       rewrite list_elem_of_singleton. discriminate. }
  destruct payload as [data|]; [|by intros ?%caught_adds_nothing].
  destruct (negb (activeAfterJson run)); [by intros ?%elem_of_nil|].
  destruct (negb (truthy (prop data (js "concepts")))
            || isZero (lengthOf (prop data (js "concepts")))) eqn:Hempty.
  { rewrite list_elem_of_singleton. discriminate. }
  destruct (prop data (js "concepts")) as [| |b|q|s|elems|fields] eqn:Hconcepts;
    try by intros ?%caught_adds_nothing.
  destruct (newNodesFrom sourceNode render run 0 elems) as [nodes|] eqn:Hnodes;
    [|by intros ?%caught_adds_nothing].
  rewrite elem_of_cons, list_elem_of_singleton. intros [[= -> ->]|[=]].
  exists data, elems. split; [done|]. split; [done|]. split; [|done].
  intros ->. by vm_compute in Hempty.
Qed.

(** Whenever the handler hands nodes and edges to the graph, the response
    was [ok] and its [concepts] was a non-empty array; there is one new
    node and one new edge for each concept, in order.  The node of the
    concept at index [i] has the id [secondary_] followed by the value of
    the call of [uuidv4()] numbered [i], takes its label from the title of
    the concept and names the source as its parent; its edge goes from the
    source to the node with relation [underpins], and holds the same ends
    under [source] and [target], so that normalising it changes nothing.
    The handler then sets [hasExpandedSource]. *)
Theorem expansion_adds_one_node_and_edge_per_concept
    (newNodes newEdges : list (list (jsstring * JSValue))) :
  AddNodesAndEdges newNodes newEdges ∈ handleExpandSource sourceNode render run →
  SetHasExpandedSource true ∈ handleExpandSource sourceNode render run ∧
  ∃ data elems,
    fetched run = Responded true (Some data) ∧
    prop data (js "concepts") = JArray elems ∧ elems ≠ [] ∧
    length newNodes = length elems ∧ length newEdges = length elems ∧
    ∀ (i : nat) concept,
      elems !! i = Some concept →
      ∃ node edge,
        newNodes !! i = Some node ∧ newEdges !! i = Some edge ∧
        lookupField (js "id") node = JString (js "secondary_" ++ uuidv4 run i) ∧
        lookupField (js "type") node = JString (js "secondary_source") ∧
        lookupField (js "label") node = prop concept (js "title") ∧
        prop (lookupField (js "metadata") node) (js "parentSourceId") =
          JString (id sourceNode) ∧
        lookupField (js "from") edge = JString (id sourceNode) ∧
        lookupField (js "to") edge = lookupField (js "id") node ∧
        lookupField (js "relation") edge = JString (js "underpins") ∧
        normalizeEdge edge = edge.
Proof.
  unfold handleExpandSource.
  destruct (isExpandingSource render || hasExpandedSource render); [by intros ?%elem_of_nil|].
  cbv zeta.
  destruct (negb (given (metadata_url sourceNode))
            || negb (given (metadata_full_text sourceNode))).
  { rewrite list_elem_of_singleton. discriminate. }
  intros Hin.
  assert (AddNodesAndEdges newNodes newEdges ∈ afterFetch sourceNode render run) as Hafter.
  { rewrite !elem_of_app, !elem_of_cons in Hin.
    destruct Hin as [[|[|[|?%elem_of_nil]]]|[|[|?%elem_of_nil]]]; done. }
  pose proof Hafter as (data & elems & Hfetched & Hconcepts & Hne & Hnodes & ->)%afterFetch_adds.
  split.
  { rewrite !elem_of_app. right. left. unfold afterFetch.
    rewrite Hfetched in *. unfold afterFetch in Hafter. rewrite Hfetched in Hafter.
    destruct (negb (activeAfterFetch run)); [by apply elem_of_nil in Hafter|]. simpl in *.
    destruct (negb (activeAfterJson run)); [by apply elem_of_nil in Hafter|].
    rewrite Hconcepts in *.
    destruct (negb (truthy (JArray elems)) || isZero (lengthOf (JArray elems))).
    { by apply list_elem_of_singleton in Hafter. }
    rewrite Hnodes. apply elem_of_cons. right. by apply list_elem_of_singleton. }
  exists data, elems. destruct (newNodesFrom_spec _ _ _ Hnodes) as [Hlen Hbuilt].
  split; [done|]. split; [done|]. split; [done|]. split; [done|].
  split; [by rewrite length_fmap|].
  intros i concept Hconcept. destruct (Hbuilt i concept Hconcept) as (node & Hnode & Hnew).
  exists node, (newEdge sourceNode node). split; [done|].
  split; [by rewrite list_lookup_fmap, Hnode|].
  unfold newNode in Hnew. simpl in Hnew.
  destruct (getProp concept (js "title")) as [c_title|] eqn:Htitle; [|done].
  injection Hnew as <-.
  assert (prop concept (js "title") = c_title) as -> by (unfold prop; by rewrite Htitle).
  split_and!; reflexivity.
Qed.

(** One run of the handler sends at most one request and, when it has
    sent one, always ends by clearing [isExpandingSource].  While an
    expansion is under way or done it does nothing; for a node without url
    or content it only reports that.  Otherwise the request carries a title
    that is not empty, and between the request and the clearing there is
    nothing, or one error message that is not empty, or the new nodes and
    edges followed by [hasExpandedSource]; there is nothing when the
    response arrives after the selection has changed. *)
Theorem handleExpandSource_sends_once_and_clears :
  let trace := handleExpandSource sourceNode render run in
  let usable_node :=
    given (metadata_url sourceNode) && given (metadata_full_text sourceNode) in
  (isExpandingSource render || hasExpandedSource render = true → trace = []) ∧
  (isExpandingSource render || hasExpandedSource render = false →
   (usable_node = false →
    trace = [SetSourceExpandError
               (JString (js "Source is missing URL or content and cannot be expanded."))]) ∧
   (usable_node = true →
    ∃ title middle,
      title ≠ [] ∧
      trace =
        [SetIsExpandingSource true; SetSourceExpandError JNull;
         Fetch (requestBody title (held (metadata_url sourceNode))
                  (held (metadata_full_text sourceNode)))]
          ++ middle ++ [SetIsExpandingSource false] ∧
      (middle = [] ∨
       (∃ message, middle = [SetSourceExpandError message] ∧ truthy message = true) ∨
       (∃ newNodes newEdges,
          middle = [AddNodesAndEdges newNodes newEdges; SetHasExpandedSource true])) ∧
      (fetched run ≠ Rejected → activeAfterFetch run = false → middle = []))).
Proof.
  intros trace usable_node. subst trace usable_node. unfold handleExpandSource.
  split; [by intros ->|]. intros ->. cbv zeta. split.
  - intros Hno. rewrite <- negb_andb, Hno. done.
  - intros Hyes. rewrite <- negb_andb, Hyes. cbn [negb].
    eexists _, (afterFetch sourceNode render run). split; [|split; [done|]].
    { destruct (label sourceNode) as [[|c s]|]; simpl; by try (vm_compute; discriminate). }
    assert (caught run = [] ∨
            ∃ message, caught run = [SetSourceExpandError message] ∧ truthy message = true)
      as Hcaught.
    { unfold caught. destruct (activeInCatch run); [right|by left]. by eexists. }
    split.
    + unfold afterFetch. destruct (fetched run) as [|ok payload].
      { destruct Hcaught as [->|?]; [by left|by right; left]. }
      destruct (negb (activeAfterFetch run)); [by left|].
      destruct ok; simpl.
      2: { destruct (negb (activeAfterJson run)); [by left|]. right. left.
           eexists. split; [done|].
           by destruct (truthy (prop (default JNull payload) (js "error"))) eqn:Ht. }
      destruct payload as [data|];
        [|destruct Hcaught as [->|?]; [by left|by right; left]].
      destruct (negb (activeAfterJson run)); [by left|].
      destruct (negb (truthy (prop data (js "concepts")))
                || isZero (lengthOf (prop data (js "concepts")))).
      { right. left. by eexists. }
      destruct (prop data (js "concepts")) as [| |b|q|s|elems|fields];
        try (destruct Hcaught as [->|?]; [by left|by right; left]).
      destruct (newNodesFrom sourceNode render run 0 elems) as [nodes|];
        [|destruct Hcaught as [->|?]; [by left|by right; left]].
      right. right. by eexists _, _.
    + intros Hfetched Hactive. unfold afterFetch.
      destruct (fetched run) as [|ok payload]; [done|]. by rewrite Hactive.
Qed.

End Handler.

(** *** The side bar and the route together *)

Lemma viaJson_conceptValue c :
  ∃ fields,
    viaJson (conceptValue c) = JObject fields ∧
    lookupField (js "title") fields = JString (title c).
Proof. destruct c as [t x l [q|]]; by eexists. Qed.

Lemma viaJson_concepts (concepts : list ExpandedConcept) :
  viaJson (JArray (conceptValue <$> concepts)) = JArray (viaJson ∘ conceptValue <$> concepts).
Proof.
  simpl. f_equal. induction concepts as [|c rest IH]; [done|].
  rewrite !fmap_cons, <- IH. by destruct c as [t x l [q|]].
Qed.

Lemma newNodesFrom_concepts sourceNode render run i (concepts : list ExpandedConcept) :
  ∃ newNodes,
    newNodesFrom sourceNode render run i (viaJson ∘ conceptValue <$> concepts) = Some newNodes ∧
    (fun node => lookupField (js "label") node) <$> newNodes =
    (fun c => JString (title c)) <$> concepts.
Proof.
  revert i. induction concepts as [|c rest IH]; intros i; [by exists []|].
  destruct (IH (S i)) as (nodes & Hnodes & Hlabels).
  destruct (viaJson_conceptValue c) as (fields & Hfields & Htitle).
  rewrite fmap_cons. cbn [newNodesFrom compose]. unfold newNode at 1.
  rewrite Hfields. cbn [getProp]. rewrite Htitle. cbn [mbind option_bind].
  rewrite Hnodes. cbn [mbind option_bind]. eexists. split; [done|].
  rewrite !fmap_cons, Hlabels. done.
Qed.

Section Served.

Variable exceeds70 : Z → Z → bool.
Variable exaApiKey : option jsstring.
Variable exaAnswer : jsstring → Thrown + JSValue.
Variable typeErrorMessage : jsstring.
Variable sourceNode : DirectSourceNode.

Local Abbreviation handle :=
  (Route.handleExpandSource exceeds70 exaApiKey exaAnswer typeErrorMessage).

(** The side bar never sends a request the route refuses.  For a node
    with a url and a content, the request passes the checks of the route
    and asks for the level [medium]; the route answers 200 or 500, never
    400.  On a 500 the side bar shows the [error] of the answer, [Concept
    extraction failed], whatever its [message] says; on a 200 without
    concepts it reports that none were extracted; on a 200 with concepts
    it adds one node for each, labelled with the title of the concept, and
    one edge for each node.  (The node stays selected, and the bodies
    travel as JSON.) *)
Theorem side_bar_shows_what_the_route_answers
    (edges : list (list (jsstring * JSValue))) (uuidv4 : nat → jsstring)
    (requestStart finish : Z) (w : World) :
  given (metadata_url sourceNode) = true →
  given (metadata_full_text sourceNode) = true →
  let title := if given (label sourceNode) then held (label sourceNode)
               else js "Unknown Source" in
  let url := held (metadata_url sourceNode) in
  let request := requestBody title url (held (metadata_full_text sourceNode)) in
  ∃ response middle,
    (handle request requestStart finish w).2 = inr response ∧
    statusCode response ≠ 400 ∧
    Sidebar.handleExpandSource sourceNode (atRest edges)
      (undisturbed (answeredWith response) uuidv4) =
      [SetIsExpandingSource true; SetSourceExpandError JNull; Fetch request]
        ++ middle ++ [SetIsExpandingSource false] ∧
    ((statusCode response = 500 ∧
      middle = [SetSourceExpandError (JString (js "Concept extraction failed"))]) ∨
     (statusCode response = 200 ∧
      ∃ concepts,
        body response = successBody concepts (finish - requestStart) Medium title url ∧
        ((concepts = [] ∧
          middle = [SetSourceExpandError
                      (JString (js "No concepts were extracted from the source."))]) ∨
         (concepts ≠ [] ∧
          ∃ newNodes,
            middle = [AddNodesAndEdges newNodes (newEdge sourceNode <$> newNodes);
                      SetHasExpandedSource true] ∧
            (fun node => lookupField (js "label") node) <$> newNodes =
            (fun c => JString (Expand.title c)) <$> concepts)))).
Proof.
  intros Hurl Hcontent title url request.
  assert (title ≠ []) as Htitle.
  { subst title. destruct (label sourceNode) as [[|c s]|]; simpl;
      by try (vm_compute; discriminate). }
  assert (wellFormed request title url (held (metadata_full_text sourceNode))) as Hwf.
  { subst request url. unfold wellFormed, requestBody. cbn [getProp].
    split_and!; try reflexivity; try done.
    - by destruct (metadata_url sourceNode) as [[|c s]|].
    - by destruct (metadata_full_text sourceNode) as [[|c s]|]. }
  assert (levelOf request = Medium) as Hlevel by reflexivity.
  rewrite (handle_wellFormed _ _ _ _ _ _ _ _ _ _ _ Hwf). cbv zeta. rewrite Hlevel.
  unfold Sidebar.handleExpandSource, atRest. cbn [isExpandingSource hasExpandedSource orb].
  rewrite Hurl, Hcontent. cbn [negb orb]. fold title. fold url. fold request.
  match goal with |- context [expandSourceAgent ?a ?b ?c ?d ?e ?f ?g] =>
    destruct (expandSourceAgent a b c d e f g) as [w2 [e'|concepts]] end; cbn [snd].
  - eexists _, _. split; [done|]. split; [done|]. split; [|left; done].
    reflexivity.
  - destruct concepts as [|c rest].
    { eexists _, _. split; [done|]. split; [done|]. split; [reflexivity|].
      right. split; [done|]. exists []. split; [done|]. by left. }
    set (concepts := c :: rest).
    set (response :=
           {| statusCode := 200;
              body := successBody concepts (finish - requestStart) Medium title url |}).
    destruct (newNodesFrom_concepts sourceNode (atRest edges)
                (undisturbed (answeredWith response) uuidv4) 0 concepts)
      as (newNodes & Hnodes & Hlabels).
    exists response,
      [AddNodesAndEdges newNodes (newEdge sourceNode <$> newNodes); SetHasExpandedSource true].
    split; [done|]. split; [done|]. split.
    2: { right. split; [done|]. exists concepts. split; [done|].
         right. split; [done|]. by exists newNodes. }
    do 3 f_equal. unfold afterFetch.
    change (fetched (undisturbed (answeredWith response) uuidv4))
      with (Responded true (Some (viaJson (body response)))).
    cbn [activeAfterFetch activeAfterJson undisturbed negb].
    assert (prop (viaJson (body response)) (js "concepts") =
            JArray (viaJson ∘ conceptValue <$> concepts)) as ->.
    { rewrite <- viaJson_concepts. reflexivity. }
    fold (atRest edges). rewrite Hnodes.
    replace (negb (truthy (JArray (viaJson ∘ conceptValue <$> concepts)))
             || isZero (lengthOf (JArray (viaJson ∘ conceptValue <$> concepts))))
      with false; [done|].
    cbn [truthy negb orb lengthOf isZero]. rewrite length_fmap. subst concepts.
    symmetry. unfold Qeq_bool, inject_Z. cbn [Qnum Qden length]. apply Z.eqb_neq. lia.
Qed.

End Served.

Lemma expansion_adds_one_node_and_edge_per_concept_witness :
  SetHasExpandedSource true
    ∈ Sidebar.handleExpandSource asdNode (atRest [supportEdge]) asdRun ∧
  length asdNewNodes = 5%nat.
Proof.
  split; [|reflexivity].
  exact (proj1 (expansion_adds_one_node_and_edge_per_concept asdNode (atRest [supportEdge])
                  asdRun asdNewNodes (newEdge asdNode <$> asdNewNodes)
                  ltac:(apply (list_elem_of_lookup_2 _ 3); vm_compute; reflexivity))).
Defined.

Lemma side_bar_shows_what_the_route_answers_witness :
  ∃ response,
    (Route.handleExpandSource exceeds70Exact (Some (js "key")) generous (js "TypeError")
       (requestBody (js "What is Autism Spectrum Disorder (ASD)?")
          (js "https://example.org/asd") (js "Autism is a developmental condition."))
       1000 1750 quiet).2 = inr response ∧
    statusCode response ≠ 400.
Proof.
  destruct (side_bar_shows_what_the_route_answers exceeds70Exact (Some (js "key")) generous
              (js "TypeError") asdNode [supportEdge] numbered 1000 1750 quiet
              eq_refl eq_refl) as (response & middle & Hresponse & Hstatus & _).
  exists response. split; [exact Hresponse|exact Hstatus].
Defined.

End SidebarSpec.
